(** * KassutronicsQuantizer: a shallow embedding of the firmware core

    The firmware targets an 8-bit AVR: [byte] is 8 bits unsigned,
    [signed char] 8 bits signed, [int] 16 bits signed and [unsigned int]
    16 bits unsigned.  Every machine integer is a [Z] and each conversion
    the C code performs is written out with the wrap-around of its type. *)

From Stdlib Require Import ZArith List Bool Lia.
From stdpp Require Import base list gmap.
Import ListNotations.

Local Open Scope Z_scope.

(** ** Machine integers *)

Definition to_byte (z : Z) : Z := z mod 256.
Definition to_schar (z : Z) : Z := (z + 128) mod 256 - 128.
Definition to_int (z : Z) : Z := (z + 32768) mod 65536 - 32768.
Definition to_uint (z : Z) : Z := z mod 65536.

(** C division truncates towards zero. *)
Definition cdiv (a b : Z) : Z := Z.quot a b.

(** ** hardware.h: the modulo-12 lookup *)

Definition mod12table : list Z :=
  [0;0;0;12;12;12;24;24;24;36;36;36;48;48;48;60;60;60;72;72;72;84;84;84;
   96;96;96;108;108;108;120;120;120;132;132;132;144;144;144;156;156;156;
   168;168;168;180;180;180;192;192;192;204;204;204;216;216;216;228;228;228;
   240;240;240;252].

(** The table has 64 entries.  The macro does not check its index; a read
    outside the table is undefined in the source and is given the value 0
    here.  Results that rest on [mod12] carry the hypothesis that the
    index is inside the table. *)
Definition mod12table_at (k : Z) : Z :=
  if (0 <=? k) && (k <? 64) then nth (Z.to_nat k) mod12table 0 else 0.

(** [#define mod12(value) ((value) - mod12table[(value) >> 2])] *)
Definition mod12 (value : Z) : Z := value - mod12table_at (Z.shiftr value 2).

(** [intmap], on 16-bit [int]. *)
Definition intmap (x in_min in_max out_min out_max : Z) : Z :=
  to_int (cdiv (to_int (to_int (x - in_min) * to_int (out_max - out_min)))
               (to_int (in_max - in_min)) + out_min).

(** ** Core.ino: system constants *)

Definition gatelengths : list Z :=
  [5; 50; 85; 144; 245; 416; 707; 1201; 2040; 3466; 5887; 10000].
Definition quartertone : Z := 4.
Definition hysteresis : Z := 1.
Definition gatedelay : Z := 2.
Definition triggerdebounce : Z := 6.
Definition triggerautotime : Z := 10000.
Definition triggerdelayscale : Z := 5.
Definition autosavetime : Z := 10000.

(** ** Quantize.ino *)

Module Quantize.

(** [const unsigned int bitmask = 1<<15] *)
Definition bitmask : Z := Z.shiftl 1 15.

(** [localscale & bitmask] used as a condition. *)
Definition bit_set (localscale : Z) : bool :=
  negb (Z.land localscale bitmask =? 0).

(** [localscale <<= n] on an [unsigned int]. *)
Definition shl (localscale n : Z) : Z := to_uint (Z.shiftl localscale n).

(** [note = (adcval + quartertone) >> 3] stored in a [byte]. *)
Definition note_of (adcval : Z) : Z :=
  to_byte (Z.shiftr (to_int (adcval + quartertone)) 3).

(** [r = adcval & 0b111] *)
Definition rem_of (adcval : Z) : Z := to_byte (Z.land adcval 7).

(** [scalenote = mod12(note + 8)] stored in a [byte]. *)
Definition scalenote_of (note : Z) : Z := to_byte (mod12 (note + 8)).

Definition quantizeSemitones (adcval : Z) : Z := note_of adcval.

(** The loops of [quantizeNearest] that stop at the first enabled note:
    [for (; j<bound; j++) { if (localscale & bitmask) { found = j; break; }
    localscale <<= 1; }].  [n] is the number of iterations left,
    [bound - j].  Returns [found] (255 when the loop ends without a hit),
    [j] and [localscale]. *)
Fixpoint scan_first (n : nat) (j localscale : Z) : Z * Z * Z :=
  match n with
  | O => (255, j, localscale)
  | S n' =>
      if bit_set localscale then (j, j, localscale)
      else scan_first n' (j + 1) (shl localscale 1)
  end.

(** The loops that run on to the bound and remember the last enabled note:
    [for (; j<bound; j++) { if (localscale & bitmask) { last = j; }
    localscale <<= 1; }]. *)
Fixpoint scan_last (n : nat) (j localscale last : Z) : Z * Z :=
  match n with
  | O => (last, localscale)
  | S n' =>
      scan_last n' (j + 1) (shl localscale 1)
                (if bit_set localscale then j else last)
  end.

(** The search part of [quantizeNearest]: from the rotated scale and the
    scale index of the rounded note, whether that note is enabled and the
    distances [next] and [prev] to the enabled notes above and below. *)
Definition search (rotatedscale scalenote : Z) : bool * Z * Z :=
  let localscale := rotatedscale in
  let '(ll, j, localscale) := scan_first (Z.to_nat scalenote) 0 localscale in
  let '(lh, localscale) := scan_last (Z.to_nat (scalenote - j)) j localscale 255 in
  let current := Z.land localscale bitmask =? bitmask in
  let localscale := shl localscale 1 in
  let j := to_byte (scalenote + 1) in
  let '(hl, j, localscale) := scan_first (Z.to_nat (12 - j)) j localscale in
  let '(hh, localscale) := scan_last (Z.to_nat (12 - j)) j localscale 255 in
  let prev :=
    to_byte (if lh =? 255
             then if hh =? 255 then 12 else scalenote + 12 - hh
             else scalenote - lh) in
  let next :=
    to_byte (if hl =? 255
             then if ll =? 255 then 12 else 12 + ll - scalenote
             else hl - scalenote) in
  (current, next, prev).

(** Quantization mode 0: nearest. *)
Definition quantizeNearest (rotatedscale adcval : Z) : Z :=
  let note := note_of adcval in
  let r := rem_of adcval in
  let scalenote := scalenote_of note in
  if rotatedscale =? 0 then 255
  else
    let '(current, next, prev) := search rotatedscale scalenote in
    if current then note
    else if (next <? prev) || ((next =? prev) && (r <? 4))
         then to_byte (note + next)
         else to_byte (note - prev).

(** Quantization mode 1: skip. *)
Definition quantizeSkip (rotatedscale adcval : Z) : Z :=
  let localscale := rotatedscale in
  if localscale =? 0 then 255
  else
    let note := note_of adcval in
    let scalenote := scalenote_of note in
    let localscale := shl localscale scalenote in
    if Z.land localscale bitmask =? bitmask then note else 255.

(** The loop of [quantizeEqual] that gathers the enabled notes:
    [for (j=0; j<12; j++) { if (localscale & bitmask) { notes[numnotes] = j;
    numnotes++; } localscale <<= 1; }]. *)
Fixpoint gather (n : nat) (j localscale numnotes : Z) (notes : list Z)
  : Z * list Z :=
  match n with
  | O => (numnotes, notes)
  | S n' =>
      if bit_set localscale
      then gather n' (j + 1) (shl localscale 1) (to_byte (numnotes + 1))
                  (<[Z.to_nat numnotes := j]> notes)
      else gather n' (j + 1) (shl localscale 1) numnotes notes
  end.

(** Quantization mode 2: equal. *)
Definition quantizeEqual (rotatedscale adcval : Z) : Z :=
  let note := note_of adcval in
  let r := rem_of adcval in
  let scalenote := scalenote_of note in
  let noteoffset := to_byte (note - scalenote) in
  let localscale := rotatedscale in
  if localscale =? 0 then 255
  else
    let '(numnotes, notes) := gather 12 0 localscale 0 (replicate 12 0) in
    let scalenotehighres := to_byte (Z.shiftl scalenote 3 + r) in
    let x := to_uint (scalenotehighres * numnotes) in
    let index := to_byte (cdiv x 96) in
    to_byte (noteoffset + nth (Z.to_nat index) notes 0).

End Quantize.

(** ** Core.ino: data

    The two-element arrays of the source ([cvmode[2]], [outval[2]], ...)
    are pairs indexed by the channel, the [byte i] of the source, which is
    0 or 1 at every call site ([readchannel >> 1]). *)

Inductive chan := chA | chB.

Definition chan_index (i : chan) : Z := match i with chA => 0 | chB => 1 end.

Definition arr2 (A : Type) : Type := (A * A)%type.

Definition get {A} (i : chan) (a : arr2 A) : A :=
  match i with chA => fst a | chB => snd a end.

Definition put {A} (i : chan) (v : A) (a : arr2 A) : arr2 A :=
  match i with chA => (v, snd a) | chB => (fst a, v) end.

(** [enum Mode]: the menu the front panel is in. *)
Module Mode.
Inductive t :=
  | normal | rotate | transpose | transposeB | offset | offsetB | keyboard
  | load | save | cvA | cvB | gatelengthmenu | qmodemenu | triggerdelaymenu.
End Mode.

(** [enum CVMode] and [enum QMode] are byte-sized and the menu code stores
    a key number in them with a cast, so they are kept as bytes. *)
Definition cvgatelength : Z := 0.
Definition cvrotate : Z := 1.
Definition cvtranspose : Z := 2.
Definition cvtransposechannel : Z := 3.
Definition cvoffset : Z := 4.
Definition cvoffsetchannel : Z := 5.
Definition cvload : Z := 12.
Definition cvoff : Z := 255.
Definition MAX_CV_MODE : Z := 5.

Definition qmnearest : Z := 0.
Definition qmskip : Z := 1.
Definition qmequal : Z := 2.
Definition MAX_Q_MODE : Z := 2.

(** [struct PersistentState] *)
Module PersistentState.
Record t := mk {
  scale : Z;
  gatelengthindex : Z;
  rotatesemitones : Z;
  transposesemitones : Z;
  transposeBsemitones : Z;
  offsetsemitones : Z;
  offsetBsemitones : Z;
  gatelegato : bool;
  qmode : Z;
  triggerdelay : Z;
  cvmode : arr2 Z;
  reserved : list Z
}.

Definition set_scale (v : Z) (s : t) : t :=
  {| scale := v; gatelengthindex := gatelengthindex s; rotatesemitones :=
     rotatesemitones s; transposesemitones := transposesemitones s;
     transposeBsemitones := transposeBsemitones s; offsetsemitones :=
     offsetsemitones s; offsetBsemitones := offsetBsemitones s; gatelegato
     := gatelegato s; qmode := qmode s; triggerdelay := triggerdelay s;
     cvmode := cvmode s; reserved := reserved s |}.
Definition set_gatelengthindex (v : Z) (s : t) : t :=
  {| scale := scale s; gatelengthindex := v; rotatesemitones :=
     rotatesemitones s; transposesemitones := transposesemitones s;
     transposeBsemitones := transposeBsemitones s; offsetsemitones :=
     offsetsemitones s; offsetBsemitones := offsetBsemitones s; gatelegato
     := gatelegato s; qmode := qmode s; triggerdelay := triggerdelay s;
     cvmode := cvmode s; reserved := reserved s |}.
Definition set_rotatesemitones (v : Z) (s : t) : t :=
  {| scale := scale s; gatelengthindex := gatelengthindex s; rotatesemitones
     := v; transposesemitones := transposesemitones s; transposeBsemitones
     := transposeBsemitones s; offsetsemitones := offsetsemitones s;
     offsetBsemitones := offsetBsemitones s; gatelegato := gatelegato s;
     qmode := qmode s; triggerdelay := triggerdelay s; cvmode := cvmode s;
     reserved := reserved s |}.
Definition set_transposesemitones (v : Z) (s : t) : t :=
  {| scale := scale s; gatelengthindex := gatelengthindex s; rotatesemitones
     := rotatesemitones s; transposesemitones := v; transposeBsemitones :=
     transposeBsemitones s; offsetsemitones := offsetsemitones s;
     offsetBsemitones := offsetBsemitones s; gatelegato := gatelegato s;
     qmode := qmode s; triggerdelay := triggerdelay s; cvmode := cvmode s;
     reserved := reserved s |}.
Definition set_transposeBsemitones (v : Z) (s : t) : t :=
  {| scale := scale s; gatelengthindex := gatelengthindex s; rotatesemitones
     := rotatesemitones s; transposesemitones := transposesemitones s;
     transposeBsemitones := v; offsetsemitones := offsetsemitones s;
     offsetBsemitones := offsetBsemitones s; gatelegato := gatelegato s;
     qmode := qmode s; triggerdelay := triggerdelay s; cvmode := cvmode s;
     reserved := reserved s |}.
Definition set_offsetsemitones (v : Z) (s : t) : t :=
  {| scale := scale s; gatelengthindex := gatelengthindex s; rotatesemitones
     := rotatesemitones s; transposesemitones := transposesemitones s;
     transposeBsemitones := transposeBsemitones s; offsetsemitones := v;
     offsetBsemitones := offsetBsemitones s; gatelegato := gatelegato s;
     qmode := qmode s; triggerdelay := triggerdelay s; cvmode := cvmode s;
     reserved := reserved s |}.
Definition set_offsetBsemitones (v : Z) (s : t) : t :=
  {| scale := scale s; gatelengthindex := gatelengthindex s; rotatesemitones
     := rotatesemitones s; transposesemitones := transposesemitones s;
     transposeBsemitones := transposeBsemitones s; offsetsemitones :=
     offsetsemitones s; offsetBsemitones := v; gatelegato := gatelegato s;
     qmode := qmode s; triggerdelay := triggerdelay s; cvmode := cvmode s;
     reserved := reserved s |}.
Definition set_gatelegato (v : bool) (s : t) : t :=
  {| scale := scale s; gatelengthindex := gatelengthindex s; rotatesemitones
     := rotatesemitones s; transposesemitones := transposesemitones s;
     transposeBsemitones := transposeBsemitones s; offsetsemitones :=
     offsetsemitones s; offsetBsemitones := offsetBsemitones s; gatelegato
     := v; qmode := qmode s; triggerdelay := triggerdelay s; cvmode :=
     cvmode s; reserved := reserved s |}.
Definition set_qmode (v : Z) (s : t) : t :=
  {| scale := scale s; gatelengthindex := gatelengthindex s; rotatesemitones
     := rotatesemitones s; transposesemitones := transposesemitones s;
     transposeBsemitones := transposeBsemitones s; offsetsemitones :=
     offsetsemitones s; offsetBsemitones := offsetBsemitones s; gatelegato
     := gatelegato s; qmode := v; triggerdelay := triggerdelay s; cvmode :=
     cvmode s; reserved := reserved s |}.
Definition set_triggerdelay (v : Z) (s : t) : t :=
  {| scale := scale s; gatelengthindex := gatelengthindex s; rotatesemitones
     := rotatesemitones s; transposesemitones := transposesemitones s;
     transposeBsemitones := transposeBsemitones s; offsetsemitones :=
     offsetsemitones s; offsetBsemitones := offsetBsemitones s; gatelegato
     := gatelegato s; qmode := qmode s; triggerdelay := v; cvmode := cvmode
     s; reserved := reserved s |}.
Definition set_cvmode (v : arr2 Z) (s : t) : t :=
  {| scale := scale s; gatelengthindex := gatelengthindex s; rotatesemitones
     := rotatesemitones s; transposesemitones := transposesemitones s;
     transposeBsemitones := transposeBsemitones s; offsetsemitones :=
     offsetsemitones s; offsetBsemitones := offsetBsemitones s; gatelegato
     := gatelegato s; qmode := qmode s; triggerdelay := triggerdelay s;
     cvmode := v; reserved := reserved s |}.
Definition set_reserved (v : list Z) (s : t) : t :=
  {| scale := scale s; gatelengthindex := gatelengthindex s; rotatesemitones
     := rotatesemitones s; transposesemitones := transposesemitones s;
     transposeBsemitones := transposeBsemitones s; offsetsemitones :=
     offsetsemitones s; offsetBsemitones := offsetBsemitones s; gatelegato
     := gatelegato s; qmode := qmode s; triggerdelay := triggerdelay s;
     cvmode := cvmode s; reserved := v |}.
End PersistentState.

(** The [static] variables of [processChannel]. *)
Module Channel.
Record t := mk {
  outval : arr2 Z;
  lastgateoutval : arr2 Z;
  gatecounter : arr2 Z;
  freerunning : arr2 bool;
  triggercounter : arr2 Z;
  triggerdelay : arr2 Z
}.

Definition set_outval (v : arr2 Z) (s : t) : t :=
  {| outval := v; lastgateoutval := lastgateoutval s; gatecounter :=
     gatecounter s; freerunning := freerunning s; triggercounter :=
     triggercounter s; triggerdelay := triggerdelay s |}.
Definition set_lastgateoutval (v : arr2 Z) (s : t) : t :=
  {| outval := outval s; lastgateoutval := v; gatecounter := gatecounter s;
     freerunning := freerunning s; triggercounter := triggercounter s;
     triggerdelay := triggerdelay s |}.
Definition set_gatecounter (v : arr2 Z) (s : t) : t :=
  {| outval := outval s; lastgateoutval := lastgateoutval s; gatecounter :=
     v; freerunning := freerunning s; triggercounter := triggercounter s;
     triggerdelay := triggerdelay s |}.
Definition set_freerunning (v : arr2 bool) (s : t) : t :=
  {| outval := outval s; lastgateoutval := lastgateoutval s; gatecounter :=
     gatecounter s; freerunning := v; triggercounter := triggercounter s;
     triggerdelay := triggerdelay s |}.
Definition set_triggercounter (v : arr2 Z) (s : t) : t :=
  {| outval := outval s; lastgateoutval := lastgateoutval s; gatecounter :=
     gatecounter s; freerunning := freerunning s; triggercounter := v;
     triggerdelay := triggerdelay s |}.
Definition set_triggerdelay (v : arr2 Z) (s : t) : t :=
  {| outval := outval s; lastgateoutval := lastgateoutval s; gatecounter :=
     gatecounter s; freerunning := freerunning s; triggercounter :=
     triggercounter s; triggerdelay := v |}.
End Channel.

(** The globals of the sketch, the statics of [processChannel] and
    [processCV], the EEPROM (address to byte, an erased cell reads 255) and
    the two output registers the core writes: the PWM compare registers
    behind [setDAC] and the gate bits of [GATE_PORT]. *)
Record State := Build_State {
  state : PersistentState.t;
  rotatedscale : Z;
  mode : Mode.t;
  keyboardoctaves : Z;
  keyboardsemitones : Z;
  keyboardtriggered : Z;
  rotatesemitonesCV : Z;
  transposesemitonesCV : arr2 Z;
  offsetsemitonesCV : arr2 Z;
  gatelength : Z;
  cvgatelengthindex : Z;
  cvgatelengthremainder : Z;
  autosavecounter : Z;
  eebusy : bool;
  EEPROM : gmap Z Z;
  statics : Channel.t;
  CVquantized : arr2 Z;
  OCR1 : arr2 Z;
  GATE_PORT : arr2 bool
}.

Definition set_state (v : PersistentState.t) (s : State) : State :=
  {| state := v; rotatedscale := rotatedscale s; mode := mode s;
     keyboardoctaves := keyboardoctaves s; keyboardsemitones :=
     keyboardsemitones s; keyboardtriggered := keyboardtriggered s;
     rotatesemitonesCV := rotatesemitonesCV s; transposesemitonesCV :=
     transposesemitonesCV s; offsetsemitonesCV := offsetsemitonesCV s;
     gatelength := gatelength s; cvgatelengthindex := cvgatelengthindex s;
     cvgatelengthremainder := cvgatelengthremainder s; autosavecounter :=
     autosavecounter s; eebusy := eebusy s; EEPROM := EEPROM s; statics :=
     statics s; CVquantized := CVquantized s; OCR1 := OCR1 s; GATE_PORT :=
     GATE_PORT s |}.
Definition set_rotatedscale (v : Z) (s : State) : State :=
  {| state := state s; rotatedscale := v; mode := mode s; keyboardoctaves :=
     keyboardoctaves s; keyboardsemitones := keyboardsemitones s;
     keyboardtriggered := keyboardtriggered s; rotatesemitonesCV :=
     rotatesemitonesCV s; transposesemitonesCV := transposesemitonesCV s;
     offsetsemitonesCV := offsetsemitonesCV s; gatelength := gatelength s;
     cvgatelengthindex := cvgatelengthindex s; cvgatelengthremainder :=
     cvgatelengthremainder s; autosavecounter := autosavecounter s; eebusy
     := eebusy s; EEPROM := EEPROM s; statics := statics s; CVquantized :=
     CVquantized s; OCR1 := OCR1 s; GATE_PORT := GATE_PORT s |}.
Definition set_mode (v : Mode.t) (s : State) : State :=
  {| state := state s; rotatedscale := rotatedscale s; mode := v;
     keyboardoctaves := keyboardoctaves s; keyboardsemitones :=
     keyboardsemitones s; keyboardtriggered := keyboardtriggered s;
     rotatesemitonesCV := rotatesemitonesCV s; transposesemitonesCV :=
     transposesemitonesCV s; offsetsemitonesCV := offsetsemitonesCV s;
     gatelength := gatelength s; cvgatelengthindex := cvgatelengthindex s;
     cvgatelengthremainder := cvgatelengthremainder s; autosavecounter :=
     autosavecounter s; eebusy := eebusy s; EEPROM := EEPROM s; statics :=
     statics s; CVquantized := CVquantized s; OCR1 := OCR1 s; GATE_PORT :=
     GATE_PORT s |}.
Definition set_keyboardoctaves (v : Z) (s : State) : State :=
  {| state := state s; rotatedscale := rotatedscale s; mode := mode s;
     keyboardoctaves := v; keyboardsemitones := keyboardsemitones s;
     keyboardtriggered := keyboardtriggered s; rotatesemitonesCV :=
     rotatesemitonesCV s; transposesemitonesCV := transposesemitonesCV s;
     offsetsemitonesCV := offsetsemitonesCV s; gatelength := gatelength s;
     cvgatelengthindex := cvgatelengthindex s; cvgatelengthremainder :=
     cvgatelengthremainder s; autosavecounter := autosavecounter s; eebusy
     := eebusy s; EEPROM := EEPROM s; statics := statics s; CVquantized :=
     CVquantized s; OCR1 := OCR1 s; GATE_PORT := GATE_PORT s |}.
Definition set_keyboardsemitones (v : Z) (s : State) : State :=
  {| state := state s; rotatedscale := rotatedscale s; mode := mode s;
     keyboardoctaves := keyboardoctaves s; keyboardsemitones := v;
     keyboardtriggered := keyboardtriggered s; rotatesemitonesCV :=
     rotatesemitonesCV s; transposesemitonesCV := transposesemitonesCV s;
     offsetsemitonesCV := offsetsemitonesCV s; gatelength := gatelength s;
     cvgatelengthindex := cvgatelengthindex s; cvgatelengthremainder :=
     cvgatelengthremainder s; autosavecounter := autosavecounter s; eebusy
     := eebusy s; EEPROM := EEPROM s; statics := statics s; CVquantized :=
     CVquantized s; OCR1 := OCR1 s; GATE_PORT := GATE_PORT s |}.
Definition set_keyboardtriggered (v : Z) (s : State) : State :=
  {| state := state s; rotatedscale := rotatedscale s; mode := mode s;
     keyboardoctaves := keyboardoctaves s; keyboardsemitones :=
     keyboardsemitones s; keyboardtriggered := v; rotatesemitonesCV :=
     rotatesemitonesCV s; transposesemitonesCV := transposesemitonesCV s;
     offsetsemitonesCV := offsetsemitonesCV s; gatelength := gatelength s;
     cvgatelengthindex := cvgatelengthindex s; cvgatelengthremainder :=
     cvgatelengthremainder s; autosavecounter := autosavecounter s; eebusy
     := eebusy s; EEPROM := EEPROM s; statics := statics s; CVquantized :=
     CVquantized s; OCR1 := OCR1 s; GATE_PORT := GATE_PORT s |}.
Definition set_rotatesemitonesCV (v : Z) (s : State) : State :=
  {| state := state s; rotatedscale := rotatedscale s; mode := mode s;
     keyboardoctaves := keyboardoctaves s; keyboardsemitones :=
     keyboardsemitones s; keyboardtriggered := keyboardtriggered s;
     rotatesemitonesCV := v; transposesemitonesCV := transposesemitonesCV s;
     offsetsemitonesCV := offsetsemitonesCV s; gatelength := gatelength s;
     cvgatelengthindex := cvgatelengthindex s; cvgatelengthremainder :=
     cvgatelengthremainder s; autosavecounter := autosavecounter s; eebusy
     := eebusy s; EEPROM := EEPROM s; statics := statics s; CVquantized :=
     CVquantized s; OCR1 := OCR1 s; GATE_PORT := GATE_PORT s |}.
Definition set_transposesemitonesCV (v : arr2 Z) (s : State) : State :=
  {| state := state s; rotatedscale := rotatedscale s; mode := mode s;
     keyboardoctaves := keyboardoctaves s; keyboardsemitones :=
     keyboardsemitones s; keyboardtriggered := keyboardtriggered s;
     rotatesemitonesCV := rotatesemitonesCV s; transposesemitonesCV := v;
     offsetsemitonesCV := offsetsemitonesCV s; gatelength := gatelength s;
     cvgatelengthindex := cvgatelengthindex s; cvgatelengthremainder :=
     cvgatelengthremainder s; autosavecounter := autosavecounter s; eebusy
     := eebusy s; EEPROM := EEPROM s; statics := statics s; CVquantized :=
     CVquantized s; OCR1 := OCR1 s; GATE_PORT := GATE_PORT s |}.
Definition set_offsetsemitonesCV (v : arr2 Z) (s : State) : State :=
  {| state := state s; rotatedscale := rotatedscale s; mode := mode s;
     keyboardoctaves := keyboardoctaves s; keyboardsemitones :=
     keyboardsemitones s; keyboardtriggered := keyboardtriggered s;
     rotatesemitonesCV := rotatesemitonesCV s; transposesemitonesCV :=
     transposesemitonesCV s; offsetsemitonesCV := v; gatelength :=
     gatelength s; cvgatelengthindex := cvgatelengthindex s;
     cvgatelengthremainder := cvgatelengthremainder s; autosavecounter :=
     autosavecounter s; eebusy := eebusy s; EEPROM := EEPROM s; statics :=
     statics s; CVquantized := CVquantized s; OCR1 := OCR1 s; GATE_PORT :=
     GATE_PORT s |}.
Definition set_gatelength (v : Z) (s : State) : State :=
  {| state := state s; rotatedscale := rotatedscale s; mode := mode s;
     keyboardoctaves := keyboardoctaves s; keyboardsemitones :=
     keyboardsemitones s; keyboardtriggered := keyboardtriggered s;
     rotatesemitonesCV := rotatesemitonesCV s; transposesemitonesCV :=
     transposesemitonesCV s; offsetsemitonesCV := offsetsemitonesCV s;
     gatelength := v; cvgatelengthindex := cvgatelengthindex s;
     cvgatelengthremainder := cvgatelengthremainder s; autosavecounter :=
     autosavecounter s; eebusy := eebusy s; EEPROM := EEPROM s; statics :=
     statics s; CVquantized := CVquantized s; OCR1 := OCR1 s; GATE_PORT :=
     GATE_PORT s |}.
Definition set_cvgatelengthindex (v : Z) (s : State) : State :=
  {| state := state s; rotatedscale := rotatedscale s; mode := mode s;
     keyboardoctaves := keyboardoctaves s; keyboardsemitones :=
     keyboardsemitones s; keyboardtriggered := keyboardtriggered s;
     rotatesemitonesCV := rotatesemitonesCV s; transposesemitonesCV :=
     transposesemitonesCV s; offsetsemitonesCV := offsetsemitonesCV s;
     gatelength := gatelength s; cvgatelengthindex := v;
     cvgatelengthremainder := cvgatelengthremainder s; autosavecounter :=
     autosavecounter s; eebusy := eebusy s; EEPROM := EEPROM s; statics :=
     statics s; CVquantized := CVquantized s; OCR1 := OCR1 s; GATE_PORT :=
     GATE_PORT s |}.
Definition set_cvgatelengthremainder (v : Z) (s : State) : State :=
  {| state := state s; rotatedscale := rotatedscale s; mode := mode s;
     keyboardoctaves := keyboardoctaves s; keyboardsemitones :=
     keyboardsemitones s; keyboardtriggered := keyboardtriggered s;
     rotatesemitonesCV := rotatesemitonesCV s; transposesemitonesCV :=
     transposesemitonesCV s; offsetsemitonesCV := offsetsemitonesCV s;
     gatelength := gatelength s; cvgatelengthindex := cvgatelengthindex s;
     cvgatelengthremainder := v; autosavecounter := autosavecounter s;
     eebusy := eebusy s; EEPROM := EEPROM s; statics := statics s;
     CVquantized := CVquantized s; OCR1 := OCR1 s; GATE_PORT := GATE_PORT s |}.
Definition set_autosavecounter (v : Z) (s : State) : State :=
  {| state := state s; rotatedscale := rotatedscale s; mode := mode s;
     keyboardoctaves := keyboardoctaves s; keyboardsemitones :=
     keyboardsemitones s; keyboardtriggered := keyboardtriggered s;
     rotatesemitonesCV := rotatesemitonesCV s; transposesemitonesCV :=
     transposesemitonesCV s; offsetsemitonesCV := offsetsemitonesCV s;
     gatelength := gatelength s; cvgatelengthindex := cvgatelengthindex s;
     cvgatelengthremainder := cvgatelengthremainder s; autosavecounter := v;
     eebusy := eebusy s; EEPROM := EEPROM s; statics := statics s;
     CVquantized := CVquantized s; OCR1 := OCR1 s; GATE_PORT := GATE_PORT s |}.
Definition set_eebusy (v : bool) (s : State) : State :=
  {| state := state s; rotatedscale := rotatedscale s; mode := mode s;
     keyboardoctaves := keyboardoctaves s; keyboardsemitones :=
     keyboardsemitones s; keyboardtriggered := keyboardtriggered s;
     rotatesemitonesCV := rotatesemitonesCV s; transposesemitonesCV :=
     transposesemitonesCV s; offsetsemitonesCV := offsetsemitonesCV s;
     gatelength := gatelength s; cvgatelengthindex := cvgatelengthindex s;
     cvgatelengthremainder := cvgatelengthremainder s; autosavecounter :=
     autosavecounter s; eebusy := v; EEPROM := EEPROM s; statics := statics
     s; CVquantized := CVquantized s; OCR1 := OCR1 s; GATE_PORT := GATE_PORT
     s |}.
Definition set_EEPROM (v : gmap Z Z) (s : State) : State :=
  {| state := state s; rotatedscale := rotatedscale s; mode := mode s;
     keyboardoctaves := keyboardoctaves s; keyboardsemitones :=
     keyboardsemitones s; keyboardtriggered := keyboardtriggered s;
     rotatesemitonesCV := rotatesemitonesCV s; transposesemitonesCV :=
     transposesemitonesCV s; offsetsemitonesCV := offsetsemitonesCV s;
     gatelength := gatelength s; cvgatelengthindex := cvgatelengthindex s;
     cvgatelengthremainder := cvgatelengthremainder s; autosavecounter :=
     autosavecounter s; eebusy := eebusy s; EEPROM := v; statics := statics
     s; CVquantized := CVquantized s; OCR1 := OCR1 s; GATE_PORT := GATE_PORT
     s |}.
Definition set_statics (v : Channel.t) (s : State) : State :=
  {| state := state s; rotatedscale := rotatedscale s; mode := mode s;
     keyboardoctaves := keyboardoctaves s; keyboardsemitones :=
     keyboardsemitones s; keyboardtriggered := keyboardtriggered s;
     rotatesemitonesCV := rotatesemitonesCV s; transposesemitonesCV :=
     transposesemitonesCV s; offsetsemitonesCV := offsetsemitonesCV s;
     gatelength := gatelength s; cvgatelengthindex := cvgatelengthindex s;
     cvgatelengthremainder := cvgatelengthremainder s; autosavecounter :=
     autosavecounter s; eebusy := eebusy s; EEPROM := EEPROM s; statics :=
     v; CVquantized := CVquantized s; OCR1 := OCR1 s; GATE_PORT := GATE_PORT
     s |}.
Definition set_CVquantized (v : arr2 Z) (s : State) : State :=
  {| state := state s; rotatedscale := rotatedscale s; mode := mode s;
     keyboardoctaves := keyboardoctaves s; keyboardsemitones :=
     keyboardsemitones s; keyboardtriggered := keyboardtriggered s;
     rotatesemitonesCV := rotatesemitonesCV s; transposesemitonesCV :=
     transposesemitonesCV s; offsetsemitonesCV := offsetsemitonesCV s;
     gatelength := gatelength s; cvgatelengthindex := cvgatelengthindex s;
     cvgatelengthremainder := cvgatelengthremainder s; autosavecounter :=
     autosavecounter s; eebusy := eebusy s; EEPROM := EEPROM s; statics :=
     statics s; CVquantized := v; OCR1 := OCR1 s; GATE_PORT := GATE_PORT s |}.
Definition set_OCR1 (v : arr2 Z) (s : State) : State :=
  {| state := state s; rotatedscale := rotatedscale s; mode := mode s;
     keyboardoctaves := keyboardoctaves s; keyboardsemitones :=
     keyboardsemitones s; keyboardtriggered := keyboardtriggered s;
     rotatesemitonesCV := rotatesemitonesCV s; transposesemitonesCV :=
     transposesemitonesCV s; offsetsemitonesCV := offsetsemitonesCV s;
     gatelength := gatelength s; cvgatelengthindex := cvgatelengthindex s;
     cvgatelengthremainder := cvgatelengthremainder s; autosavecounter :=
     autosavecounter s; eebusy := eebusy s; EEPROM := EEPROM s; statics :=
     statics s; CVquantized := CVquantized s; OCR1 := v; GATE_PORT :=
     GATE_PORT s |}.
Definition set_GATE_PORT (v : arr2 bool) (s : State) : State :=
  {| state := state s; rotatedscale := rotatedscale s; mode := mode s;
     keyboardoctaves := keyboardoctaves s; keyboardsemitones :=
     keyboardsemitones s; keyboardtriggered := keyboardtriggered s;
     rotatesemitonesCV := rotatesemitonesCV s; transposesemitonesCV :=
     transposesemitonesCV s; offsetsemitonesCV := offsetsemitonesCV s;
     gatelength := gatelength s; cvgatelengthindex := cvgatelengthindex s;
     cvgatelengthremainder := cvgatelengthremainder s; autosavecounter :=
     autosavecounter s; eebusy := eebusy s; EEPROM := EEPROM s; statics :=
     statics s; CVquantized := CVquantized s; OCR1 := OCR1 s; GATE_PORT := v |}.

Definition upd_state (f : PersistentState.t -> PersistentState.t) (s : State)
  : State := set_state (f (state s)) s.

Definition upd_statics (f : Channel.t -> Channel.t) (s : State) : State :=
  set_statics (f (statics s)) s.

(** What a call writes to the outputs, in program order. *)
Inductive IOEvent :=
  | SetDAC (i : chan) (value : Z)
  | GateOn (i : chan)
  | GateOff (i : chan).

(** The values the sketch gives its variables at start-up.  [gatelength]
    has no initialiser and is zero until [updateGatelength] first runs. *)
Definition initial_persistent : PersistentState.t :=
  {| PersistentState.scale := 0xAD50;
     PersistentState.gatelengthindex := 0;
     PersistentState.rotatesemitones := 0;
     PersistentState.transposesemitones := 0;
     PersistentState.transposeBsemitones := 0;
     PersistentState.offsetsemitones := 0;
     PersistentState.offsetBsemitones := 0;
     PersistentState.gatelegato := false;
     PersistentState.qmode := qmnearest;
     PersistentState.triggerdelay := 0;
     PersistentState.cvmode := (cvoff, cvoff);
     PersistentState.reserved := [0; 0; 0] |}.

Definition initial_statics : Channel.t :=
  {| Channel.outval := (0, 0);
     Channel.lastgateoutval := (0, 0);
     Channel.gatecounter := (0, 0);
     Channel.freerunning := (true, true);
     Channel.triggercounter := (0, 0);
     Channel.triggerdelay := (0, 0) |}.

Definition initial_state : State :=
  {| state := initial_persistent;
     rotatedscale := 0xAD50;
     mode := Mode.normal;
     keyboardoctaves := 0;
     keyboardsemitones := 0;
     keyboardtriggered := 0;
     rotatesemitonesCV := 0;
     transposesemitonesCV := (0, 0);
     offsetsemitonesCV := (0, 0);
     gatelength := 0;
     cvgatelengthindex := 0;
     cvgatelengthremainder := 0;
     autosavecounter := 0;
     eebusy := false;
     EEPROM := ∅;
     statics := initial_statics;
     CVquantized := (0, 0);
     OCR1 := (0, 0);
     GATE_PORT := (false, false) |}.

(** ** Core.ino: scale rotation and gate length *)

(** The body of [updateRotation] as a function of the rotation and the
    scale: [if (rotation > 0) myscale = ((myscale >> rotation) |
    (myscale << (12 - rotation))) & 0xFFF0]. *)
Definition rotate_scale (rotation myscale : Z) : Z :=
  if 0 <? rotation
  then Z.land (Z.lor (Z.shiftr myscale rotation)
                     (to_uint (Z.shiftl myscale (12 - rotation))))
              0xFFF0
  else myscale.

Definition updateRotation (st : State) : State :=
  let rotation :=
    to_byte (mod12 (PersistentState.rotatesemitones (state st)
                    + rotatesemitonesCV st)) in
  set_rotatedscale (rotate_scale rotation (PersistentState.scale (state st))) st.

(** The value [updateGatelength] stores, from the two indices and the
    remainder. *)
Definition gatelength_of (gatelengthindex cvindex cvremainder : Z) : Z :=
  let i := to_int (gatelengthindex + cvindex) in
  if i <? 0 then nth 0 gatelengths 0
  else if 10 <? i then nth 11 gatelengths 0
  else
    to_int (nth (Z.to_nat i) gatelengths 0
            + intmap cvremainder 0 39 0
                (nth (Z.to_nat (i + 1)) gatelengths 0
                 - nth (Z.to_nat i) gatelengths 0)).

Definition updateGatelength (st : State) : State :=
  set_gatelength
    (gatelength_of (PersistentState.gatelengthindex (state st))
                   (cvgatelengthindex st) (cvgatelengthremainder st))
    st.

Definition resetCVState (i : chan) (st : State) : State :=
  let st := set_rotatesemitonesCV 0 st in
  let st := updateRotation st in
  let st := set_transposesemitonesCV (put i 0 (transposesemitonesCV st)) st in
  let st := set_offsetsemitonesCV (put i 0 (offsetsemitonesCV st)) st in
  let st := set_cvgatelengthindex 0 st in
  set_cvgatelengthremainder 0 st.

(** ** SaveRecall.ino: the scale banks *)

Definition EE_ADDR_SAVEDSCALES : Z := 0x100.
Definition EE_SIZE_SAVEDSCALES : Z := 0x10.

Definition eeprom_read (e : gmap Z Z) (addr : Z) : Z := default 255 (e !! addr).

(** [EEPROM.put] and [EEPROM.get] of an [unsigned int]: two bytes, low
    byte first. *)
Definition eeprom_put_uint (addr value : Z) (e : gmap Z Z) : gmap Z Z :=
  <[addr + 1 := Z.shiftr (to_uint value) 8]>
    (<[addr := Z.land (to_uint value) 255]> e).

Definition eeprom_get_uint (addr : Z) (e : gmap Z Z) : Z :=
  Z.lor (eeprom_read e addr) (Z.shiftl (eeprom_read e (addr + 1)) 8).

(** [saveScale(index, tscale)].  The function waits in [while (eebusy) {}];
    nothing inside the call clears the flag, so a call that finds it set
    does not return: [None]. *)
Definition saveScale (index tscale : Z) (st : State) : option State :=
  if index <? 12 then
    if eebusy st then None
    else
      let st := set_eebusy true st in
      let st :=
        set_EEPROM
          (eeprom_put_uint (EE_ADDR_SAVEDSCALES + index * EE_SIZE_SAVEDSCALES)
                           tscale (EEPROM st)) st in
      Some (set_eebusy false st)
  else Some st.

(** [saveScale(index)] *)
Definition saveScale_current (index : Z) (st : State) : option State :=
  saveScale index (rotatedscale st) st.

Definition loadScale (index : Z) (st : State) : State :=
  if index <? 12 then
    let tscale :=
      eeprom_get_uint (EE_ADDR_SAVEDSCALES + index * EE_SIZE_SAVEDSCALES)
                      (EEPROM st) in
    let st := upd_state (PersistentState.set_scale tscale) st in
    let st := upd_state (PersistentState.set_rotatesemitones 0) st in
    updateRotation st
  else st.

(** The variables once [setup] has run on a device whose stored state is
    the default one: [loadPersistentState] ends with [updateRotation] and
    [updateGatelength].  The EEPROM traffic of [setup] is left out. *)
Definition started_state : State :=
  updateGatelength (updateRotation initial_state).

(** ** Core.ino: [processChannel] *)

(** "Add or subtract hysteresis": done only while the channel is free
    running. *)
Definition add_hysteresis (free : bool) (newadcval oldval : Z) : Z :=
  if free then
    if oldval <? newadcval then to_int (newadcval - hysteresis)
    else if newadcval <? oldval then to_int (newadcval + (hysteresis - 1))
    else newadcval
  else newadcval.

(** [newvalhyst], from the state of channel [i] and the sample. *)
Definition newvalhyst_of (i : chan) (newadcval : Z) (st : State) : Z :=
  let oldval := Z.shiftl (get i (Channel.outval (statics st))) 3 in
  add_hysteresis (get i (Channel.freerunning (statics st))) newadcval oldval.

(** [newvalhystoffset]: the value handed to the quantizer. *)
Definition newvalhystoffset_of (i : chan) (newvalhyst : Z) (st : State) : Z :=
  let v :=
    to_int (newvalhyst
            + to_int (Z.shiftl (PersistentState.offsetsemitones (state st)
                                + get i (offsetsemitonesCV st)) 3)) in
  match i with
  | chB => to_int (v + to_int (Z.shiftl (PersistentState.offsetBsemitones (state st)) 3))
  | chA => v
  end.

(** The dispatch on [state.qmode]. *)
Definition quantize (st : State) (adcval : Z) : Z :=
  if PersistentState.qmode (state st) =? qmnearest
  then Quantize.quantizeNearest (rotatedscale st) adcval
  else if PersistentState.qmode (state st) =? qmskip
  then Quantize.quantizeSkip (rotatedscale st) adcval
  else Quantize.quantizeEqual (rotatedscale st) adcval.

(** [candidate += state.transposesemitones + transposesemitonesCV[i] - 1]
    and, on channel 1, [candidate += state.transposeBsemitones]. *)
Definition add_transpose (i : chan) (candidate : Z) (st : State) : Z :=
  let c :=
    to_byte (candidate
             + (PersistentState.transposesemitones (state st)
                + get i (transposesemitonesCV st) - 1)) in
  match i with
  | chB => to_byte (c + PersistentState.transposeBsemitones (state st))
  | chA => c
  end.

(** The candidate in keyboard mode. *)
Definition keyboard_candidate (st : State) : Z :=
  to_byte (63 + to_byte (keyboardsemitones st)
           + to_byte (to_int (12 * keyboardoctaves st))).

(** The sample handed to the quantizer in every other mode. *)
Definition quantizer_input (i : chan) (newadcval : Z) (st : State) : Z :=
  newvalhystoffset_of i (newvalhyst_of i newadcval st) st.

(** The candidate in every other mode. *)
Definition quantized_candidate (i : chan) (newadcval : Z) (st : State) : Z :=
  add_transpose i (quantize st (quantizer_input i newadcval st)) st.

(** "Quantize the new value": the candidate, the [trig] flag, and the state
    after the one assignment this part can make ([triggerdelay[i] = 0]). *)
Definition choose_candidate (i : chan) (newadcval : Z) (st : State)
  : Z * bool * State :=
  let c := statics st in
  match mode st with
  | Mode.keyboard => (keyboard_candidate st, 0 <? keyboardtriggered st, st)
  | _ =>
      let candidate := quantized_candidate i newadcval st in
      if candidate <? 128 then
        (candidate,
         (get i (Channel.freerunning c)
          && negb (candidate =? get i (Channel.outval c)))
         || (get i (Channel.triggerdelay c) =? 1),
         st)
      else if get i (Channel.triggerdelay c) =? 1 then
        (candidate, false,
         upd_statics (fun c => Channel.set_triggerdelay
                                 (put i 0 (Channel.triggerdelay c)) c) st)
      else (candidate, false, st)
  end.

(** "Decide if we should update the value": the body of [if (trig)]. *)
Definition accept (i : chan) (candidate : Z) (st : State)
  : State * list IOEvent :=
  let st := upd_statics (fun c => Channel.set_outval
                                    (put i candidate (Channel.outval c)) c) st in
  let st := set_OCR1 (put i (get i (Channel.outval (statics st))) (OCR1 st)) st in
  let dac := [SetDAC i (get i (Channel.outval (statics st)))] in
  let '(st, off) :=
    if negb (PersistentState.gatelegato (state st))
    then (set_GATE_PORT (put i false (GATE_PORT st)) st, [GateOff i])
    else (st, []) in
  let st := upd_statics (fun c => Channel.set_gatecounter
                                    (put i (- gatedelay) (Channel.gatecounter c)) c) st in
  let st := upd_statics (fun c => Channel.set_triggerdelay
                                    (put i 0 (Channel.triggerdelay c)) c) st in
  let st := set_keyboardtriggered (to_byte (keyboardtriggered st - 1)) st in
  (st, dac ++ off).

(** "Check if gate should do something." *)
Definition gate_step (i : chan) (st : State) : State * list IOEvent :=
  let '(st, on) :=
    if get i (Channel.gatecounter (statics st)) =? 0 then
      if negb (get i (Channel.outval (statics st))
               =? get i (Channel.lastgateoutval (statics st)))
      then
        (upd_statics
           (fun c => Channel.set_lastgateoutval
                       (put i (get i (Channel.outval c)) (Channel.lastgateoutval c)) c)
           (set_GATE_PORT (put i true (GATE_PORT st)) st),
         [GateOn i])
      else (st, [])
    else (st, []) in
  let '(st, off) :=
    if get i (Channel.gatecounter (statics st)) =? gatelength st
    then (set_GATE_PORT (put i false (GATE_PORT st)) st, [GateOff i])
    else (st, []) in
  let st :=
    if get i (Channel.gatecounter (statics st)) <=? gatelength st
    then upd_statics
           (fun c => Channel.set_gatecounter
                       (put i (to_int (get i (Channel.gatecounter c) + 1))
                            (Channel.gatecounter c)) c) st
    else st in
  (st, on ++ off).

(** "Check trigger and mode."  [din] is what [DIN_READ(i)] reads and [edge]
    whether the edge flag of the channel is set in [EIFR]. *)
Definition trigger_step (i : chan) (din edge : bool) (st : State) : State :=
  let c := statics st in
  if get i (Channel.freerunning c) then
    if din then
      upd_statics
        (fun c => Channel.set_triggercounter (put i 0 (Channel.triggercounter c))
                    (Channel.set_freerunning (put i false (Channel.freerunning c)) c))
        st
    else st
  else if edge then
    let st :=
      if 0 <=? get i (Channel.triggercounter c) then
        upd_statics
          (fun c => Channel.set_triggerdelay
                      (put i (to_byte (1 + triggerdelayscale
                                           * PersistentState.triggerdelay (state st)))
                           (Channel.triggerdelay c)) c) st
      else st in
    upd_statics
      (fun c => Channel.set_triggercounter
                  (put i (- triggerdebounce) (Channel.triggercounter c)) c) st
  else
    let st :=
      if 1 <? get i (Channel.triggerdelay c) then
        upd_statics
          (fun c => Channel.set_triggerdelay
                      (put i (to_byte (get i (Channel.triggerdelay c) - 1))
                           (Channel.triggerdelay c)) c) st
      else st in
    if negb din then
      if get i (Channel.triggercounter c) <=? triggerautotime then
        upd_statics
          (fun c => Channel.set_triggercounter
                      (put i (to_int (get i (Channel.triggercounter c) + 1))
                           (Channel.triggercounter c)) c) st
      else
        upd_statics
          (fun c => Channel.set_freerunning (put i true (Channel.freerunning c)) c)
          st
    else if get i (Channel.triggercounter c) <? 0 then
      upd_statics
        (fun c => Channel.set_triggercounter
                    (put i (to_int (get i (Channel.triggercounter c) + 1))
                         (Channel.triggercounter c)) c) st
    else st.

Definition processChannel (i : chan) (newadcval : Z) (din edge : bool)
  (st : State) : State * list IOEvent :=
  let '(candidate, trig, st) := choose_candidate i newadcval st in
  let '(st, ev_accept) :=
    if trig then accept i candidate st else (st, []) in
  let '(st, ev_gate) := gate_step i st in
  (trigger_step i din edge st, ev_accept ++ ev_gate).

(** ** Core.ino: [processCV] *)

Definition processCV (i : chan) (newadcval : Z) (st : State) : State :=
  if get i (PersistentState.cvmode (state st)) =? cvgatelength then
    let x := cdiv (to_int (newadcval + 8)) 40 in
    let st := set_cvgatelengthremainder
                (to_int (to_int (newadcval + 8) - to_int (x * 40))) st in
    let st := set_cvgatelengthindex (to_int (x - 13)) st in
    updateGatelength st
  else
    let oldval := Z.shiftl (get i (CVquantized st)) 3 in
    let newvalhyst := add_hysteresis true newadcval oldval in
    let candidate := to_byte (Quantize.quantizeSemitones newvalhyst - 1) in
    let trig := negb (candidate =? get i (CVquantized st)) in
    let st := set_CVquantized (put i candidate (CVquantized st)) st in
    if trig then
      let q := get i (CVquantized st) in
      let m := get i (PersistentState.cvmode (state st)) in
      if m =? cvrotate then
        updateRotation (set_rotatesemitonesCV (to_byte (mod12 (q - 3))) st)
      else if m =? cvtranspose then
        set_transposesemitonesCV (to_schar (q - 63), to_schar (q - 63)) st
      else if m =? cvtransposechannel then
        set_transposesemitonesCV
          (put i (to_schar (q - 63)) (transposesemitonesCV st)) st
      else if m =? cvoffset then
        set_offsetsemitonesCV (to_schar (q - 63), to_schar (q - 63)) st
      else if m =? cvoffsetchannel then
        set_offsetsemitonesCV
          (put i (to_schar (q - 63)) (offsetsemitonesCV st)) st
      else if m =? cvload then
        loadScale (to_byte (mod12 (q - 3))) st
      else st
    else st.

(** ** UI.ino: [keyDownEvent] *)

Definition KEY_GATELENGTH : Z := 0.
Definition KEY_ROTATE : Z := 1.
Definition KEY_TRANSPOSE : Z := 2.
Definition KEY_TRANSPOSE_ONE : Z := 3.
Definition KEY_OFFSET : Z := 4.
Definition KEY_OFFSET_ONE : Z := 5.
Definition KEY_KEYBOARD : Z := 6.
Definition KEY_LEGATO : Z := 7.
Definition KEY_QM : Z := 8.
Definition KEY_TRIGGERDELAY : Z := 9.
Definition KEY_CVA : Z := 10.
Definition KEY_CVB : Z := 11.
Definition KEY_LOAD : Z := 12.
Definition KEY_SAVE : Z := 12.
Definition KEY_UP : Z := 13.
Definition KEY_DOWN : Z := 14.
Definition KEY_HOME : Z := 15.
Definition KEY_SHIFT : Z := 15.

Definition touch_autosave (st : State) : State :=
  set_autosavecounter autosavetime st.

(** The four menus that edit a signed semitone amount (transpose,
    transposeB, offset, offsetB) have the same body up to the field. *)
Definition semitone_menu (field : PersistentState.t -> Z)
  (set_field : Z -> PersistentState.t -> PersistentState.t)
  (key : Z) (st : State) : State :=
  let v := field (state st) in
  if key <? 12 then
    let x := to_byte (v + 120) in
    let oct := to_schar (cdiv x 12 - 10) in
    touch_autosave (upd_state (set_field (to_schar (12 * oct + key))) st)
  else if key =? KEY_HOME then set_mode Mode.normal st
  else if (key =? KEY_DOWN) && (-49 <? v) then
    touch_autosave (upd_state (set_field (to_schar (v - 12))) st)
  else if (key =? KEY_UP) && (v <? 60) then
    touch_autosave (upd_state (set_field (to_schar (v + 12))) st)
  else st.

(** The [cvA] and [cvB] menus differ in the input and in the key that
    switches the input off. *)
Definition cv_menu (i : chan) (off_key : Z) (key : Z) (st : State) : State :=
  if (key <=? MAX_CV_MODE) || (key =? KEY_LOAD) then
    touch_autosave
      (resetCVState i
         (upd_state (fun p => PersistentState.set_cvmode
                                (put i key (PersistentState.cvmode p)) p) st))
  else if key =? off_key then
    touch_autosave
      (resetCVState i
         (upd_state (fun p => PersistentState.set_cvmode
                                (put i cvoff (PersistentState.cvmode p)) p) st))
  else if key =? KEY_HOME then set_mode Mode.normal st
  else st.

Definition keyDown_normal (key : Z) (shift : bool) (st : State) : State :=
  if negb shift then
    if key <? 12 then
      let rotation :=
        to_byte (PersistentState.rotatesemitones (state st)
                 + rotatesemitonesCV st) in
      let unrotatedkey := to_byte (mod12 (key + 24 - rotation)) in
      let st :=
        upd_state
          (fun p => PersistentState.set_scale
                      (to_uint (Z.lxor (PersistentState.scale p)
                                       (Z.shiftr 0x8000 unrotatedkey))) p) st in
      touch_autosave (updateRotation st)
    else if key =? KEY_LOAD then set_mode Mode.load st
    else if key =? KEY_UP then
      let st :=
        upd_state
          (fun p => PersistentState.set_rotatesemitones
                      (to_schar (PersistentState.rotatesemitones p + 1)) p) st in
      let st :=
        if PersistentState.rotatesemitones (state st) =? 12
        then upd_state (PersistentState.set_rotatesemitones 0) st else st in
      touch_autosave (updateRotation st)
    else if key =? KEY_DOWN then
      let st :=
        if PersistentState.rotatesemitones (state st) =? 0
        then upd_state (PersistentState.set_rotatesemitones 12) st else st in
      let st :=
        upd_state
          (fun p => PersistentState.set_rotatesemitones
                      (to_schar (PersistentState.rotatesemitones p - 1)) p) st in
      touch_autosave (updateRotation st)
    else st
  else
    if key =? KEY_GATELENGTH then set_mode Mode.gatelengthmenu st
    else if key =? KEY_ROTATE then set_mode Mode.rotate st
    else if key =? KEY_TRANSPOSE then set_mode Mode.transpose st
    else if key =? KEY_TRANSPOSE_ONE then set_mode Mode.transposeB st
    else if key =? KEY_OFFSET then set_mode Mode.offset st
    else if key =? KEY_OFFSET_ONE then set_mode Mode.offsetB st
    else if key =? KEY_KEYBOARD then set_mode Mode.keyboard st
    else if key =? KEY_LEGATO then
      upd_state (fun p => PersistentState.set_gatelegato
                            (negb (PersistentState.gatelegato p)) p) st
    else if key =? KEY_QM then set_mode Mode.qmodemenu st
    else if key =? KEY_TRIGGERDELAY then set_mode Mode.triggerdelaymenu st
    else if key =? KEY_CVA then set_mode Mode.cvA st
    else if key =? KEY_CVB then set_mode Mode.cvB st
    else if key =? KEY_SAVE then set_mode Mode.save st
    else st.

Definition keyDown_keyboard (key : Z) (st : State) : State :=
  if key <? 12 then
    set_keyboardtriggered 2 (set_keyboardsemitones (to_schar key) st)
  else if key =? KEY_HOME then set_mode Mode.normal st
  else if (key =? KEY_DOWN) && (-5 <? keyboardoctaves st) then
    set_keyboardtriggered 2
      (set_keyboardoctaves (to_schar (keyboardoctaves st - 1)) st)
  else if (key =? KEY_UP) && (keyboardoctaves st <? 5) then
    set_keyboardtriggered 2
      (set_keyboardoctaves (to_schar (keyboardoctaves st + 1)) st)
  else st.

(** [keyDownEvent(key, shift)].  The only part that can fail to return is
    the wait inside [saveScale]. *)
Definition keyDownEvent (key : Z) (shift : bool) (st : State) : option State :=
  match mode st with
  | Mode.normal => Some (keyDown_normal key shift st)
  | Mode.rotate =>
      if key <? 12 then
        Some (touch_autosave
                (updateRotation
                   (upd_state (PersistentState.set_rotatesemitones (to_schar key))
                              st)))
      else if key =? KEY_HOME then Some (set_mode Mode.normal st)
      else Some st
  | Mode.keyboard => Some (keyDown_keyboard key st)
  | Mode.transpose =>
      Some (semitone_menu PersistentState.transposesemitones
                          PersistentState.set_transposesemitones key st)
  | Mode.transposeB =>
      Some (semitone_menu PersistentState.transposeBsemitones
                          PersistentState.set_transposeBsemitones key st)
  | Mode.offset =>
      Some (semitone_menu PersistentState.offsetsemitones
                          PersistentState.set_offsetsemitones key st)
  | Mode.offsetB =>
      Some (semitone_menu PersistentState.offsetBsemitones
                          PersistentState.set_offsetBsemitones key st)
  | Mode.gatelengthmenu =>
      if key <? 12 then
        Some (touch_autosave
                (updateGatelength
                   (upd_state (PersistentState.set_gatelengthindex key) st)))
      else if key =? KEY_HOME then Some (set_mode Mode.normal st)
      else Some st
  | Mode.qmodemenu =>
      if key <=? MAX_Q_MODE then
        Some (touch_autosave (upd_state (PersistentState.set_qmode key) st))
      else if key =? KEY_HOME then Some (set_mode Mode.normal st)
      else Some st
  | Mode.cvA => Some (cv_menu chA KEY_CVA key st)
  | Mode.cvB => Some (cv_menu chB KEY_CVB key st)
  | Mode.load =>
      if key <? 12 then
        Some (touch_autosave (set_mode Mode.normal (loadScale key st)))
      else if key =? KEY_HOME then Some (set_mode Mode.normal st)
      else Some st
  | Mode.save =>
      if key <? 12 then
        match saveScale_current key st with
        | Some st => Some (set_mode Mode.normal st)
        | None => None
        end
      else if key =? KEY_HOME then Some (set_mode Mode.normal st)
      else Some st
  | Mode.triggerdelaymenu =>
      if key <? 12 then
        Some (touch_autosave (upd_state (PersistentState.set_triggerdelay key) st))
      else if key =? KEY_HOME then Some (set_mode Mode.normal st)
      else Some st
  end.

(** ** Executions

    The core is driven by three kinds of event: a converted sample of an
    audio channel (with what the trigger pin and the edge flag read during
    the call), a converted sample of a CV input, and a key press. *)

Inductive Event :=
  | Sample (i : chan) (newadcval : Z) (din edge : bool)
  | CVSample (i : chan) (newadcval : Z)
  | KeyDown (key : Z) (shift : bool).

Definition step (e : Event) (st : State) : option (State * list IOEvent) :=
  match e with
  | Sample i newadcval din edge => Some (processChannel i newadcval din edge st)
  | CVSample i newadcval => Some (processCV i newadcval st, [])
  | KeyDown key shift =>
      match keyDownEvent key shift st with
      | Some st' => Some (st', [])
      | None => None
      end
  end.

(** The states reached and the output written, one entry per event that
    returns. *)
Fixpoint run (es : list Event) (st : State) : list (State * list IOEvent) :=
  match es with
  | [] => []
  | e :: es' =>
      match step e st with
      | Some (st', io) => (st', io) :: run es' st'
      | None => []
      end
  end.

Definition chan_eqb (i j : chan) : bool :=
  match i, j with chA, chA | chB, chB => true | _, _ => false end.

Definition is_gate_on (i : chan) (e : IOEvent) : bool :=
  match e with GateOn j => chan_eqb i j | _ => false end.

(** How many times the gate of channel [i] is switched on. *)
Definition gate_ons (i : chan) (io : list IOEvent) : nat :=
  length (filter (fun e => is_gate_on i e = true) io).

Definition gate_ons_run (i : chan) (tr : list (State * list IOEvent)) : nat :=
  gate_ons i (concat (map snd tr)).

Definition out_of (i : chan) (st : State) : Z :=
  get i (Channel.outval (statics st)).

Definition lastgate_of (i : chan) (st : State) : Z :=
  get i (Channel.lastgateoutval (statics st)).

(** ** Reference definitions for the quantizers

    Note [k] of the octave (0 to 11) is enabled in a scale word when bit
    [15 - k] is set. *)

Definition enabled (rs k : Z) : bool := Z.testbit rs (15 - k).

(** The enabled notes of the octave in ascending order. *)
Definition enabled_notes (rs : Z) : list Z :=
  filter (fun k => enabled rs k = true) [0; 1; 2; 3; 4; 5; 6; 7; 8; 9; 10; 11].

(** The least [d], counted from [d] and tried [n] times, that satisfies
    [P]; [d + n] when there is none. *)
Fixpoint first_hit (P : Z -> bool) (n : nat) (d : Z) : Z :=
  match n with
  | O => d
  | S n' => if P d then d else first_hit P n' (d + 1)
  end.

(** Semitone distance from scale index [s] up to the nearest other enabled
    note, going round the octave; 12 when no other note is enabled. *)
Definition dist_above (rs s : Z) : Z :=
  first_hit (fun d => enabled rs ((s + d) mod 12)) 11 1.

(** The same, downwards. *)
Definition dist_below (rs s : Z) : Z :=
  first_hit (fun d => enabled rs ((s - d) mod 12)) 11 1.

(** A check of a boolean property on [0 .. n-1], to run finite case
    analyses inside the kernel. *)
Fixpoint all_below (n : nat) (P : Z -> bool) : bool :=
  match n with
  | O => true
  | S k => P (Z.of_nat k) && all_below k P
  end.

(** The check behind a finite case analysis: a scale word with clear low
    bits is [16 * s] for a 12-bit pattern [s]. *)

Definition search_check (s : Z) : bool :=
  all_below 12 (fun sn =>
    match Quantize.search (16 * s) sn with
    | (current, next, prev) =>
        Bool.eqb current (enabled (16 * s) sn)
        && (next =? dist_above (16 * s) sn)
        && (prev =? dist_below (16 * s) sn)
    end).

(** The loops of the quantizers read through a predicate on the note
    index instead of a shifted scale word: the first index from [j] on, of
    [n] tried, that satisfies [P] (255 when there is none) and where the
    loop stops; the last such index; the search of [quantizeNearest]; and
    the indices a loop from [j] visits. *)

Fixpoint first_from (P : Z -> bool) (n : nat) (j : Z) : Z * Z :=
  match n with
  | O => (255, j)
  | S n' => if P j then (j, j) else first_from P n' (j + 1)
  end.

Fixpoint last_from (P : Z -> bool) (n : nat) (j last : Z) : Z :=
  match n with
  | O => last
  | S n' => last_from P n' (j + 1) (if P j then j else last)
  end.

Definition search_by (P : Z -> bool) (scalenote : Z) : bool * Z * Z :=
  let '(ll, j) := first_from P (Z.to_nat scalenote) 0 in
  let lh := last_from P (Z.to_nat (scalenote - j)) j 255 in
  let current := P scalenote in
  let '(hl, j) :=
    first_from P (Z.to_nat (12 - (scalenote + 1))) (scalenote + 1) in
  let hh := last_from P (Z.to_nat (12 - j)) j 255 in
  let prev :=
    to_byte (if lh =? 255
             then if hh =? 255 then 12 else scalenote + 12 - hh
             else scalenote - lh) in
  let next :=
    to_byte (if hl =? 255
             then if ll =? 255 then 12 else 12 + ll - scalenote
             else hl - scalenote) in
  (current, next, prev).

Fixpoint range (j : Z) (n : nat) : list Z :=
  match n with
  | O => []
  | S n' => j :: range (j + 1) n'
  end.

(** ** Concrete states used in examples *)

(** The major scale, notes 0 2 4 5 7 9 11: the start-up scale. *)
Definition major : Z := 0xAD50.

(** A key press reassigns the mode of CV input [i]: the [cvA] (or [cvB])
    menu is open and the key is a CV mode, the load key, or the key of the
    input itself, which switches the input off. *)
Definition reassigns (i : chan) (key : Z) (st : State) : Prop :=
  match i with
  | chA => mode st = Mode.cvA
           /\ (key <= MAX_CV_MODE \/ key = KEY_LOAD \/ key = KEY_CVA)
  | chB => mode st = Mode.cvB
           /\ (key <= MAX_CV_MODE \/ key = KEY_LOAD \/ key = KEY_CVB)
  end.

(** A state in the [cvA] menu in which input A has left every overlay
    away from neutral. *)
Definition cv_menu_state : State :=
  set_mode Mode.cvA
    (set_cvgatelengthremainder 17
       (set_cvgatelengthindex 3
          (set_offsetsemitonesCV (5, 5)
             (set_transposesemitonesCV (-7, -7)
                (updateRotation (set_rotatesemitonesCV 4 initial_state)))))).


(** The position of a sample in its octave, in converter units (eighths
    of a semitone, 0 to 95), octaves starting at scale index 0: note 0 has
    scale index 8, so sample 0 sits at position 64.  [octave_offset] is
    the note at scale index 0 of the octave the sample lies in. *)
Definition octave_position (adcval : Z) : Z := (adcval + 64) mod 96.
Definition octave_offset (adcval : Z) : Z := 12 * ((adcval + 64) / 96) - 8.

(** The rule "select the enabled note whose rank is
    floor(position * enabledCount / 96)" read on the position of the
    sample, plus the octave offset of the sample: kept to be compared
    with [quantizeEqual]. *)
Definition equal_by_position (rs adcval : Z) : Z :=
  let notes := enabled_notes rs in
  let rank := octave_position adcval * Z.of_nat (length notes) / 96 in
  to_byte (octave_offset adcval + nth (Z.to_nat rank) notes 0).

(** Key presses and samples that reach the states used below, from
    start-up. *)

(** Shift+keyboard opens the keyboard menu, five presses of "up" raise the
    octave to 5 (the menu allows it while the octave is below 5), key 5
    picks semitone 5; then channel A is sampled. *)
Definition keyboard_top_octave : list Event :=
  [KeyDown KEY_KEYBOARD true;
   KeyDown KEY_UP false; KeyDown KEY_UP false; KeyDown KEY_UP false;
   KeyDown KEY_UP false; KeyDown KEY_UP false;
   KeyDown 5 false;
   Sample chA 0 false false].

(** Gate length 8 is chosen in its menu, CV input A is set to the
    gate-length effect, and A is sampled at 551: index 0, remainder 39. *)
Definition gatelength_by_cv : list Event :=
  [KeyDown KEY_GATELENGTH true; KeyDown 8 false; KeyDown KEY_HOME false;
   KeyDown KEY_CVA true; KeyDown cvgatelength false;
   CVSample chA 551].

(** Channel A after a sample taken with the trigger pin high: the channel
    has left free-running mode. *)
Definition triggered_state : State :=
  fst (processChannel chA 0 true false started_state).

(** The hysteresis rule in the wording "suspended exactly while the
    keyboard mode is active": in every other mode the quantizer would get
    the sample with the hysteresis applied. *)
Definition hysteresis_unless_keyboard : Prop :=
  forall (i : chan) (newadcval : Z) (st : State),
    mode st <> Mode.keyboard ->
    quantizer_input i newadcval st
    = newvalhystoffset_of i
        (add_hysteresis true newadcval
           (Z.shiftl (get i (Channel.outval (statics st))) 3)) st.

(** The state an execution ends in. *)
Definition final_state (es : list Event) (st : State) : State :=
  match last (run es st) with
  | Some x => fst x
  | None => st
  end.

(** Keyboard mode with key 3 pressed and channel A sampled once: the
    first note, 66, is out and its gate is pending. *)
Definition keyboard_first_note : State :=
  final_state [KeyDown KEY_KEYBOARD true; KeyDown 3 false;
               Sample chA 0 false false]
              started_state.

(** The same key again while the gate is pending: channel A accepts the
    same value three more times before the settling delay has run out. *)
Definition same_note_again : list Event :=
  [Sample chA 0 false false; KeyDown 3 false;
   Sample chA 0 false false; Sample chA 0 false false;
   Sample chA 0 false false; Sample chA 0 false false;
   Sample chA 0 false false; Sample chA 0 false false].

(** * Further definitions *)

(** ** Well-formed states and events

    A scale word is a 16-bit word whose low four bits are clear. *)
Definition scale_word (w : Z) : Prop := 0 <= w < 65536 /\ Z.land w 15 = 0.

(** The scale stored in bank [k]. *)
Definition bank (k : Z) (st : State) : Z :=
  eeprom_get_uint (EE_ADDR_SAVEDSCALES + k * EE_SIZE_SAVEDSCALES) (EEPROM st).

(** The scale, the rotated scale and the twelve banks are scale words. *)
Definition scales_well_formed (st : State) : Prop :=
  scale_word (PersistentState.scale (state st))
  /\ scale_word (rotatedscale st)
  /\ forall k, 0 <= k < 12 -> scale_word (bank k st).

(** The rotated scale is the one [updateRotation] would store now. *)
Definition rotation_current (st : State) : Prop :=
  rotatedscale st = rotatedscale (updateRotation st).

(** The ranges the menus keep the settings in. *)
Definition semitone_range (v : Z) : Prop := -60 <= v <= 71.

Definition cvmode_valid (m : Z) : Prop := 0 <= m <= MAX_CV_MODE \/ m = cvload \/ m = cvoff.

Definition settings_in_range (st : State) : Prop :=
  0 <= PersistentState.rotatesemitones (state st) <= 11
  /\ 0 <= rotatesemitonesCV st <= 11
  /\ semitone_range (PersistentState.transposesemitones (state st))
  /\ semitone_range (PersistentState.transposeBsemitones (state st))
  /\ semitone_range (PersistentState.offsetsemitones (state st))
  /\ semitone_range (PersistentState.offsetBsemitones (state st))
  /\ 0 <= PersistentState.gatelengthindex (state st) <= 11
  /\ 0 <= PersistentState.triggerdelay (state st) <= 11
  /\ 0 <= PersistentState.qmode (state st) <= MAX_Q_MODE
  /\ cvmode_valid (get chA (PersistentState.cvmode (state st)))
  /\ cvmode_valid (get chB (PersistentState.cvmode (state st)))
  /\ -5 <= keyboardoctaves st <= 5
  /\ 0 <= keyboardsemitones st <= 11.

(** The events on which every table lookup of [processCV] is defined.
    A key number is 0 to 15 and a sample is a 10-bit conversion; these
    the hardware delivers.  The third condition is a restriction: a CV
    input in the rotate or load mode gets a sample of 29 or more.  The
    converter does deliver lower samples to such an input; a sample
    between 4 and 28 can then make [mod12(CVquantized - 3)] read
    [mod12table] at index -1, outside the table, and nothing is stated
    about them.  [processChannel] writes none of the variables the
    properties over these events are about. *)
Definition event_defined (e : Event) (st : State) : Prop :=
  match e with
  | Sample _ newadcval _ _ => 0 <= newadcval <= 1023
  | CVSample i newadcval =>
      0 <= newadcval <= 1023
      /\ (get i (PersistentState.cvmode (state st)) = cvrotate
          \/ get i (PersistentState.cvmode (state st)) = cvload ->
          29 <= newadcval)
  | KeyDown key _ => 0 <= key <= 15
  end.

(** Every event of an execution satisfies [event_defined] in the state
    it meets.  An execution is a sequence of complete calls: each call of
    [processChannel], [processCV] or [keyDownEvent] ends before the next
    starts. *)
Fixpoint events_defined (es : list Event) (st : State) : Prop :=
  match es with
  | [] => True
  | e :: es' =>
      event_defined e st
      /\ match step e st with
         | Some (st', _) => events_defined es' st'
         | None => True
         end
  end.
(** The globals [processChannel] does not write: all but its own static
    variables, the two output registers and [keyboardtriggered]. *)
Definition channel_only (st st' : State) : Prop :=
  state st' = state st
  /\ rotatedscale st' = rotatedscale st
  /\ mode st' = mode st
  /\ keyboardoctaves st' = keyboardoctaves st
  /\ keyboardsemitones st' = keyboardsemitones st
  /\ rotatesemitonesCV st' = rotatesemitonesCV st
  /\ transposesemitonesCV st' = transposesemitonesCV st
  /\ offsetsemitonesCV st' = offsetsemitonesCV st
  /\ gatelength st' = gatelength st
  /\ cvgatelengthindex st' = cvgatelengthindex st
  /\ cvgatelengthremainder st' = cvgatelengthremainder st
  /\ EEPROM st' = EEPROM st
  /\ autosavecounter st' = autosavecounter st
  /\ eebusy st' = eebusy st
  /\ CVquantized st' = CVquantized st.

(** ** SaveRecall.ino: the stored state

    [EEPROM.put] and [EEPROM.get] of the [PersistentState] structure move
    its sixteen bytes, laid out as the memory map at the head of
    SaveRecall.ino gives them: the scale (low byte first), the gate-length
    index, the five signed amounts, the legato flag, the quantization
    mode, the trigger delay, the two CV modes and three reserved bytes. *)

Definition EE_ADDR_ID : Z := 0x000.
Definition EE_ADDR_STATE : Z := 0x010.
Definition EE_RESET : bool := false.

Definition state_bytes (p : PersistentState.t) : list Z :=
  [Z.land (to_uint (PersistentState.scale p)) 255;
   Z.shiftr (to_uint (PersistentState.scale p)) 8;
   to_byte (PersistentState.gatelengthindex p);
   to_byte (PersistentState.rotatesemitones p);
   to_byte (PersistentState.transposesemitones p);
   to_byte (PersistentState.transposeBsemitones p);
   to_byte (PersistentState.offsetsemitones p);
   to_byte (PersistentState.offsetBsemitones p);
   (if PersistentState.gatelegato p then 1 else 0);
   to_byte (PersistentState.qmode p);
   to_byte (PersistentState.triggerdelay p);
   to_byte (fst (PersistentState.cvmode p));
   to_byte (snd (PersistentState.cvmode p))]
  ++ map to_byte (PersistentState.reserved p).

(** Bytes written from [addr] on. *)
Fixpoint eeprom_put_bytes (addr : Z) (bytes : list Z) (e : gmap Z Z)
  : gmap Z Z :=
  match bytes with
  | [] => e
  | b :: bytes' => eeprom_put_bytes (addr + 1) bytes' (<[addr := b]> e)
  end.

Definition eeprom_put_state (addr : Z) (p : PersistentState.t) (e : gmap Z Z)
  : gmap Z Z :=
  eeprom_put_bytes addr (state_bytes p) e.

Definition eeprom_get_state (addr : Z) (e : gmap Z Z) : PersistentState.t :=
  let b := fun k => eeprom_read e (addr + k) in
  {| PersistentState.scale := Z.lor (b 0) (Z.shiftl (b 1) 8);
     PersistentState.gatelengthindex := b 2;
     PersistentState.rotatesemitones := to_schar (b 3);
     PersistentState.transposesemitones := to_schar (b 4);
     PersistentState.transposeBsemitones := to_schar (b 5);
     PersistentState.offsetsemitones := to_schar (b 6);
     PersistentState.offsetBsemitones := to_schar (b 7);
     PersistentState.gatelegato := negb (b 8 =? 0);
     PersistentState.qmode := b 9;
     PersistentState.triggerdelay := b 10;
     PersistentState.cvmode := (b 11, b 12);
     PersistentState.reserved := [b 13; b 14; b 15] |}.

(** The loop of [initializePersistentState]:
    [for (int i=0; i<12; i++) saveScale(i, 0)]. *)
Fixpoint clear_banks (n : nat) (i : Z) (st : State) : option State :=
  match n with
  | O => Some st
  | S n' =>
      match saveScale i 0 st with
      | Some st' => clear_banks n' (i + 1) st'
      | None => None
      end
  end.

Definition initializePersistentState (st : State) : option State :=
  let st := set_EEPROM (eeprom_put_state EE_ADDR_STATE (state st) (EEPROM st)) st in
  match clear_banks 12 0 st with
  | Some st => Some (set_EEPROM (<[EE_ADDR_ID := 1]> (EEPROM st)) st)
  | None => None
  end.

Definition loadPersistentState (st : State) : option State :=
  let loaded :=
    if (eeprom_read (EEPROM st) EE_ADDR_ID =? 1) && negb EE_RESET
    then Some (set_state (eeprom_get_state EE_ADDR_STATE (EEPROM st)) st)
    else initializePersistentState st in
  match loaded with
  | Some st => Some (updateGatelength (updateRotation st))
  | None => None
  end.

Definition savePersistentState (st : State) : State :=
  if negb (eebusy st) then
    let st := set_eebusy true st in
    let st :=
      set_EEPROM (eeprom_put_state EE_ADDR_STATE (state st) (EEPROM st)) st in
    set_eebusy false st
  else st.

(** The loop of [getScaleMemoryStatus]; [n] is the number of banks left,
    [12 - index]. *)
Fixpoint memory_status_loop (n : nat) (index tdisplay : Z) (e : gmap Z Z) : Z :=
  match n with
  | O => tdisplay
  | S n' =>
      let tscale :=
        eeprom_get_uint (EE_ADDR_SAVEDSCALES + index * EE_SIZE_SAVEDSCALES) e in
      memory_status_loop n' (index + 1)
        (if negb (tscale =? 0)
         then to_uint (Z.lor tdisplay (Z.shiftr 0x8000 index))
         else tdisplay)
        e
  end.

Definition getScaleMemoryStatus (st : State) : Z :=
  memory_status_loop 12 0 0 (EEPROM st).

(** KassutronicsQuantizer.ino: the body of [loop]. *)
Definition loop (st : State) : State :=
  if autosavecounter st =? 1
  then set_autosavecounter 0 (savePersistentState st)
  else st.

(** The device after its first start, with an erased EEPROM. *)
Definition first_start : State :=
  match loadPersistentState initial_state with
  | Some st => st
  | None => initial_state
  end.
(** A state whose fields fit the bytes they are stored in. *)
Definition persistable (p : PersistentState.t) : Prop :=
  0 <= PersistentState.scale p < 65536
  /\ 0 <= PersistentState.gatelengthindex p <= 255
  /\ -128 <= PersistentState.rotatesemitones p <= 127
  /\ -128 <= PersistentState.transposesemitones p <= 127
  /\ -128 <= PersistentState.transposeBsemitones p <= 127
  /\ -128 <= PersistentState.offsetsemitones p <= 127
  /\ -128 <= PersistentState.offsetBsemitones p <= 127
  /\ 0 <= PersistentState.qmode p <= 255
  /\ 0 <= PersistentState.triggerdelay p <= 255
  /\ 0 <= fst (PersistentState.cvmode p) <= 255
  /\ 0 <= snd (PersistentState.cvmode p) <= 255
  /\ exists r0 r1 r2,
       PersistentState.reserved p = [r0; r1; r2]
       /\ 0 <= r0 <= 255 /\ 0 <= r1 <= 255 /\ 0 <= r2 <= 255.

(** ** The variables of one channel *)

Definition free_of (i : chan) (st : State) : bool :=
  get i (Channel.freerunning (statics st)).

Definition trigcount_of (i : chan) (st : State) : Z :=
  get i (Channel.triggercounter (statics st)).

Definition trigdelay_of (i : chan) (st : State) : Z :=
  get i (Channel.triggerdelay (statics st)).

Definition gatecount_of (i : chan) (st : State) : Z :=
  get i (Channel.gatecounter (statics st)).

(** Consecutive conversions of channel [i] during which the edge flag of
    the trigger input is not set: each entry is the sample and what
    [DIN_READ(i)] reads. *)
Definition samples (i : chan) (xs : list (Z * bool)) : list Event :=
  map (fun x => Sample i (fst x) (snd x) false) xs.

(** The same with [DIN_READ(i)] reading 0 throughout, and reading 1
    throughout. *)
Definition quiet (adcs : list Z) : list (Z * bool) :=
  map (fun a => (a, false)) adcs.

Definition held (adcs : list Z) : list (Z * bool) :=
  map (fun a => (a, true)) adcs.

(** What an execution writes to the outputs, call by call. *)
Definition outputs (es : list Event) (st : State) : list (list IOEvent) :=
  map snd (run es st).

(** The part of [processChannel] before "Check trigger and mode" leaves
    the trigger variables alone. *)
Definition trigger_untouched (st st' : State) : Prop :=
  Channel.freerunning (statics st') = Channel.freerunning (statics st)
  /\ Channel.triggercounter (statics st') = Channel.triggercounter (statics st).


(** The static variables of channel [i]: [outval], [lastgateoutval],
    [gatecounter], [freerunning], [triggercounter] and [triggerdelay]. *)
Definition chanvars (i : chan) (st : State) : Z * Z * Z * bool * Z * Z :=
  (out_of i st, lastgate_of i st, gatecount_of i st, free_of i st,
   trigcount_of i st, trigdelay_of i st).

(** ** The autosave

    [getDisplayState], called from the timer interrupt, counts
    [autosavecounter] down to 1: [if (autosavecounter > 1)
    autosavecounter--;].  The display word it returns reads the variables
    and its own blink counter and writes neither; it is left out. *)
Definition autosave_tick (st : State) : State :=
  if 1 <? autosavecounter st
  then set_autosavecounter (to_uint (autosavecounter st - 1)) st
  else st.

(** [n] timer interrupts, the main [loop] running after each. *)
Fixpoint idle (n : nat) (st : State) : State :=
  match n with
  | O => st
  | S n' => idle n' (loop (autosave_tick st))
  end.

(** ** Hardware.ino: the ADC interrupt

    [ISR(ADC_vect)] from the static [nextchannel] and the conversion
    result [val]: the new [nextchannel] and the call it makes.  [din] and
    [edge] are what [processChannel] reads with [DIN_READ] and from the
    edge flag when it is the one called. *)
Definition adc_isr (nextchannel val : Z) (din edge : bool) : Z * Event :=
  let nextchannel := Z.land (to_byte (nextchannel + 1)) 3 in
  let readchannel := Z.lxor nextchannel 2 in
  let i := if Z.shiftr readchannel 1 =? 0 then chA else chB in
  (nextchannel,
   if Z.land readchannel 1 =? 1 then CVSample i val
   else Sample i val din edge).

(** Consecutive interrupts, one conversion result each: the final
    [nextchannel] and the calls made. *)
Fixpoint adc_isrs (nextchannel : Z) (conv : list (Z * bool * bool))
  : Z * list Event :=
  match conv with
  | [] => (nextchannel, [])
  | (val, din, edge) :: conv' =>
      let '(n, e) := adc_isr nextchannel val din edge in
      let '(n', es) := adc_isrs n conv' in
      (n', e :: es)
  end.

(** The conversion result a call of the core was made with. *)
Definition conversion_of (e : Event) : option Z :=
  match e with
  | Sample _ w _ _ | CVSample _ w => Some w
  | KeyDown _ _ => None
  end.

(** ** Example states *)

(** Channel A triggered, with its trigger delay run down to 1: the next
    call takes a new value. *)
Definition armed_state : State :=
  upd_statics (Channel.set_triggerdelay (1, 0)) triggered_state.

(** Channel A triggered, one sample with [DIN_READ] at 0 away from the
    timeout. *)
Definition timeout_state : State :=
  upd_statics (Channel.set_triggercounter (triggerautotime, 0)) triggered_state.

(** Channel A triggered, with trigger delay 1 chosen in its menu. *)
Definition delayed_trigger_state : State :=
  upd_state (PersistentState.set_triggerdelay 1) triggered_state.

(** CV input A in the gate-length mode. *)
Definition cv_gatelength_state : State :=
  upd_state (PersistentState.set_cvmode (cvgatelength, cvoff)) started_state.

(** The save menu and the keyboard mode, entered from the start state. *)
Definition save_menu_state : State := set_mode Mode.save started_state.

Definition keyboard_state : State := set_mode Mode.keyboard started_state.

(** A setting has just been changed. *)
Definition changed_state : State := touch_autosave first_start.

(** A few events of every kind. *)
Definition mixed_events : list Event :=
  [KeyDown 3 false; KeyDown KEY_UP false; Sample chA 300 false false;
   KeyDown KEY_TRANSPOSE true; KeyDown KEY_DOWN false; KeyDown KEY_HOME false;
   KeyDown KEY_CVA true; KeyDown cvrotate false; CVSample chA 500;
   KeyDown KEY_HOME false; KeyDown KEY_SAVE true; KeyDown 2 false;
   Sample chB 700 true false; KeyDown KEY_LOAD false; KeyDown 5 false].

(** ** Hardware.ino: the front panel

    [shiftIO(data)] clocks eight bits out to the LED register and eight
    bits in from the switch register.  [sdi] is what the [SDI] pin reads
    in the eight rounds of the loop; the result is the byte returned and
    what is written to the [SDO] pin, round by round:
    [if (data & (1<<7)) sbi(SDO) else cbi(SDO); data <<= 1;
     if (SDI_PIN & (1<<SDI_BIT)) sbi(data,0);]. *)
Fixpoint shiftIO_loop (n : nat) (data : Z) (sdi : list bool) : Z * list bool :=
  match n with
  | O => (data, [])
  | S n' =>
      let sdo := negb (Z.land data (Z.shiftl 1 7) =? 0) in
      let data := to_byte (Z.shiftl data 1) in
      let data := if hd false sdi then Z.lor data 1 else data in
      let '(r, out) := shiftIO_loop n' data (tl sdi) in
      (r, sdo :: out)
  end.

Definition shiftIO (data : Z) (sdi : list bool) : Z * list bool :=
  shiftIO_loop 8 data sdi.

Definition SWITCH_DEBOUNCE : Z := 10.

(** The static variables of [processIO]. *)
Module IO.
Record t := mk {
  debounceindex : Z;
  switchdebounce0 : list Z;
  switchdebounce1 : list Z;
  switchstate0 : Z;
  switchstate1 : Z;
  shift : bool
}.
End IO.

Definition initial_io : IO.t :=
  {| IO.debounceindex := 0;
     IO.switchdebounce0 := [0; 0; 0; 0; 0; 0; 0; 0; 0; 0];
     IO.switchdebounce1 := [0; 0; 0; 0; 0; 0; 0; 0; 0; 0];
     IO.switchstate0 := 0;
     IO.switchstate1 := 0;
     IO.shift := false |}.

(** [for (byte i=0; i<SWITCH_DEBOUNCE; i++) newswitchstate |=
    switchdebounce[i];] from [newswitchstate = 0]. *)
Definition debounced (buf : list Z) : Z :=
  fold_left (fun acc i => to_byte (Z.lor acc (nth i buf 0)))
            (seq 0 (Z.to_nat SWITCH_DEBOUNCE)) 0.

(** [processIO] up to the edge detection.  [displayscale] is what
    [getDisplayState] returned; [sdi0] and [sdi1] are what the [SDI] pin
    reads during the two transfers.  The result is the static variables,
    the word [edge], and what the two transfers write to the [SDO] pin.
    A write to [switchdebounce] outside the array would be undefined; the
    index stays below [SWITCH_DEBOUNCE]. *)
Definition processIO_scan (displayscale : Z) (sdi0 sdi1 : list bool) (s : IO.t)
  : IO.t * Z * (list bool * list bool) :=
  let ledstate0 := to_byte (Z.lnot (to_byte (Z.shiftr displayscale 8))) in
  let ledstate1 := to_byte (Z.lnot (to_byte displayscale)) in
  let '(in0, out1) := shiftIO ledstate1 sdi0 in
  let '(in1, out0) := shiftIO ledstate0 sdi1 in
  let buf0 := <[Z.to_nat (IO.debounceindex s) := in0]> (IO.switchdebounce0 s) in
  let buf1 := <[Z.to_nat (IO.debounceindex s) := in1]> (IO.switchdebounce1 s) in
  let newswitchstate0 := debounced buf0 in
  let newswitchstate1 := debounced buf1 in
  let debounceindex := to_byte (IO.debounceindex s + 1) in
  let debounceindex :=
    if SWITCH_DEBOUNCE <=? debounceindex then 0 else debounceindex in
  let edge0 := to_byte (Z.land (IO.switchstate0 s) (Z.lnot newswitchstate0)) in
  let edge1 := to_byte (Z.land (IO.switchstate1 s) (Z.lnot newswitchstate1)) in
  let edge := to_uint (Z.lor (Z.shiftl edge0 8) edge1) in
  ({| IO.debounceindex := debounceindex;
      IO.switchdebounce0 := buf0;
      IO.switchdebounce1 := buf1;
      IO.switchstate0 := newswitchstate0;
      IO.switchstate1 := newswitchstate1;
      IO.shift := (Z.lor newswitchstate1 254 =? 254) |},
   edge, (out1, out0)).

(** [for (byte i = 0; i<16; i++) { if (e & 0x8000) keyDownEvent(i, shift);
    e <<= 1; }]: the calls made, in order, and the state, [None] when a
    call does not return. *)
Fixpoint key_loop (n : nat) (i e : Z) (shift : bool) (st : State)
  : list Z * option State :=
  match n with
  | O => ([], Some st)
  | S n' =>
      if negb (Z.land e 0x8000 =? 0) then
        match keyDownEvent i shift st with
        | Some st' =>
            let '(ks, r) :=
              key_loop n' (to_byte (i + 1)) (to_uint (Z.shiftl e 1)) shift st' in
            (i :: ks, r)
        | None => ([i], None)
        end
      else key_loop n' (to_byte (i + 1)) (to_uint (Z.shiftl e 1)) shift st
  end.

(** [processIO]: the display state is fetched (which counts the autosave
    counter down), the registers are transferred, and every falling edge
    of a debounced switch raises its key event.  The result is the static
    variables, the calls of [keyDownEvent] made, the state ([None] when
    a call does not return) and what went to the [SDO] pin. *)
Definition processIO (displayscale : Z) (sdi0 sdi1 : list bool) (s : IO.t)
  (st : State) : IO.t * list Z * option State * (list bool * list bool) :=
  let st := autosave_tick st in
  let '(s', edge, leds) := processIO_scan displayscale sdi0 sdi1 s in
  let '(keys, r) :=
    if negb (edge =? 0) then key_loop 16 0 edge (IO.shift s') st
    else ([], Some st) in
  (s', keys, r, leds).

(** The static variables [processIO] can be in: the index inside the two
    ring buffers of [SWITCH_DEBOUNCE] bytes. *)
Definition io_ok (s : IO.t) : Prop :=
  0 <= IO.debounceindex s < SWITCH_DEBOUNCE
  /\ length (IO.switchdebounce0 s) = Z.to_nat SWITCH_DEBOUNCE
  /\ length (IO.switchdebounce1 s) = Z.to_nat SWITCH_DEBOUNCE.

(** Key [k] in the two bytes of a reading or of the debounced state: the
    keys 0 to 7 are bits 7 to 0 of the first byte, the keys 8 to 15 bits
    7 to 0 of the second.  The switches are active low: [true] is a
    released key. *)
Definition switch_bit (k b0 b1 : Z) : bool :=
  if k <? 8 then Z.testbit b0 (7 - k) else Z.testbit b1 (15 - k).

Definition key_state (k : Z) (s : IO.t) : bool :=
  switch_bit k (IO.switchstate0 s) (IO.switchstate1 s).

(** What the [SDI] pin reads for key [k] during the two transfers. *)
Definition key_pin (k : Z) (sdi0 sdi1 : list bool) : bool :=
  if k <? 8 then nth (Z.to_nat k) sdi0 false
  else nth (Z.to_nat (k - 8)) sdi1 false.

(** Key [k] in entry [j] of the ring buffers. *)
Definition key_buffered (k : Z) (j : nat) (s : IO.t) : bool :=
  switch_bit k (nth j (IO.switchdebounce0 s) 0) (nth j (IO.switchdebounce1 s) 0).

(** Consecutive calls of [processIO], one pair of readings each, as far
    as the switches go: the static variables at the end and the word
    [edge] of every call. *)
Fixpoint scans (rs : list (Z * list bool * list bool)) (s : IO.t)
  : IO.t * list Z :=
  match rs with
  | [] => (s, [])
  | (displayscale, sdi0, sdi1) :: rs' =>
      let '(s', edge, _) := processIO_scan displayscale sdi0 sdi1 s in
      let '(s'', edges) := scans rs' s' in
      (s'', edge :: edges)
  end.

(** How often key [k] is raised by a list of edge words. *)
Definition key_events (k : Z) (edges : list Z) : nat :=
  length (filter (fun e => Z.testbit e (15 - k) = true) edges).

(** Readings of eight bits per transfer, and readings in which key [k]
    reads low (pressed) throughout. *)
Definition readings_ok (rs : list (Z * list bool * list bool)) : Prop :=
  Forall (fun r => length (snd (fst r)) = 8%nat /\ length (snd r) = 8%nat) rs.

Definition key_held (k : Z) (rs : list (Z * list bool * list bool)) : Prop :=
  Forall (fun r => key_pin k (snd (fst r)) (snd r) = false) rs.

(** The debounced state of key [k] is the OR of its buffered readings, as
    it is after every call of [processIO]. *)
Definition debounce_current (k : Z) (s : IO.t) : Prop :=
  key_state k s
  = existsb (fun j => key_buffered k j s) (seq 0 (Z.to_nat SWITCH_DEBOUNCE)).

(** Readings with every key released, and with key 3 pressed; the static
    variables of [processIO] after one reading with every key released. *)
Definition all_released : list bool :=
  [true; true; true; true; true; true; true; true].

Definition key3_pressed : list bool :=
  [true; true; true; false; true; true; true; true].

Definition released_io : IO.t :=
  fst (fst (processIO_scan 0 all_released all_released initial_io)).

Definition key3_readings : list (Z * list bool * list bool) :=
  replicate 10 (0, key3_pressed, all_released).

(** The static variables after nine scans that read key 3 low: the next
    such reading is the tenth, and the debounced state of key 3 falls. *)
Definition pressing_io : IO.t :=
  fst (scans (replicate 9 (0, key3_pressed, all_released)) released_io).

(** CV input A is put in the two-channel transpose mode, reads a sample,
    and is switched off with its own key; and the same with the
    gate-length mode. *)
Definition cv_transpose_switched_off : list Event :=
  [KeyDown KEY_CVA true; KeyDown cvtranspose false; CVSample chA 600;
   KeyDown KEY_CVA false].

Definition cv_gatelength_switched_off : list Event :=
  [KeyDown KEY_CVA true; KeyDown cvgatelength false; CVSample chA 1023;
   KeyDown KEY_CVA false].

(** * Proofs *)

(** Case analysis on every condition of the goal. *)
Ltac split_ifs :=
  repeat match goal with
         | |- context [if ?b then _ else _] => destruct b
         end.

Lemma all_below_spec (n : nat) (P : Z -> bool) :
  all_below n P = true -> forall z, 0 <= z < Z.of_nat n -> P z = true.
Proof.
  induction n as [|k IH]; intros H z Hz.
  - simpl in Hz. lia.
  - simpl in H. apply andb_true_iff in H as [Hk Hrest].
    destruct (Z.eq_dec z (Z.of_nat k)) as [->|Hne]; [exact Hk|].
    apply IH; [exact Hrest|lia].
Qed.

(** A scale word whose low four bits are clear is sixteen times a 12-bit
    pattern. *)
Lemma scale_word_pattern (rs : Z) :
  0 <= rs < 65536 -> Z.land rs 15 = 0 ->
  exists s, 0 <= s < 4096 /\ rs = 16 * s.
Proof.
  intros Hr Hl. exists (rs / 16).
  change 15 with (Z.ones 4) in Hl. rewrite Z.land_ones in Hl by lia.
  change (2 ^ 4) with 16 in Hl.
  pose proof (Z.div_mod rs 16 ltac:(lia)) as E.
  split; [|lia].
  split; [apply Z.div_pos; lia|apply Z.div_lt_upper_bound; lia].
Qed.

(** The lookup computes the remainder modulo 12 on every index inside the
    table. *)
Lemma mod12_correct (value : Z) :
  0 <= value < 256 -> mod12 value = value mod 12.
Proof.
  intros H.
  assert (Hc : all_below 256 (fun v => mod12 v =? v mod 12) = true)
    by (vm_compute; reflexivity).
  apply Z.eqb_eq. exact (all_below_spec 256 _ Hc value H).
Qed.

Lemma to_byte_small (z : Z) : 0 <= z < 256 -> to_byte z = z.
Proof. intros H. unfold to_byte. apply Z.mod_small. exact H. Qed.

Lemma to_int_small (z : Z) : -32768 <= z < 32768 -> to_int z = z.
Proof. intros H. unfold to_int. rewrite Z.mod_small; lia. Qed.

(** ** Empty scale *)

(** C3. With no note enabled ([rotatedscale] equal to 0) each of
    [quantizeNearest], [quantizeSkip] and [quantizeEqual] returns 255, a
    value of at least 128, whatever the sample. *)
Theorem empty_scale_returns_sentinel (adcval : Z) :
  Quantize.quantizeNearest 0 adcval = 255
  /\ Quantize.quantizeSkip 0 adcval = 255
  /\ Quantize.quantizeEqual 0 adcval = 255
  /\ 128 <= 255.
Proof.
  unfold Quantize.quantizeNearest, Quantize.quantizeSkip, Quantize.quantizeEqual.
  simpl. repeat split. lia.
Qed.

(** The same through the dispatch of [processChannel]. *)
Lemma quantize_empty_scale (st : State) (adcval : Z) :
  rotatedscale st = 0 -> quantize st adcval = 255.
Proof.
  intros H. unfold quantize. rewrite H.
  unfold Quantize.quantizeNearest, Quantize.quantizeSkip, Quantize.quantizeEqual.
  simpl. repeat destruct (_ =? _); reflexivity.
Qed.

(** ** Scale banks *)

(** C10. For a bank index of 12 or more, [saveScale] (both overloads)
    returns at once and leaves the whole state, the EEPROM included, as it
    was, and [loadScale] leaves the whole state as it was: the scale, the
    base rotation and the rotated scale are unchanged and nothing is
    recomputed. *)
Theorem bank_index_out_of_range_is_noop (index tscale : Z) (st : State) :
  12 <= index ->
  saveScale index tscale st = Some st
  /\ saveScale_current index st = Some st
  /\ loadScale index st = st.
Proof.
  intros H. unfold saveScale_current, saveScale, loadScale.
  assert (E : (index <? 12) = false) by (apply Z.ltb_ge; exact H).
  rewrite E. repeat split.
Qed.

Lemma bank_index_out_of_range_is_noop_witness :
  12 <= 12
  /\ saveScale 12 0xAD50 initial_state = Some initial_state
  /\ saveScale_current 12 initial_state = Some initial_state
  /\ loadScale 12 initial_state = initial_state.
Proof.
  split; [lia|]. apply (bank_index_out_of_range_is_noop 12 0xAD50 initial_state). lia.
Defined.

(** ** Scale rotation *)

(** The bits of a scale word: none from 16 up, none below 4 when the low
    four bits are clear, and the mask [0xFFF0] has exactly bits 4 to 15. *)
Lemma word_high_bits (S n : Z) : 0 <= S < 65536 -> 16 <= n -> Z.testbit S n = false.
Proof.
  intros HS Hn. rewrite <- (Z.mod_small S (2 ^ 16)) by (change (2 ^ 16) with 65536; lia).
  apply Z.mod_pow2_bits_high. lia.
Qed.

Lemma word_low_bits (S n : Z) : Z.land S 15 = 0 -> n < 4 -> Z.testbit S n = false.
Proof.
  intros HL Hn. destruct (Z.lt_ge_cases n 0) as [Hneg|Hpos].
  - apply Z.testbit_neg_r. exact Hneg.
  - assert (E : Z.testbit (Z.land S (Z.ones 4)) n = false)
      by (change (Z.ones 4) with 15; rewrite HL; apply Z.bits_0).
    rewrite Z.land_spec, Z.ones_spec_low in E by lia.
    rewrite andb_true_r in E. exact E.
Qed.

Lemma mask_bits (n : Z) : Z.testbit 0xFFF0 n = (4 <=? n) && (n <? 16).
Proof.
  change 65520 with (Z.shiftl (Z.ones 12) 4).
  destruct (Z.lt_ge_cases n 0) as [Hneg|Hpos].
  - rewrite Z.testbit_neg_r by lia. symmetry. apply andb_false_iff. left. apply Z.leb_gt. lia.
  - rewrite Z.shiftl_spec by lia.
    destruct (Z.leb_spec 4 n); simpl.
    + destruct (Z.ltb_spec n 16).
      * apply Z.ones_spec_low. lia.
      * apply Z.ones_spec_high. lia.
    + apply Z.testbit_neg_r. lia.
Qed.

(** Rotation by [r] moves note [k] to note [(k + r) mod 12]. *)
Lemma rotate_scale_enabled (S r k : Z) :
  0 <= S < 65536 -> Z.land S 15 = 0 -> 0 < r < 12 -> 0 <= k < 12 ->
  enabled (rotate_scale r S) k = enabled S ((k - r) mod 12).
Proof.
  intros HS HL Hr Hk. unfold rotate_scale, enabled, to_uint.
  replace (0 <? r) with true by (symmetry; apply Z.ltb_lt; lia).
  rewrite Z.land_spec, mask_bits, Z.lor_spec.
  replace ((4 <=? 15 - k) && (15 - k <? 16)) with true
    by (symmetry; apply andb_true_iff; split; [apply Z.leb_le|apply Z.ltb_lt]; lia).
  rewrite andb_true_r.
  change 65536 with (2 ^ 16). rewrite Z.mod_pow2_bits_low by lia.
  rewrite Z.shiftr_spec, Z.shiftl_spec by lia.
  destruct (Z.lt_ge_cases k r) as [Hlt|Hge].
  - replace ((k - r) mod 12) with (k - r + 12)
      by (apply Z.mod_unique with (q := -1); lia).
    rewrite (word_high_bits S (15 - k + r)) by lia. simpl.
    f_equal. lia.
  - rewrite (Z.mod_small (k - r)) by lia.
    rewrite (word_low_bits S (15 - k - (12 - r))) by (auto; lia).
    rewrite orb_false_r. f_equal. lia.
Qed.

(** A word is determined by its twelve scale bits once its low four bits
    are clear. *)
Lemma scale_word_ext (S T : Z) :
  0 <= S < 65536 -> Z.land S 15 = 0 ->
  0 <= T < 65536 -> Z.land T 15 = 0 ->
  (forall k, 0 <= k < 12 -> enabled S k = enabled T k) ->
  S = T.
Proof.
  intros HS HLS HT HLT H. apply Z.bits_inj'. intros n Hn.
  destruct (Z.lt_ge_cases n 4) as [H4|H4].
  - rewrite !word_low_bits by assumption. reflexivity.
  - destruct (Z.lt_ge_cases n 16) as [H16|H16].
    + specialize (H (15 - n) ltac:(lia)). unfold enabled in H.
      replace (15 - (15 - n)) with n in H by lia. exact H.
    + rewrite !word_high_bits by assumption. reflexivity.
Qed.

Lemma rotate_scale_range (r S : Z) :
  0 <= S < 65536 -> 0 <= rotate_scale r S < 65536.
Proof.
  intros HS. unfold rotate_scale. destruct (0 <? r); [|exact HS].
  set (x := Z.lor _ _).
  assert (E : Z.land (Z.land x 65520) (Z.ones 16) = Z.land x 65520)
    by (rewrite <- Z.land_assoc; reflexivity).
  rewrite Z.land_ones in E by lia. rewrite <- E.
  change 65536 with (2 ^ 16). apply Z.mod_pos_bound. lia.
Qed.

Lemma rotate_scale_low_bits (rotation S : Z) :
  Z.land S 15 = 0 -> Z.land (rotate_scale rotation S) 15 = 0.
Proof.
  intros H. unfold rotate_scale. destruct (0 <? rotation); [|exact H].
  rewrite <- Z.land_assoc. change (Z.land 65520 15) with 0. apply Z.land_0_r.
Qed.

Lemma rotate_back (S r : Z) :
  0 <= S < 65536 -> Z.land S 15 = 0 -> 0 <= r <= 11 ->
  rotate_scale ((12 - r) mod 12) (rotate_scale r S) = S.
Proof.
  intros HS HL Hr.
  destruct (Z.eq_dec r 0) as [->|Hr0]; [reflexivity|].
  rewrite (Z.mod_small (12 - r)) by lia.
  pose proof (rotate_scale_range r S HS) as HR.
  pose proof (rotate_scale_low_bits r S HL) as HRL.
  apply scale_word_ext; auto using rotate_scale_range, rotate_scale_low_bits.
  intros k Hk.
  rewrite rotate_scale_enabled by (auto; lia).
  rewrite rotate_scale_enabled
    by (auto; try lia; apply Z.mod_pos_bound; lia).
  f_equal.
  rewrite Zminus_mod_idemp_l.
  replace (k - (12 - r) - r) with (k + (-1) * 12) by lia.
  rewrite Z.mod_add by lia. apply Z.mod_small. lia.
Qed.

(** [updateRotation] stores the rotation of the base scale by the sum of
    the two rotation amounts. *)
Lemma updateRotation_rotatedscale (st : State) :
  rotatedscale (updateRotation st)
  = rotate_scale
      (to_byte (mod12 (PersistentState.rotatesemitones (state st)
                       + rotatesemitonesCV st)))
      (PersistentState.scale (state st)).
Proof. reflexivity. Qed.

(** C5. For a 16-bit scale word [S] with its low four bits clear and a
    rotation [r] from 0 to 11, rotating by [r] and then by
    [(12 - r) mod 12] gives [S] back, and whatever the rotation the
    rotated word has its low four bits clear; [updateRotation] stores
    exactly that rotation of the base scale when the two rotation amounts
    add up to [r]. *)
Theorem rotation_invertible (S r : Z) :
  0 <= S < 65536 -> Z.land S 15 = 0 -> 0 <= r <= 11 ->
  rotate_scale ((12 - r) mod 12) (rotate_scale r S) = S
  /\ (forall rotation, Z.land (rotate_scale rotation S) 15 = 0)
  /\ (forall st,
        PersistentState.scale (state st) = S ->
        PersistentState.rotatesemitones (state st) + rotatesemitonesCV st = r ->
        rotatedscale (updateRotation st) = rotate_scale r S).
Proof.
  intros HS HL Hr. split; [|split].
  - apply rotate_back; assumption.
  - intros rotation. apply rotate_scale_low_bits. exact HL.
  - intros st HSs Hrs. rewrite updateRotation_rotatedscale, HSs, Hrs.
    rewrite mod12_correct by lia.
    rewrite Z.mod_small by lia. rewrite to_byte_small by lia. reflexivity.
Qed.

Lemma rotation_invertible_witness :
  rotate_scale ((12 - 5) mod 12) (rotate_scale 5 major) = major
  /\ (forall rotation, Z.land (rotate_scale rotation major) 15 = 0)
  /\ (forall st,
        PersistentState.scale (state st) = major ->
        PersistentState.rotatesemitones (state st) + rotatesemitonesCV st = 5 ->
        rotatedscale (updateRotation st) = rotate_scale 5 major).
Proof.
  apply (rotation_invertible major 5);
    [vm_compute; split; congruence | reflexivity | lia].
Defined.

(** ** Reassigning a CV input *)

Lemma resetCVState_neutral (i : chan) (st : State) :
  let st' := resetCVState i st in
  rotatesemitonesCV st' = 0
  /\ get i (transposesemitonesCV st') = 0
  /\ get i (offsetsemitonesCV st') = 0
  /\ cvgatelengthindex st' = 0
  /\ cvgatelengthremainder st' = 0
  /\ state st' = state st
  /\ rotatedscale st'
     = rotate_scale (to_byte (mod12 (PersistentState.rotatesemitones (state st) + 0)))
                    (PersistentState.scale (state st)).
Proof. destruct i; repeat split. Qed.

(** What [resetCVState] leaves alone: the CV transpose and CV offset of
    the other channel, which the two-channel effects [cvtranspose] and
    [cvoffset] also write, and the gate length computed earlier. *)
Lemma resetCVState_other_channel (st : State) :
  get chB (transposesemitonesCV (resetCVState chA st))
  = get chB (transposesemitonesCV st)
  /\ get chB (offsetsemitonesCV (resetCVState chA st))
     = get chB (offsetsemitonesCV st)
  /\ gatelength (resetCVState chA st) = gatelength st.
Proof. repeat split. Qed.

(** What a reassignment does reset: a key press in the [cvA] or [cvB]
    menu that reassigns the mode of input [i] returns, having stored the
    new mode, and afterwards the CV rotation is 0, the CV transpose and
    CV offset at index [i] are 0, the CV gate-length index and remainder
    are 0, the base scale is as before, and the rotated scale is the base
    scale rotated by the base rotation alone. *)
Lemma cv_menu_resets_own_index (i : chan) (key : Z) (shift : bool)
  (st : State) :
  reassigns i key st ->
  exists st',
    keyDownEvent key shift st = Some st'
    /\ get i (PersistentState.cvmode (state st'))
       = (if (key <=? MAX_CV_MODE) || (key =? KEY_LOAD) then key else cvoff)
    /\ rotatesemitonesCV st' = 0
    /\ get i (transposesemitonesCV st') = 0
    /\ get i (offsetsemitonesCV st') = 0
    /\ cvgatelengthindex st' = 0
    /\ cvgatelengthremainder st' = 0
    /\ PersistentState.scale (state st') = PersistentState.scale (state st)
    /\ rotatedscale st'
       = rotate_scale
           (to_byte (mod12 (PersistentState.rotatesemitones (state st) + 0)))
           (PersistentState.scale (state st)).
Proof.
  intros H. unfold keyDownEvent.
  destruct i; destruct H as [Hm Hk]; rewrite Hm; eexists; (split; [reflexivity|]);
    unfold cv_menu.
  - destruct ((key <=? MAX_CV_MODE) || (key =? KEY_LOAD)) eqn:E1.
    + repeat split.
    + destruct (key =? KEY_CVA) eqn:E2; [repeat split|].
      exfalso. apply orb_false_iff in E1 as [Ea Eb].
      apply Z.leb_gt in Ea. apply Z.eqb_neq in Eb, E2.
      destruct Hk as [Hk|[Hk|Hk]]; [lia | contradiction | contradiction].
  - destruct ((key <=? MAX_CV_MODE) || (key =? KEY_LOAD)) eqn:E1.
    + repeat split.
    + destruct (key =? KEY_CVB) eqn:E2; [repeat split|].
      exfalso. apply orb_false_iff in E1 as [Ea Eb].
      apply Z.leb_gt in Ea. apply Z.eqb_neq in Eb, E2.
      destruct Hk as [Hk|[Hk|Hk]]; [lia | contradiction | contradiction].
Qed.

(** C7. A reassignment leaves contributions of the input behind, against
    the comment of [resetCVState] ("any effect of the old CV mode is
    removed").  From start-up, input A is put in the two-channel
    transpose mode and a sample of 600 sets both CV transposes to 11;
    switching the input off clears the one at index 0 only and channel B
    stays transposed by 11.  In the gate-length mode a sample of 1023
    makes the gate length 10000; switching the input off zeroes the CV
    index and remainder but does not call [updateGatelength], so the gate
    length stays 10000 where the menu setting alone gives 5. *)
Theorem cv_reassignment_leaves_overlay :
  (let st := final_state cv_transpose_switched_off started_state in
   PersistentState.cvmode (state st) = (cvoff, cvoff)
   /\ transposesemitonesCV
        (final_state (firstn 3 cv_transpose_switched_off) started_state)
      = (11, 11)
   /\ transposesemitonesCV st = (0, 11))
  /\ (let st := final_state cv_gatelength_switched_off started_state in
      PersistentState.cvmode (state st) = (cvoff, cvoff)
      /\ cvgatelengthindex st = 0
      /\ cvgatelengthremainder st = 0
      /\ gatelength st = 10000
      /\ gatelength (updateGatelength st) = 5
      /\ gatelength started_state = 5).
Proof. vm_compute. repeat split. Qed.

(** ** The quantizers against their reference definitions *)

(** *** The shifted scale word

    After [k] shifts the tested bit 15 of [localscale] is bit [15 - k] of
    the scale word, that is, whether note [k] is enabled. *)

Lemma land_pow2 (x n : Z) :
  0 <= n -> Z.land x (2 ^ n) = if Z.testbit x n then 2 ^ n else 0.
Proof.
  intros Hn. apply Z.bits_inj'. intros k Hk.
  rewrite Z.land_spec, Z.pow2_bits_eqb by lia.
  destruct (Z.eqb_spec n k) as [->|Hne].
  - destruct (Z.testbit x k) eqn:E; simpl.
    + rewrite Z.pow2_bits_true by lia. reflexivity.
    + rewrite Z.bits_0. reflexivity.
  - rewrite andb_false_r. destruct (Z.testbit x n).
    + rewrite Z.pow2_bits_false by lia. reflexivity.
    + rewrite Z.bits_0. reflexivity.
Qed.

Lemma bit_set_testbit (x : Z) : Quantize.bit_set x = Z.testbit x 15.
Proof.
  unfold Quantize.bit_set, Quantize.bitmask. change (Z.shiftl 1 15) with (2 ^ 15).
  rewrite land_pow2 by lia. destruct (Z.testbit x 15); reflexivity.
Qed.

Lemma bitmask_eq_testbit (x : Z) :
  (Z.land x Quantize.bitmask =? Quantize.bitmask) = Z.testbit x 15.
Proof.
  unfold Quantize.bitmask. change (Z.shiftl 1 15) with (2 ^ 15).
  rewrite land_pow2 by lia. destruct (Z.testbit x 15); reflexivity.
Qed.

Lemma shl_testbit (rs k : Z) :
  0 <= k -> Z.testbit (Quantize.shl rs k) 15 = enabled rs k.
Proof.
  intros Hk. unfold Quantize.shl, to_uint, enabled. change 65536 with (2 ^ 16).
  rewrite Z.mod_pow2_bits_low by lia.
  apply Z.shiftl_spec. lia.
Qed.

Lemma shl_0 (rs : Z) : 0 <= rs < 65536 -> Quantize.shl rs 0 = rs.
Proof. intros H. unfold Quantize.shl, to_uint. rewrite Z.shiftl_0_r. apply Z.mod_small. exact H. Qed.

Lemma shl_shl (rs k : Z) :
  0 <= k -> Quantize.shl (Quantize.shl rs k) 1 = Quantize.shl rs (k + 1).
Proof.
  intros Hk. unfold Quantize.shl, to_uint.
  rewrite !Z.shiftl_mul_pow2 by lia.
  rewrite Z.pow_add_r by lia. change (2 ^ 1) with 2.
  rewrite Z.mul_mod_idemp_l by lia. f_equal. lia.
Qed.

(** *** The loops of [quantizeNearest] *)

Lemma scan_first_shl (rs : Z) (n : nat) (k : Z) :
  0 <= k ->
  Quantize.scan_first n k (Quantize.shl rs k)
  = (fst (first_from (enabled rs) n k), snd (first_from (enabled rs) n k),
     Quantize.shl rs (snd (first_from (enabled rs) n k))).
Proof.
  revert k. induction n as [|n IH]; intros k Hk; simpl.
  - reflexivity.
  - rewrite bit_set_testbit, shl_testbit by lia.
    destruct (enabled rs k); [reflexivity|].
    rewrite shl_shl by lia. apply IH. lia.
Qed.

Lemma first_from_bounds (P : Z -> bool) (n : nat) (k : Z) :
  k <= snd (first_from P n k) <= k + Z.of_nat n.
Proof.
  revert k. induction n as [|n IH]; intros k; simpl; [lia|].
  destruct (P k); simpl; [lia|]. specialize (IH (k + 1)). lia.
Qed.

Lemma scan_last_shl (rs : Z) (n : nat) (k last : Z) :
  0 <= k ->
  Quantize.scan_last n k (Quantize.shl rs k) last
  = (last_from (enabled rs) n k last, Quantize.shl rs (k + Z.of_nat n)).
Proof.
  revert k last. induction n as [|n IH]; intros k last Hk.
  - simpl. rewrite Z.add_0_r. reflexivity.
  - cbn [Quantize.scan_last last_from].
    rewrite bit_set_testbit, shl_testbit, shl_shl by lia.
    rewrite IH by lia. f_equal. f_equal. lia.
Qed.

Lemma search_search_by (rs sn : Z) :
  0 <= rs < 65536 -> 0 <= sn < 12 ->
  Quantize.search rs sn = search_by (enabled rs) sn.
Proof.
  intros Hrs Hsn. unfold Quantize.search, search_by.
  rewrite <- (shl_0 rs Hrs) at 1.
  rewrite scan_first_shl by lia.
  pose proof (first_from_bounds (enabled rs) (Z.to_nat sn) 0) as Hb.
  destruct (first_from (enabled rs) (Z.to_nat sn) 0) as [ll j]. simpl in Hb |- *.
  rewrite scan_last_shl by lia.
  replace (j + Z.of_nat (Z.to_nat (sn - j))) with sn by lia.
  rewrite bitmask_eq_testbit, shl_testbit, shl_shl by lia.
  rewrite (to_byte_small (sn + 1)) by lia.
  rewrite scan_first_shl by lia.
  pose proof (first_from_bounds (enabled rs) (Z.to_nat (12 - (sn + 1))) (sn + 1)) as Hb2.
  destruct (first_from (enabled rs) (Z.to_nat (12 - (sn + 1))) (sn + 1)) as [hl j2].
  simpl in Hb2 |- *.
  rewrite scan_last_shl by lia.
  reflexivity.
Qed.

Lemma first_from_ext (P Q : Z -> bool) (n : nat) (k : Z) :
  (forall x, k <= x < k + Z.of_nat n -> P x = Q x) ->
  first_from P n k = first_from Q n k.
Proof.
  revert k. induction n as [|n IH]; intros k H; simpl; [reflexivity|].
  rewrite <- (H k) by lia. destruct (P k); [reflexivity|].
  apply IH. intros x Hx. apply H. lia.
Qed.

Lemma last_from_ext (P Q : Z -> bool) (n : nat) (k last : Z) :
  (forall x, k <= x < k + Z.of_nat n -> P x = Q x) ->
  last_from P n k last = last_from Q n k last.
Proof.
  revert k last. induction n as [|n IH]; intros k last H; simpl; [reflexivity|].
  rewrite <- (H k) by lia. apply IH. intros x Hx. apply H. lia.
Qed.

Lemma search_by_ext (P Q : Z -> bool) (sn : Z) :
  0 <= sn < 12 ->
  (forall x, 0 <= x < 12 -> P x = Q x) ->
  search_by P sn = search_by Q sn.
Proof.
  intros Hsn H. unfold search_by.
  rewrite (first_from_ext P Q (Z.to_nat sn) 0) by (intros; apply H; lia).
  pose proof (first_from_bounds Q (Z.to_nat sn) 0) as Hb.
  destruct (first_from Q (Z.to_nat sn) 0) as [ll j]. simpl in Hb.
  rewrite (last_from_ext P Q (Z.to_nat (sn - j)) j) by (intros; apply H; lia).
  rewrite (H sn) by lia.
  rewrite (first_from_ext P Q (Z.to_nat (12 - (sn + 1))) (sn + 1))
    by (intros; apply H; lia).
  pose proof (first_from_bounds Q (Z.to_nat (12 - (sn + 1))) (sn + 1)) as Hb2.
  destruct (first_from Q (Z.to_nat (12 - (sn + 1))) (sn + 1)) as [hl j2].
  simpl in Hb2.
  rewrite (last_from_ext P Q (Z.to_nat (12 - j2)) j2) by (intros; apply H; lia).
  reflexivity.
Qed.

Lemma enabled_masked (rs k : Z) :
  0 <= k < 12 -> enabled (Z.land rs 0xFFF0) k = enabled rs k.
Proof.
  intros Hk. unfold enabled. rewrite Z.land_spec.
  change 65520 with (Z.shiftl (Z.ones 12) 4).
  rewrite Z.shiftl_spec by lia. rewrite Z.ones_spec_low by lia.
  apply andb_true_r.
Qed.

Lemma masked_word (rs : Z) :
  0 <= rs < 65536 ->
  0 <= Z.land rs 0xFFF0 < 65536 /\ Z.land (Z.land rs 0xFFF0) 15 = 0.
Proof.
  intros H. split.
  - assert (E : Z.land (Z.land rs 65520) (Z.ones 16) = Z.land rs 65520)
      by (rewrite <- Z.land_assoc; reflexivity).
    rewrite Z.land_ones in E by lia. rewrite <- E.
    change 65536 with (2 ^ 16). apply Z.mod_pos_bound. lia.
  - rewrite <- Z.land_assoc. change (Z.land 65520 15) with 0. apply Z.land_0_r.
Qed.

Lemma first_hit_ext (P Q : Z -> bool) (n : nat) (d : Z) :
  (forall x, P x = Q x) -> first_hit P n d = first_hit Q n d.
Proof.
  intros H. revert d. induction n as [|n IH]; intros d; simpl; [reflexivity|].
  rewrite H. destruct (Q d); [reflexivity|apply IH].
Qed.

Lemma dist_masked (rs sn : Z) :
  dist_above (Z.land rs 0xFFF0) sn = dist_above rs sn
  /\ dist_below (Z.land rs 0xFFF0) sn = dist_below rs sn.
Proof.
  unfold dist_above, dist_below.
  split; apply first_hit_ext; intros d; apply enabled_masked;
    apply Z.mod_pos_bound; lia.
Qed.

Lemma search_check_all : all_below 4096 search_check = true.
Proof. vm_compute. reflexivity. Qed.

(** The loops of [quantizeNearest] find whether the note is enabled and
    the distances to the nearest enabled notes above and below.  The loops
    are first read through the enabled bits; the comparison with
    [dist_above] and [dist_below] is then checked on the 4096 patterns of
    twelve bits. *)
Lemma search_correct (rs sn : Z) :
  0 <= rs < 65536 -> 0 <= sn < 12 ->
  Quantize.search rs sn = (enabled rs sn, dist_above rs sn, dist_below rs sn).
Proof.
  intros Hrs Hsn.
  destruct (masked_word rs Hrs) as [Hm Hl].
  destruct (dist_masked rs sn) as [Ha Hb].
  rewrite <- Ha, <- Hb, <- (enabled_masked rs sn Hsn).
  rewrite (search_search_by rs sn Hrs Hsn).
  rewrite (search_by_ext (enabled rs) (enabled (Z.land rs 0xFFF0)) sn Hsn)
    by (intros; symmetry; apply enabled_masked; lia).
  rewrite <- (search_search_by _ sn Hm Hsn).
  destruct (scale_word_pattern _ Hm Hl) as (s & Hs & Es).
  rewrite Es.
  pose proof (all_below_spec 4096 _ search_check_all s Hs) as Hc.
  unfold search_check in Hc.
  pose proof (all_below_spec 12 _ Hc sn ltac:(lia)) as Hd. simpl in Hd.
  destruct (Quantize.search (16 * s) sn) as [[current next] prev].
  apply andb_true_iff in Hd as [Hd Hp]. apply andb_true_iff in Hd as [Hcur Hn].
  apply Bool.eqb_prop in Hcur. apply Z.eqb_eq in Hn, Hp. congruence.
Qed.

Lemma note_of_range (adcval : Z) : 0 <= Quantize.note_of adcval < 256.
Proof. unfold Quantize.note_of, to_byte. apply Z.mod_pos_bound. lia. Qed.

Lemma rem_of_range (adcval : Z) : 0 <= Quantize.rem_of adcval < 8.
Proof.
  unfold Quantize.rem_of. change 7 with (Z.ones 3).
  rewrite Z.land_ones by lia. change (2 ^ 3) with 8.
  pose proof (Z.mod_pos_bound adcval 8 ltac:(lia)).
  rewrite to_byte_small; lia.
Qed.

(** Every sample of the 10-bit converter, and every sample up to 1979,
    keeps the lookup inside the table. *)
Lemma note_of_in_table (adcval : Z) :
  -4 <= adcval <= 1979 -> Quantize.note_of adcval <= 247.
Proof.
  intros H. unfold Quantize.note_of, quartertone.
  rewrite to_int_small by lia.
  rewrite Z.shiftr_div_pow2 by lia. change (2 ^ 3) with 8.
  assert (0 <= (adcval + 4) / 8 <= 247).
  { split; [apply Z.div_pos; lia|].
    apply Z.lt_succ_r. apply Z.div_lt_upper_bound; lia. }
  rewrite to_byte_small; lia.
Qed.

(** While the table lookup stays inside the table, the scale index of a
    note is [(note + 8) mod 12]. *)
Lemma scalenote_of_correct (note : Z) :
  0 <= note <= 247 -> Quantize.scalenote_of note = (note + 8) mod 12.
Proof.
  intros H. unfold Quantize.scalenote_of.
  rewrite mod12_correct by lia.
  pose proof (Z.mod_pos_bound (note + 8) 12 ltac:(lia)).
  apply to_byte_small. lia.
Qed.


Lemma rem_of_mod (adcval : Z) : Quantize.rem_of adcval = adcval mod 8.
Proof.
  unfold Quantize.rem_of. change 7 with (Z.ones 3).
  rewrite Z.land_ones by lia. change (2 ^ 3) with 8.
  pose proof (Z.mod_pos_bound adcval 8 ltac:(lia)).
  apply to_byte_small; lia.
Qed.





(** *** The loop of [quantizeEqual]

    Invariant: [numnotes] is the number of enabled notes met so far and
    they sit, in the order met, at the front of [notes], before the zeros
    the array started with. *)
Lemma gather_shl (rs : Z) (n : nat) (k : Z) (acc : list Z) (m : nat) :
  0 <= k -> (n <= m)%nat -> (length acc + m <= 255)%nat ->
  Quantize.gather n k (Quantize.shl rs k) (Z.of_nat (length acc))
                  (acc ++ replicate m 0)
  = let hits := filter (fun x => enabled rs x = true) (range k n) in
    (Z.of_nat (length (acc ++ hits)),
     acc ++ hits ++ replicate (m - length hits) 0).
Proof.
  revert k acc m. induction n as [|n IH]; intros k acc m Hk Hm Hlen.
  - simpl. rewrite app_nil_r, Nat.sub_0_r. reflexivity.
  - cbn [Quantize.gather range].
    rewrite bit_set_testbit, shl_testbit, shl_shl by lia.
    destruct (enabled rs k) eqn:E.
    + rewrite filter_cons_True by exact E.
      destruct m as [|m]; [lia|].
      rewrite Nat2Z.id.
      rewrite insert_app_r_alt by lia.
      rewrite Nat.sub_diag. cbn [replicate]. cbn [list_insert insert].
      replace (to_byte (Z.of_nat (length acc) + 1))
        with (Z.of_nat (length (acc ++ [k])))
        by (rewrite length_app; simpl; rewrite to_byte_small; lia).
      replace (acc ++ k :: replicate m 0) with ((acc ++ [k]) ++ replicate m 0)
        by (rewrite <- app_assoc; reflexivity).
      rewrite IH by (rewrite ?length_app; simpl; lia).
      cbn zeta. rewrite <- !app_assoc. simpl. reflexivity.
    + rewrite filter_cons_False by (rewrite E; discriminate).
      rewrite IH by lia. cbn zeta.
      reflexivity.
Qed.

(** The loop counts the enabled notes and leaves them, in ascending order,
    at the front of [notes]. *)
Lemma gather_correct (rs : Z) :
  0 <= rs < 65536 ->
  Quantize.gather 12 0 rs 0 (replicate 12 0)
  = (Z.of_nat (length (enabled_notes rs)),
     enabled_notes rs ++ replicate (12 - length (enabled_notes rs)) 0).
Proof.
  intros Hrs.
  pose proof (gather_shl rs 12 0 [] 12 ltac:(lia) ltac:(lia) ltac:(simpl; lia))
    as H.
  rewrite (shl_0 rs Hrs) in H. exact H.
Qed.

Lemma enabled_notes_nonzero (rs : Z) : enabled_notes rs <> [] -> rs <> 0.
Proof. intros H ->. apply H. reflexivity. Qed.

Lemma enabled_notes_length (rs : Z) : (length (enabled_notes rs) <= 12)%nat.
Proof.
  unfold enabled_notes.
  etransitivity; [apply length_filter|]. simpl. lia.
Qed.

Lemma note_of_div (adcval : Z) :
  0 <= adcval <= 1023 -> Quantize.note_of adcval = (adcval + 4) / 8.
Proof.
  intros H. unfold Quantize.note_of, quartertone.
  rewrite to_int_small by lia.
  rewrite Z.shiftr_div_pow2 by lia. change (2 ^ 3) with 8.
  apply to_byte_small.
  pose proof (Z.div_mod (adcval + 4) 8 ltac:(lia)).
  pose proof (Z.mod_pos_bound (adcval + 4) 8 ltac:(lia)). lia.
Qed.

(** The position [quantizeEqual] ranks. *)
Lemma quantizeEqual_rank (rs adcval : Z) :
  0 <= rs < 65536 -> enabled_notes rs <> [] ->
  Quantize.note_of adcval <= 247 ->
  let note := Quantize.note_of adcval in
  let sn := (note + 8) mod 12 in
  let p := 8 * sn + Quantize.rem_of adcval in
  let notes := enabled_notes rs in
  let rank := p * Z.of_nat (length notes) / 96 in
  0 <= p <= 95
  /\ 0 <= rank < Z.of_nat (length notes)
  /\ Quantize.quantizeEqual rs adcval
     = to_byte (to_byte (note - sn) + nth (Z.to_nat rank) notes 0).
Proof.
  intros HS Hne Hn note sn p notes rank.
  pose proof (note_of_range adcval) as Hnr.
  pose proof (rem_of_range adcval) as Hrr.
  pose proof (Z.mod_pos_bound (note + 8) 12 ltac:(lia)) as Hsn. fold sn in Hsn.
  assert (Hpos : (0 < length notes)%nat).
  { unfold notes. destruct (enabled_notes rs); [congruence|simpl; lia]. }
  pose proof (enabled_notes_length rs) as Hlen. fold notes in Hlen.
  assert (Hp : 0 <= p <= 95) by (unfold p; lia).
  assert (Hrank : 0 <= rank < Z.of_nat (length notes)).
  { unfold rank. split.
    - apply Z.div_pos; nia.
    - apply Z.div_lt_upper_bound; nia. }
  repeat split; try lia.
  unfold Quantize.quantizeEqual.
  replace (rs =? 0) with false
    by (symmetry; apply Z.eqb_neq; apply enabled_notes_nonzero; exact Hne).
  fold note. rewrite scalenote_of_correct by (unfold note; lia). fold sn.
  rewrite (gather_correct rs HS). fold notes.
  rewrite Z.shiftl_mul_pow2 by lia. change (2 ^ 3) with 8.
  replace (sn * 8 + Quantize.rem_of adcval) with p by (unfold p; lia).
  rewrite (to_byte_small p) by lia.
  unfold to_uint. rewrite (Z.mod_small (p * _)) by nia.
  unfold cdiv. rewrite Z.quot_div_nonneg by nia. fold rank.
  rewrite (to_byte_small rank) by lia.
  rewrite app_nth1 by lia. reflexivity.
Qed.

(** Where the position ranked by the code sits: on the position of the
    sample when the sample was rounded down, and one semitone (8 units)
    further, wrapping at the octave, when it was rounded up. *)
Lemma quantizeEqual_position (adcval : Z) :
  0 <= adcval <= 1023 ->
  8 * ((Quantize.note_of adcval + 8) mod 12) + Quantize.rem_of adcval
  = if Quantize.rem_of adcval <? 4
    then octave_position adcval
    else (octave_position adcval + 8) mod 96.
Proof.
  intros H. rewrite note_of_div, rem_of_mod by exact H. unfold octave_position.
  pose proof (Z.div_mod adcval 8 ltac:(lia)).
  pose proof (Z.mod_pos_bound adcval 8 ltac:(lia)).
  pose proof (Z.div_mod (adcval + 4) 8 ltac:(lia)).
  pose proof (Z.mod_pos_bound (adcval + 4) 8 ltac:(lia)).
  pose proof (Z.div_mod ((adcval + 4) / 8 + 8) 12 ltac:(lia)).
  pose proof (Z.mod_pos_bound ((adcval + 4) / 8 + 8) 12 ltac:(lia)).
  pose proof (Z.div_mod (adcval + 64) 96 ltac:(lia)).
  pose proof (Z.mod_pos_bound (adcval + 64) 96 ltac:(lia)).
  pose proof (Z.div_mod ((adcval + 64) mod 96 + 8) 96 ltac:(lia)).
  pose proof (Z.mod_pos_bound ((adcval + 64) mod 96 + 8) 96 ltac:(lia)).
  destruct (Z.ltb_spec (adcval mod 8) 4); lia.
Qed.

(** For a sample that was rounded down the code returns the note of the
    rule read on the sample's position. *)
Lemma quantizeEqual_rounded_down (rs adcval : Z) :
  0 <= rs < 65536 -> enabled_notes rs <> [] ->
  0 <= adcval <= 1023 -> Quantize.rem_of adcval < 4 ->
  Quantize.quantizeEqual rs adcval = equal_by_position rs adcval.
Proof.
  intros HS Hne Ha Hr.
  pose proof (note_of_in_table adcval ltac:(lia)) as Hn.
  destruct (quantizeEqual_rank rs adcval HS Hne Hn) as (_ & _ & E).
  cbv zeta in E. rewrite E. clear E.
  pose proof (quantizeEqual_position adcval Ha) as Hp.
  destruct (Z.ltb_spec (Quantize.rem_of adcval) 4); [|lia].
  rewrite Hp. unfold equal_by_position. cbv zeta.
  set (k := nth _ _ _).
  assert (Ho : Quantize.note_of adcval - (Quantize.note_of adcval + 8) mod 12
               = octave_offset adcval).
  { unfold octave_offset. rewrite rem_of_mod in Hr.
    rewrite note_of_div by exact Ha.
    pose proof (Z.div_mod adcval 8 ltac:(lia)).
    pose proof (Z.mod_pos_bound adcval 8 ltac:(lia)).
    pose proof (Z.div_mod (adcval + 4) 8 ltac:(lia)).
    pose proof (Z.mod_pos_bound (adcval + 4) 8 ltac:(lia)).
    pose proof (Z.div_mod ((adcval + 4) / 8 + 8) 12 ltac:(lia)).
    pose proof (Z.mod_pos_bound ((adcval + 4) / 8 + 8) 12 ltac:(lia)).
    pose proof (Z.div_mod (adcval + 64) 96 ltac:(lia)).
    pose proof (Z.mod_pos_bound (adcval + 64) 96 ltac:(lia)).
    lia. }
  rewrite Ho. unfold to_byte. rewrite Zplus_mod_idemp_l. reflexivity.
Qed.

(** C6. [quantizeEqual] does not rank the position of the sample.  It
    ranks [8 * scalenote + r], the scale index of the rounded note with
    the remainder of the truncated division: for a sample that was
    rounded up this is one semitone above the position of the sample.  On
    the major scale the sample 93 lies at position 61 of its octave, rank
    [61 * 7 / 96 = 4], the fifth enabled note, which gives note 11 (and so
    does the position 65 of the sample moved up by the quartertone of the
    rounding); the code ranks 69, takes the sixth enabled note and
    returns 13, more than it returns for the higher sample 96. *)
Theorem equal_ranks_shifted_position :
  octave_position 93 = 61
  /\ equal_by_position major 93 = 11
  /\ equal_by_position major (93 + quartertone) = 11
  /\ 8 * Quantize.scalenote_of (Quantize.note_of 93) + Quantize.rem_of 93 = 69
  /\ Quantize.quantizeEqual major 93 = 13
  /\ Quantize.quantizeEqual major 96 = 11.
Proof. repeat split. Qed.

(** ** Gate length *)

(** What holds of the interpolation: the clamps at both ends, and the
    linear formula for the combined indices 0 to 7, where the product
    [remainder * step] fits the 16-bit [int]. *)
Lemma gatelength_of_in_range (gatelengthindex cvindex cvremainder : Z) :
  -32768 <= gatelengthindex + cvindex < 32768 ->
  0 <= cvremainder <= 39 ->
  let i := gatelengthindex + cvindex in
  (i < 0 -> gatelength_of gatelengthindex cvindex cvremainder = 5)
  /\ (10 < i -> gatelength_of gatelengthindex cvindex cvremainder = 10000)
  /\ (0 <= i <= 7 ->
      gatelength_of gatelengthindex cvindex cvremainder
      = nth (Z.to_nat i) gatelengths 0
        + cvremainder * (nth (Z.to_nat (i + 1)) gatelengths 0
                         - nth (Z.to_nat i) gatelengths 0) / 39).
Proof.
  intros Hi Hr i. unfold gatelength_of.
  replace (to_int (gatelengthindex + cvindex)) with i
    by (unfold to_int, i; rewrite Z.mod_small; lia).
  repeat split.
  - intros H. replace (i <? 0) with true by (symmetry; apply Z.ltb_lt; lia).
    reflexivity.
  - intros H. replace (i <? 0) with false by (symmetry; apply Z.ltb_ge; lia).
    replace (10 <? i) with true by (symmetry; apply Z.ltb_lt; lia).
    reflexivity.
  - intros H.
    assert (Hc : all_below 8 (fun i => all_below 40 (fun r =>
               gatelength_of i 0 r
               =? nth (Z.to_nat i) gatelengths 0
                  + r * (nth (Z.to_nat (i + 1)) gatelengths 0
                         - nth (Z.to_nat i) gatelengths 0) / 39)) = true)
      by (vm_compute; reflexivity).
    pose proof (all_below_spec 8 _ Hc i ltac:(lia)) as Hd. cbv beta in Hd.
    pose proof (all_below_spec 40 _ Hd cvremainder ltac:(lia)) as He.
    apply Z.eqb_eq in He. rewrite <- He. unfold gatelength_of.
    replace (to_int (i + 0)) with i
      by (unfold to_int; rewrite Z.add_0_r, Z.mod_small; lia).
    reflexivity.
Qed.

Example gatelength_of_example : gatelength_of 0 0 20 = 28.
Proof. reflexivity. Qed.

(** C9 fails on the code.  With gate length 8 chosen and CV input A in the
    gate-length mode, the sample 551 gives CV index 0 and remainder 39.
    Linear interpolation between entries 8 and 9 of the table would give
    [2040 + 39 * (3466 - 2040) / 39 = 3466]; the product [39 * 1426]
    does not fit the 16-bit [int] of [intmap], and the stored gate length
    is 1786, below entry 8 itself. *)
Theorem gatelength_interpolation_overflows :
  map (fun x => (cvgatelengthindex (fst x), cvgatelengthremainder (fst x),
                 gatelength (fst x)))
      (run gatelength_by_cv started_state)
  = [(0, 0, 5); (0, 0, 2040); (0, 0, 2040); (0, 0, 2040); (0, 0, 2040);
     (0, 39, 1786)]
  /\ gatelength_of 8 0 39 = 1786
  /\ nth 8 gatelengths 0
     + 39 * (nth 9 gatelengths 0 - nth 8 gatelengths 0) / 39 = 3466
  /\ gatelength_of 8 0 22 = 2844
  /\ gatelength_of 8 0 23 = 1201.
Proof. vm_compute. repeat split. Qed.

(** ** Out-of-range candidates *)

(** In every mode but keyboard, a candidate of 128 or more is not
    accepted: the output value and the DAC register keep their values and
    nothing is written to the DAC. *)
Lemma out_of_range_candidate_held (i : chan) (newadcval : Z) (din edge : bool)
  (st : State) :
  mode st <> Mode.keyboard ->
  128 <= quantized_candidate i newadcval st ->
  let '(st', io) := processChannel i newadcval din edge st in
  Channel.outval (statics st') = Channel.outval (statics st)
  /\ OCR1 st' = OCR1 st
  /\ forall j v, ~ In (SetDAC j v) io.
Proof.
  intros Hm Hc. unfold processChannel, choose_candidate.
  assert (E : (quantized_candidate i newadcval st <? 128) = false)
    by (apply Z.ltb_ge; exact Hc).
  destruct (mode st) eqn:Em; try congruence; rewrite E;
    destruct (get i (Channel.triggerdelay (statics st)) =? 1);
    unfold gate_step, trigger_step; cbn -[Z.add Z.opp];
    repeat match goal with
           | |- context [if ?b then _ else _] => destruct b; cbn -[Z.add Z.opp]
           end;
    (split; [reflexivity|split; [reflexivity|]]);
    intros j v Hin; simpl in Hin; intuition discriminate.
Qed.

(** C2 fails on the code in keyboard mode.  After the key presses of
    [keyboard_top_octave] the keyboard candidate is [63 + 5 + 60 = 128];
    the next sample of channel A accepts it: the output value and the DAC
    register of the channel become 128. *)
Theorem keyboard_accepts_out_of_range :
  map (fun x => (mode (fst x), keyboardoctaves (fst x),
                 keyboardsemitones (fst x), out_of chA (fst x),
                 get chA (OCR1 (fst x)), snd x))
      (run keyboard_top_octave started_state)
  = [(Mode.keyboard, 0, 0, 0, 0, []);
     (Mode.keyboard, 1, 0, 0, 0, []);
     (Mode.keyboard, 2, 0, 0, 0, []);
     (Mode.keyboard, 3, 0, 0, 0, []);
     (Mode.keyboard, 4, 0, 0, 0, []);
     (Mode.keyboard, 5, 0, 0, 0, []);
     (Mode.keyboard, 5, 5, 0, 0, []);
     (Mode.keyboard, 5, 5, 128, 128, [SetDAC chA 128; GateOff chA])].
Proof. vm_compute. reflexivity. Qed.

(** ** Hysteresis *)

(** In keyboard mode the sample plays no part in the call. *)
Lemma keyboard_ignores_sample (i : chan) (a b : Z) (din edge : bool)
  (st : State) :
  mode st = Mode.keyboard ->
  processChannel i a din edge st = processChannel i b din edge st.
Proof.
  intros Hm. unfold processChannel, choose_candidate. rewrite Hm. reflexivity.
Qed.

(** C4, as amended.  The hysteresis is applied exactly while the channel
    is free running, whatever the menu mode: the constant [hysteresis] is
    subtracted from a sample above the last output, [hysteresis - 1] is
    added to a sample below it, and a channel that is not free running
    uses the raw sample.  In every mode but keyboard the candidate is the
    quantization of that value with the offsets added; in keyboard mode
    the sample is not used. *)
Theorem hysteresis_only_free_running (i : chan) (newadcval : Z)
  (din edge : bool) (st : State) :
  -32767 <= newadcval <= 32767 ->
  let oldval := Z.shiftl (out_of i st) 3 in
  newvalhyst_of i newadcval st
  = (if get i (Channel.freerunning (statics st)) then
       if oldval <? newadcval then newadcval - hysteresis
       else if newadcval <? oldval then newadcval + (hysteresis - 1)
       else newadcval
     else newadcval)
  /\ (mode st <> Mode.keyboard ->
      fst (fst (choose_candidate i newadcval st))
      = add_transpose i
          (quantize st
             (newvalhystoffset_of i (newvalhyst_of i newadcval st) st)) st)
  /\ (mode st = Mode.keyboard ->
      forall other : Z,
        processChannel i newadcval din edge st
        = processChannel i other din edge st).
Proof.
  intros Hr oldval. split; [|split].
  - unfold newvalhyst_of, add_hysteresis. fold (out_of i st). fold oldval.
    unfold hysteresis.
    destruct (get i (Channel.freerunning (statics st))); [|reflexivity].
    destruct (oldval <? newadcval); [apply to_int_small; lia|].
    destruct (newadcval <? oldval); [apply to_int_small; lia|reflexivity].
  - intros Hm. unfold choose_candidate, quantized_candidate, quantizer_input.
    destruct (mode st); try congruence;
      repeat match goal with
             | |- context [if ?b then _ else _] => destruct b
             end; reflexivity.
  - intros Hm other. apply keyboard_ignores_sample. exact Hm.
Qed.

Lemma hysteresis_only_free_running_witness :
  newvalhyst_of chA 12 triggered_state = 12
  /\ newvalhyst_of chA 12 started_state = 11.
Proof.
  split.
  - apply (hysteresis_only_free_running chA 12 false false triggered_state). lia.
  - apply (hysteresis_only_free_running chA 12 false false started_state). lia.
Defined.

(** C4, as stated, fails: channel A of [triggered_state] is not free
    running and the menu is not in keyboard mode, and the quantizer gets
    the raw sample 12, not 11. *)
Lemma hysteresis_unless_keyboard_fails : ~ hysteresis_unless_keyboard.
Proof.
  intros H.
  specialize (H chA 12 triggered_state ltac:(vm_compute; congruence)).
  vm_compute in H. congruence.
Qed.

(** ** Gate suppression *)

(** Only [processChannel] touches its static variables. *)
Lemma updateRotation_statics (st : State) :
  statics (updateRotation st) = statics st.
Proof. reflexivity. Qed.

Lemma loadScale_statics (index : Z) (st : State) :
  statics (loadScale index st) = statics st.
Proof. unfold loadScale. destruct (index <? 12); reflexivity. Qed.

Lemma processCV_statics (i : chan) (newadcval : Z) (st : State) :
  statics (processCV i newadcval st) = statics st.
Proof.
  unfold processCV. split_ifs; rewrite ?loadScale_statics; reflexivity.
Qed.

Lemma keyDownEvent_statics (key : Z) (shift : bool) (st st' : State) :
  keyDownEvent key shift st = Some st' -> statics st' = statics st.
Proof.
  unfold keyDownEvent, keyDown_normal, keyDown_keyboard, semitone_menu, cv_menu,
    saveScale_current, saveScale.
  intros H.
  destruct (mode st);
    repeat match type of H with
           | context [if ?b then _ else _] => destruct b
           end;
    inversion H; subst; try reflexivity.
  change (statics (loadScale key st) = statics st). apply loadScale_statics.
Qed.

Lemma gate_ons_app (j : chan) (a b : list IOEvent) :
  gate_ons j (a ++ b) = (gate_ons j a + gate_ons j b)%nat.
Proof. unfold gate_ons. rewrite filter_app, length_app. reflexivity. Qed.

Lemma choose_candidate_frame (i : chan) (newadcval : Z) (st : State) :
  let st1 := snd (choose_candidate i newadcval st) in
  Channel.outval (statics st1) = Channel.outval (statics st)
  /\ Channel.lastgateoutval (statics st1) = Channel.lastgateoutval (statics st).
Proof.
  unfold choose_candidate. destruct (mode st); split_ifs; split; reflexivity.
Qed.

Lemma accept_frame (i j : chan) (candidate : Z) (st : State) :
  let '(st2, io) := accept i candidate st in
  Channel.lastgateoutval (statics st2) = Channel.lastgateoutval (statics st)
  /\ gate_ons j io = 0%nat.
Proof.
  unfold accept. simpl.
  destruct (negb (PersistentState.gatelegato (state st))); split; reflexivity.
Qed.

(** The gate is switched on only when the output value differs from the
    one that produced the previous gate, and then that value is recorded. *)
Lemma gate_step_cases (i j : chan) (st : State) :
  let '(st3, io) := gate_step i st in
  Channel.outval (statics st3) = Channel.outval (statics st)
  /\ ((gate_ons j io = 0%nat /\ lastgate_of j st3 = lastgate_of j st)
      \/ (gate_ons j io = 1%nat
          /\ out_of j st <> lastgate_of j st
          /\ lastgate_of j st3 = out_of j st)).
Proof.
  unfold gate_step, lastgate_of, out_of.
  destruct (get i (Channel.gatecounter (statics st)) =? 0); cbn -[Z.add].
  - destruct (get i (Channel.outval (statics st))
              =? get i (Channel.lastgateoutval (statics st))) eqn:E;
      cbn -[Z.add].
    + split_ifs; split; try reflexivity; left; split; reflexivity.
    + apply Z.eqb_neq in E.
      destruct i, j; cbn -[Z.add]; split_ifs; cbn -[Z.add];
        (split; [reflexivity|]);
        first [ right; repeat split; [exact E] | left; split; reflexivity ].
  - split_ifs; split; try reflexivity; left; split; reflexivity.
Qed.

Lemma trigger_step_frame (i : chan) (din edge : bool) (st : State) :
  Channel.outval (statics (trigger_step i din edge st))
  = Channel.outval (statics st)
  /\ Channel.lastgateoutval (statics (trigger_step i din edge st))
     = Channel.lastgateoutval (statics st).
Proof. unfold trigger_step. split_ifs; split; reflexivity. Qed.

(** One call of [processChannel], seen from channel [j]: either no gate is
    switched on and the recorded gate value stays, or one gate is switched
    on, the new output value differs from the recorded one, and it becomes
    the recorded one. *)
Lemma processChannel_gate_cases (i j : chan) (newadcval : Z) (din edge : bool)
  (st : State) :
  let '(st', io) := processChannel i newadcval din edge st in
  (gate_ons j io = 0%nat /\ lastgate_of j st' = lastgate_of j st)
  \/ (gate_ons j io = 1%nat
      /\ out_of j st' <> lastgate_of j st
      /\ lastgate_of j st' = out_of j st').
Proof.
  unfold processChannel.
  pose proof (choose_candidate_frame i newadcval st) as Hc.
  destruct (choose_candidate i newadcval st) as [[candidate trig] st1].
  simpl in Hc. destruct Hc as [_ Hc].
  assert (Ha : exists st2 ev,
             (if trig then accept i candidate st1 else (st1, [])) = (st2, ev)
             /\ Channel.lastgateoutval (statics st2)
                = Channel.lastgateoutval (statics st)
             /\ gate_ons j ev = 0%nat).
  { destruct trig.
    - pose proof (accept_frame i j candidate st1) as Hf.
      destruct (accept i candidate st1) as [st2 ev]. destruct Hf as [Hf1 Hf2].
      exists st2, ev. repeat split; [congruence|exact Hf2].
    - exists st1, []. repeat split. exact Hc. }
  destruct Ha as (st2 & ev & -> & Hl2 & Hg2).
  pose proof (gate_step_cases i j st2) as Hg.
  destruct (gate_step i st2) as [st3 ev3]. destruct Hg as [Ho3 Hg].
  pose proof (trigger_step_frame i din edge st3) as [Ht1 Ht2].
  rewrite gate_ons_app, Hg2. simpl.
  unfold lastgate_of, out_of in *. rewrite Ht1, Ht2, Ho3, <- Hl2.
  exact Hg.
Qed.

(** The same for any event. *)
Lemma step_gate_cases (j : chan) (e : Event) (st st' : State)
  (io : list IOEvent) :
  step e st = Some (st', io) ->
  (gate_ons j io = 0%nat /\ lastgate_of j st' = lastgate_of j st)
  \/ (gate_ons j io = 1%nat
      /\ out_of j st' <> lastgate_of j st
      /\ lastgate_of j st' = out_of j st').
Proof.
  destruct e as [i a din edge | i a | key shift]; simpl; intros H.
  - pose proof (processChannel_gate_cases i j a din edge st) as Hp.
    inversion H as [E]. rewrite E in Hp. exact Hp.
  - inversion H; subst. left. split; [reflexivity|].
    unfold lastgate_of. rewrite processCV_statics. reflexivity.
  - destruct (keyDownEvent key shift st) as [s|] eqn:E; [|discriminate].
    inversion H; subst. left. split; [reflexivity|].
    unfold lastgate_of. rewrite (keyDownEvent_statics _ _ _ _ E). reflexivity.
Qed.

Lemma gate_ons_run_cons (j : chan) (st : State) (io : list IOEvent)
  (tr : list (State * list IOEvent)) :
  gate_ons_run j ((st, io) :: tr) = (gate_ons j io + gate_ons_run j tr)%nat.
Proof. unfold gate_ons_run. simpl. apply gate_ons_app. Qed.

(** One event: the gate of channel [j] is not switched on when the output
    value after the event is the value that produced the previous gate. *)
Lemma gate_on_needs_new_value (j : chan) (e : Event) (st st' : State)
  (io : list IOEvent) :
  step e st = Some (st', io) ->
  out_of j st' = lastgate_of j st ->
  gate_ons j io = 0%nat.
Proof.
  intros H Heq.
  destruct (step_gate_cases j e st st' io H) as [[Hg _]|(_ & Hne & _)];
    [exact Hg | contradiction].
Qed.

(** C8. Along any execution in which the output value of channel [i]
    stays at [v], the gate of the channel is switched on at most once, and
    not at all when [v] is the value that produced the previous gate.  Two
    accepted triggers that resolve to the same value, with no gate between
    them, lie in such a stretch, so they produce at most one gate. *)
Theorem gate_suppressed_on_same_output (i : chan) (es : list Event)
  (st : State) (v : Z) :
  Forall (fun x => out_of i (fst x) = v) (run es st) ->
  (gate_ons_run i (run es st)
   <= if (lastgate_of i st =? v)%Z then 0 else 1)%nat.
Proof.
  revert st. induction es as [|e es IH]; intros st Hall.
  - simpl. unfold gate_ons_run, gate_ons. simpl. lia.
  - simpl in *. destruct (step e st) as [[st' io]|] eqn:E.
    + pose proof (Forall_inv Hall) as Hv.
      pose proof (Forall_inv_tail Hall) as Hrest. simpl in Hv.
      specialize (IH st' Hrest). rewrite gate_ons_run_cons.
      destruct (step_gate_cases i e st st' io E) as [[Hg Hl]|(Hg & Hne & Hl)].
      * rewrite Hg, <- Hl. simpl. exact IH.
      * rewrite Hg. rewrite Hl, Hv, Z.eqb_refl in IH.
        replace (lastgate_of i st =? v) with false
          by (symmetry; apply Z.eqb_neq; congruence).
        lia.
    + unfold gate_ons_run, gate_ons. simpl. lia.
Qed.

Lemma gate_suppressed_on_same_output_witness :
  (gate_ons_run chA (run same_note_again keyboard_first_note) <= 1)%nat.
Proof.
  apply (gate_suppressed_on_same_output chA same_note_again
                                        keyboard_first_note 66).
  vm_compute. repeat constructor.
Defined.

(** In that execution channel A accepts the value 66 three times and its
    gate is switched on once. *)
Example same_note_again_trace :
  map (fun x => (out_of chA (fst x), snd x))
      (run same_note_again keyboard_first_note)
  = [(66, [SetDAC chA 66; GateOff chA]);
     (66, []);
     (66, [SetDAC chA 66; GateOff chA]);
     (66, [SetDAC chA 66; GateOff chA]);
     (66, []);
     (66, [GateOn chA]);
     (66, []);
     (66, [])].
Proof. vm_compute. reflexivity. Qed.

(** * Further properties *)

(** Closed facts by evaluation. *)
Ltac by_evaluation :=
  vm_compute;
  repeat match goal with
         | |- _ /\ _ => split
         | |- True => exact I
         | |- _ = _ => reflexivity
         | |- _ -> False => let H := fresh in intro H; discriminate H
         | |- _ \/ _ => first [left; solve [by_evaluation]
                              |right; solve [by_evaluation]]
         | |- exists _, _ => eexists
         | |- _ -> _ => intro
         end.

(*PROOFS*)
(** ** More on the quantizers *)

Lemma quantizeSemitones_bounds (adcval : Z) :
  -4 <= adcval <= 2043 ->
  0 <= Quantize.quantizeSemitones adcval <= 255
  /\ 8 * Quantize.quantizeSemitones adcval - 4 <= adcval
     <= 8 * Quantize.quantizeSemitones adcval + 3.
Proof.
  intros H. unfold Quantize.quantizeSemitones, Quantize.note_of, quartertone.
  rewrite to_int_small by lia.
  rewrite Z.shiftr_div_pow2 by lia. change (2 ^ 3) with 8.
  pose proof (Z.div_mod (adcval + 4) 8 ltac:(lia)) as E.
  pose proof (Z.mod_pos_bound (adcval + 4) 8 ltac:(lia)) as B.
  assert (0 <= (adcval + 4) / 8 <= 255).
  { split; [apply Z.div_pos; lia|].
    apply Z.lt_succ_r. apply Z.div_lt_upper_bound; lia. }
  rewrite to_byte_small by lia. lia.
Qed.

(** X1. [quantizeSemitones] rounds to the nearest semitone, a sample half
    way between two semitones going up: for samples from -4 to 2043 the
    result [q] satisfies [8 * q - 4 <= adcval <= 8 * q + 3]. *)
Theorem quantizeSemitones_rounds (adcval : Z) :
  -4 <= adcval <= 2043 ->
  let q := Quantize.quantizeSemitones adcval in
  0 <= q <= 255 /\ 8 * q - 4 <= adcval <= 8 * q + 3.
Proof. intros H q. exact (quantizeSemitones_bounds adcval H). Qed.

Lemma quantizeSemitones_rounds_witness :
  0 <= Quantize.quantizeSemitones 100 <= 255
  /\ 8 * Quantize.quantizeSemitones 100 - 4 <= 100
     <= 8 * Quantize.quantizeSemitones 100 + 3.
Proof. apply (quantizeSemitones_rounds 100). lia. Defined.

(** X2. On every byte value the lookup macro [mod12] gives the remainder
    of the division by 12. *)
Theorem mod12_is_remainder (value : Z) :
  0 <= value <= 255 ->
  mod12 value = value mod 12 /\ 0 <= mod12 value <= 11.
Proof.
  intros H. rewrite mod12_correct by lia.
  pose proof (Z.mod_pos_bound value 12 ltac:(lia)). lia.
Qed.

Lemma mod12_is_remainder_witness :
  mod12 255 = 255 mod 12 /\ 0 <= mod12 255 <= 11.
Proof. apply (mod12_is_remainder 255). lia. Defined.

(** X3. [quantizeSkip] returns the rounded semitone when its note is
    enabled in the scale and 255 otherwise. *)
Theorem quantizeSkip_enabled_or_skip (rs adcval : Z) :
  0 <= rs < 65536 ->
  Quantize.note_of adcval <= 247 ->
  let note := Quantize.note_of adcval in
  Quantize.quantizeSkip rs adcval
  = if enabled rs ((note + 8) mod 12) then note else 255.
Proof.
  intros HS Hn note. pose proof (note_of_range adcval) as Hr.
  unfold Quantize.quantizeSkip. fold note.
  rewrite scalenote_of_correct by (unfold note; lia).
  pose proof (Z.mod_pos_bound (note + 8) 12 ltac:(lia)) as Hsn.
  destruct (Z.eqb_spec rs 0) as [->|Hne].
  - unfold enabled. rewrite Z.bits_0. reflexivity.
  - rewrite bitmask_eq_testbit, shl_testbit by lia. reflexivity.
Qed.

Lemma quantizeSkip_enabled_or_skip_witness :
  Quantize.quantizeSkip major 40 = 255 /\ Quantize.quantizeSkip major 48 = 6.
Proof.
  split.
  - apply (quantizeSkip_enabled_or_skip major 40);
      [vm_compute; split; congruence | vm_compute; congruence].
  - apply (quantizeSkip_enabled_or_skip major 48);
      [vm_compute; split; congruence | vm_compute; congruence].
Defined.

(** *** The distances to the neighbours *)

Lemma first_hit_spec (P : Z -> bool) (n : nat) (d : Z) :
  d <= first_hit P n d <= d + Z.of_nat n
  /\ (first_hit P n d < d + Z.of_nat n -> P (first_hit P n d) = true)
  /\ (forall x, d <= x < first_hit P n d -> P x = false).
Proof.
  revert d. induction n as [|n IH]; intros d; simpl first_hit.
  - split; [lia|]. split; intros; lia.
  - destruct (P d) eqn:E.
    + split; [lia|]. split; [intros; exact E|intros; lia].
    + destruct (IH (d + 1)) as (Hb & Hh & Hm).
      split; [lia|]. split.
      * intros Hlt. apply Hh. lia.
      * intros x Hx. destruct (Z.eq_dec x d) as [->|Hne]; [exact E|].
        apply Hm. lia.
Qed.

Lemma enabled_notes_spec (rs k : Z) :
  In k (enabled_notes rs) <-> 0 <= k < 12 /\ enabled rs k = true.
Proof.
  unfold enabled_notes. rewrite <- list_elem_of_In, list_elem_of_filter.
  rewrite list_elem_of_In. simpl. split.
  - intros [He Hk]. split; [|exact He].
    repeat (destruct Hk as [<-|Hk]; [lia|]). contradiction.
  - intros [Hk He]. split; [exact He|].
    assert (k = 0 \/ k = 1 \/ k = 2 \/ k = 3 \/ k = 4 \/ k = 5 \/ k = 6
            \/ k = 7 \/ k = 8 \/ k = 9 \/ k = 10 \/ k = 11) by lia.
    intuition.
Qed.

(** With some other note enabled, the upward distance from a scale index
    is a real one: between 1 and 11, to an enabled note, with no enabled
    note nearer. *)
Lemma dist_above_spec (rs s k : Z) :
  0 <= s < 12 -> 0 <= k < 12 -> k <> s -> enabled rs k = true ->
  1 <= dist_above rs s <= 11
  /\ enabled rs ((s + dist_above rs s) mod 12) = true
  /\ (forall d, 1 <= d < dist_above rs s -> enabled rs ((s + d) mod 12) = false)
  /\ dist_above rs s <= (k - s) mod 12.
Proof.
  intros Hs Hk Hne He. unfold dist_above.
  set (P := fun d => enabled rs ((s + d) mod 12)).
  destruct (first_hit_spec P 11 1) as (Hb & Hh & Hm).
  pose proof (Z.mod_pos_bound (k - s) 12 ltac:(lia)) as Hd.
  assert (Hd0 : (k - s) mod 12 <> 0).
  { intros E. apply Z.mod_divide in E; [|lia]. destruct E as [q E]. lia. }
  assert (HP : P ((k - s) mod 12) = true).
  { unfold P. rewrite Zplus_mod_idemp_r.
    replace (s + (k - s)) with k by lia. rewrite Z.mod_small by lia. exact He. }
  assert (Hle : first_hit P 11 1 <= (k - s) mod 12).
  { destruct (Z.le_gt_cases (first_hit P 11 1) ((k - s) mod 12)) as [H|H];
      [exact H|].
    rewrite Hm in HP by lia. discriminate. }
  change (Z.of_nat 11) with 11 in *.
  split; [lia|]. split; [apply Hh; lia|]. split; [exact Hm|lia].
Qed.

Lemma dist_below_spec (rs s k : Z) :
  0 <= s < 12 -> 0 <= k < 12 -> k <> s -> enabled rs k = true ->
  1 <= dist_below rs s <= 11
  /\ enabled rs ((s - dist_below rs s) mod 12) = true
  /\ (forall d, 1 <= d < dist_below rs s -> enabled rs ((s - d) mod 12) = false)
  /\ dist_below rs s <= (s - k) mod 12.
Proof.
  intros Hs Hk Hne He. unfold dist_below.
  set (P := fun d => enabled rs ((s - d) mod 12)).
  destruct (first_hit_spec P 11 1) as (Hb & Hh & Hm).
  pose proof (Z.mod_pos_bound (s - k) 12 ltac:(lia)) as Hd.
  assert (Hd0 : (s - k) mod 12 <> 0).
  { intros E. apply Z.mod_divide in E; [|lia]. destruct E as [q E]. lia. }
  assert (HP : P ((s - k) mod 12) = true).
  { unfold P. rewrite Zminus_mod_idemp_r.
    replace (s - (s - k)) with k by lia. rewrite Z.mod_small by lia. exact He. }
  assert (Hle : first_hit P 11 1 <= (s - k) mod 12).
  { destruct (Z.le_gt_cases (first_hit P 11 1) ((s - k) mod 12)) as [H|H];
      [exact H|].
    rewrite Hm in HP by lia. discriminate. }
  change (Z.of_nat 11) with 11 in *.
  split; [lia|]. split; [apply Hh; lia|]. split; [exact Hm|lia].
Qed.

Lemma enabled_notes_pick (rs : Z) :
  enabled_notes rs <> [] -> exists k, 0 <= k < 12 /\ enabled rs k = true.
Proof.
  intros H. destruct (enabled_notes rs) as [|k l] eqn:E; [congruence|].
  exists k. apply enabled_notes_spec. rewrite E. left. reflexivity.
Qed.

(** X4. [quantizeNearest] returns a nearest enabled note.  For a scale
    with an enabled note, the result is the rounded semitone moved by some
    [delta] of at most 6 semitones, the note reached is enabled, and no
    enabled note is nearer to the rounded semitone; an enabled rounded
    semitone is returned as it is. *)
Theorem quantizeNearest_is_nearest (rs adcval : Z) :
  0 <= rs < 65536 -> enabled_notes rs <> [] ->
  Quantize.note_of adcval <= 247 ->
  let note := Quantize.note_of adcval in
  exists delta,
    -6 <= delta <= 6
    /\ Quantize.quantizeNearest rs adcval = to_byte (note + delta)
    /\ enabled rs ((note + 8 + delta) mod 12) = true
    /\ (forall eps, enabled rs ((note + 8 + eps) mod 12) = true ->
                    Z.abs delta <= Z.abs eps).
Proof.
  intros HS Hne Hn note.
  pose proof (note_of_range adcval) as Hr. fold note in Hr.
  set (sn := (note + 8) mod 12).
  pose proof (Z.mod_pos_bound (note + 8) 12 ltac:(lia)) as Hsn. fold sn in Hsn.
  assert (Hidx : forall e, (note + 8 + e) mod 12 = (sn + e) mod 12)
    by (intros e; unfold sn; rewrite Zplus_mod_idemp_l; reflexivity).
  assert (Hq : Quantize.quantizeNearest rs adcval
               = if enabled rs sn then note
                 else if (dist_above rs sn <? dist_below rs sn)
                         || ((dist_above rs sn =? dist_below rs sn)
                             && (Quantize.rem_of adcval <? 4))
                      then to_byte (note + dist_above rs sn)
                      else to_byte (note - dist_below rs sn)).
  { unfold Quantize.quantizeNearest.
    replace (rs =? 0) with false
      by (symmetry; apply Z.eqb_neq; apply enabled_notes_nonzero; exact Hne).
    fold note. rewrite scalenote_of_correct by lia. fold sn.
    rewrite (search_correct rs sn HS Hsn). reflexivity. }
  rewrite Hq. clear Hq.
  destruct (enabled rs sn) eqn:Ecur.
  - exists 0. split; [lia|]. split; [rewrite Z.add_0_r, to_byte_small; lia|].
    split; [rewrite Hidx, Z.add_0_r, Z.mod_small; assumption|].
    intros eps _. lia.
  - destruct (enabled_notes_pick rs Hne) as (k & Hk & Hek).
    assert (Hks : k <> sn) by congruence.
    destruct (dist_above_spec rs sn k Hsn Hk Hks Hek) as (Ha & Hea & Hma & _).
    destruct (dist_below_spec rs sn k Hsn Hk Hks Hek) as (Hb & Heb & Hmb & _).
    set (da := dist_above rs sn) in *. set (db := dist_below rs sn) in *.
    assert (Hsum : da + db <= 12).
    { pose proof (Z.mod_pos_bound (sn - db) 12 ltac:(lia)) as Hk'.
      assert (Hne' : (sn - db) mod 12 <> sn).
      { intros E. rewrite E in Heb. congruence. }
      destruct (dist_above_spec rs sn ((sn - db) mod 12) Hsn Hk' Hne' Heb)
        as (_ & _ & _ & Hle).
      fold da in Hle. rewrite Zminus_mod_idemp_l in Hle.
      replace (sn - db - sn) with (12 - db + (-1) * 12) in Hle by lia.
      rewrite Z.mod_add, Z.mod_small in Hle by lia. lia. }
    assert (Hfar : forall eps, enabled rs ((note + 8 + eps) mod 12) = true ->
                               da <= Z.abs eps \/ db <= Z.abs eps).
    { intros eps He. rewrite Hidx in He.
      destruct (Z.lt_trichotomy eps 0) as [Hneg|[->|Hpos]].
      - right. destruct (Z.le_gt_cases db (Z.abs eps)) as [H|H]; [exact H|].
        exfalso. pose proof (Hmb (- eps) ltac:(lia)) as F.
        replace (sn - - eps) with (sn + eps) in F by lia. congruence.
      - rewrite Z.add_0_r, Z.mod_small in He by lia. congruence.
      - left. destruct (Z.le_gt_cases da (Z.abs eps)) as [H|H]; [exact H|].
        rewrite Hma in He by lia. discriminate. }
    destruct ((da <? db) || ((da =? db) && (Quantize.rem_of adcval <? 4)))
      eqn:Esel.
    + assert (Hle : da <= db).
      { apply orb_true_iff in Esel as [E|E].
        - apply Z.ltb_lt in E. lia.
        - apply andb_true_iff in E as [E _]. apply Z.eqb_eq in E. lia. }
      exists da. split; [lia|]. split; [reflexivity|].
      split; [rewrite Hidx; exact Hea|].
      intros eps He. destruct (Hfar eps He); lia.
    + assert (Hle : db <= da).
      { apply orb_false_iff in Esel as [E _]. apply Z.ltb_ge in E. exact E. }
      exists (- db). split; [lia|]. split; [reflexivity|].
      split; [rewrite Hidx; exact Heb|].
      intros eps He. destruct (Hfar eps He); lia.
Qed.

Lemma quantizeNearest_is_nearest_witness :
  exists delta,
    -6 <= delta <= 6
    /\ Quantize.quantizeNearest major 40 = to_byte (Quantize.note_of 40 + delta)
    /\ enabled major ((Quantize.note_of 40 + 8 + delta) mod 12) = true
    /\ (forall eps, enabled major ((Quantize.note_of 40 + 8 + eps) mod 12) = true ->
                    Z.abs delta <= Z.abs eps).
Proof.
  apply (quantizeNearest_is_nearest major 40);
    [vm_compute; split; congruence | vm_compute; congruence
    | vm_compute; congruence].
Defined.

(** The result of [quantizeEqual] by rank, as a rewriting rule. *)
Lemma quantizeEqual_by_rank (rs adcval : Z) :
  0 <= rs < 65536 -> enabled_notes rs <> [] ->
  Quantize.note_of adcval <= 247 ->
  let note := Quantize.note_of adcval in
  let sn := (note + 8) mod 12 in
  let rank :=
    (8 * sn + Quantize.rem_of adcval) * Z.of_nat (length (enabled_notes rs)) / 96 in
  0 <= rank < Z.of_nat (length (enabled_notes rs))
  /\ Quantize.quantizeEqual rs adcval
     = to_byte (to_byte (note - sn) + nth (Z.to_nat rank) (enabled_notes rs) 0).
Proof.
  intros HS Hne Hn note sn rank.
  pose proof (note_of_range adcval) as Hnr. fold note in Hnr.
  pose proof (rem_of_range adcval) as Hrr.
  pose proof (Z.mod_pos_bound (note + 8) 12 ltac:(lia)) as Hsn. fold sn in Hsn.
  assert (Hpos : (0 < length (enabled_notes rs))%nat)
    by (destruct (enabled_notes rs); [congruence|simpl; lia]).
  pose proof (enabled_notes_length rs) as Hlen.
  set (p := 8 * sn + Quantize.rem_of adcval) in *.
  assert (Hrank : 0 <= rank < Z.of_nat (length (enabled_notes rs))).
  { unfold rank. split.
    - apply Z.div_pos; nia.
    - apply Z.div_lt_upper_bound; nia. }
  split; [exact Hrank|].
  unfold Quantize.quantizeEqual.
  replace (rs =? 0) with false
    by (symmetry; apply Z.eqb_neq; apply enabled_notes_nonzero; exact Hne).
  fold note. rewrite scalenote_of_correct by lia. fold sn.
  rewrite (gather_correct rs HS).
  rewrite Z.shiftl_mul_pow2 by lia. change (2 ^ 3) with 8.
  replace (sn * 8 + Quantize.rem_of adcval) with p by (unfold p; lia).
  rewrite (to_byte_small p) by lia.
  unfold to_uint. rewrite (Z.mod_small (p * _)) by nia.
  unfold cdiv. rewrite Z.quot_div_nonneg by nia. fold rank.
  rewrite (to_byte_small rank) by lia.
  rewrite app_nth1 by lia. reflexivity.
Qed.

(** X5. [quantizeEqual] returns an enabled note of the octave of the
    sample: the result is [note - scalenote + e] modulo 256 for a note [e]
    enabled in the scale, and that sum has scale index [e]. *)
Theorem quantizeEqual_returns_enabled (rs adcval : Z) :
  0 <= rs < 65536 -> enabled_notes rs <> [] ->
  Quantize.note_of adcval <= 247 ->
  let note := Quantize.note_of adcval in
  let sn := (note + 8) mod 12 in
  exists e,
    0 <= e < 12
    /\ enabled rs e = true
    /\ Quantize.quantizeEqual rs adcval = to_byte (note - sn + e)
    /\ (note - sn + e + 8) mod 12 = e.
Proof.
  intros HS Hne Hn note sn.
  destruct (quantizeEqual_by_rank rs adcval HS Hne Hn) as [Hrank Heq].
  fold note sn in Hrank, Heq.
  set (rank := (8 * sn + Quantize.rem_of adcval)
               * Z.of_nat (length (enabled_notes rs)) / 96) in *.
  set (e := nth (Z.to_nat rank) (enabled_notes rs) 0) in *.
  assert (Hin : In e (enabled_notes rs)) by (apply nth_In; lia).
  apply enabled_notes_spec in Hin as [He Hen].
  exists e. split; [exact He|]. split; [exact Hen|]. split.
  - rewrite Heq. unfold to_byte. rewrite Zplus_mod_idemp_l. reflexivity.
  - pose proof (Z.div_mod (note + 8) 12 ltac:(lia)) as E. fold sn in E.
    replace (note - sn + e + 8) with (e + (note + 8) / 12 * 12) by lia.
    rewrite Z.mod_add by lia. apply Z.mod_small. exact He.
Qed.

Lemma quantizeEqual_returns_enabled_witness :
  exists e,
    0 <= e < 12
    /\ enabled major e = true
    /\ Quantize.quantizeEqual major 82
       = to_byte (Quantize.note_of 82 - (Quantize.note_of 82 + 8) mod 12 + e)
    /\ (Quantize.note_of 82 - (Quantize.note_of 82 + 8) mod 12 + e + 8) mod 12 = e.
Proof.
  apply (quantizeEqual_returns_enabled major 82);
    [vm_compute; split; congruence | vm_compute; congruence
    | vm_compute; congruence].
Defined.

(** X6. With all twelve notes enabled the three quantization modes agree
    with plain rounding to the semitone. *)
Theorem chromatic_scale_rounds (adcval : Z) :
  Quantize.note_of adcval <= 247 ->
  Quantize.quantizeNearest 0xFFF0 adcval = Quantize.quantizeSemitones adcval
  /\ Quantize.quantizeSkip 0xFFF0 adcval = Quantize.quantizeSemitones adcval
  /\ Quantize.quantizeEqual 0xFFF0 adcval = Quantize.quantizeSemitones adcval.
Proof.
  intros Hn. unfold Quantize.quantizeSemitones.
  set (note := Quantize.note_of adcval).
  pose proof (note_of_range adcval) as Hr. fold note in Hr.
  pose proof (rem_of_range adcval) as Hrr.
  set (sn := (note + 8) mod 12).
  pose proof (Z.mod_pos_bound (note + 8) 12 ltac:(lia)) as Hsn. fold sn in Hsn.
  assert (Hall : forall k, 0 <= k < 12 -> enabled 0xFFF0 k = true).
  { intros k Hk. unfold enabled. rewrite mask_bits.
    apply andb_true_iff. split; [apply Z.leb_le|apply Z.ltb_lt]; lia. }
  assert (HS : 0 <= 0xFFF0 < 65536) by lia.
  split; [|split].
  - unfold Quantize.quantizeNearest. fold note.
    rewrite scalenote_of_correct by lia. fold sn.
    rewrite (search_correct _ sn HS Hsn), (Hall sn Hsn). reflexivity.
  - unfold Quantize.quantizeSkip. fold note.
    rewrite scalenote_of_correct by lia. fold sn.
    rewrite bitmask_eq_testbit, shl_testbit by lia.
    rewrite (Hall sn Hsn). reflexivity.
  - assert (Hne : enabled_notes 0xFFF0 <> []) by (vm_compute; congruence).
    destruct (quantizeEqual_by_rank _ adcval HS Hne Hn) as [_ ->].
    fold note sn.
    change (enabled_notes 65520) with [0; 1; 2; 3; 4; 5; 6; 7; 8; 9; 10; 11].
    change (Z.of_nat (length [0; 1; 2; 3; 4; 5; 6; 7; 8; 9; 10; 11])) with 12.
    replace ((8 * sn + Quantize.rem_of adcval) * 12 / 96) with sn
      by (apply Z.div_unique with (r := 12 * Quantize.rem_of adcval); lia).
    replace (nth (Z.to_nat sn) [0; 1; 2; 3; 4; 5; 6; 7; 8; 9; 10; 11] 0) with sn.
    + unfold to_byte. rewrite Zplus_mod_idemp_l.
      replace (note - sn + sn) with note by lia. apply Z.mod_small. lia.
    + assert (sn = 0 \/ sn = 1 \/ sn = 2 \/ sn = 3 \/ sn = 4 \/ sn = 5 \/ sn = 6
              \/ sn = 7 \/ sn = 8 \/ sn = 9 \/ sn = 10 \/ sn = 11) as Hc by lia.
      repeat (destruct Hc as [->|Hc]; [reflexivity|]). rewrite Hc. reflexivity.
Qed.

Lemma chromatic_scale_rounds_witness :
  Quantize.quantizeNearest 0xFFF0 100 = Quantize.quantizeSemitones 100
  /\ Quantize.quantizeSkip 0xFFF0 100 = Quantize.quantizeSemitones 100
  /\ Quantize.quantizeEqual 0xFFF0 100 = Quantize.quantizeSemitones 100.
Proof. apply (chromatic_scale_rounds 100). vm_compute. congruence. Defined.

Lemma updateRotation_enabled (st : State) (k : Z) :
  scale_word (PersistentState.scale (state st)) ->
  0 <= PersistentState.rotatesemitones (state st) + rotatesemitonesCV st <= 255 ->
  0 <= k < 12 ->
  enabled (rotatedscale (updateRotation st)) k
  = enabled (PersistentState.scale (state st))
      ((k - (PersistentState.rotatesemitones (state st) + rotatesemitonesCV st))
       mod 12).
Proof.
  intros [HS HL] Hr Hk. rewrite updateRotation_rotatedscale.
  set (r := PersistentState.rotatesemitones (state st) + rotatesemitonesCV st) in *.
  rewrite mod12_correct by lia.
  pose proof (Z.mod_pos_bound r 12 ltac:(lia)) as HR.
  rewrite to_byte_small by lia.
  rewrite <- (Zminus_mod_idemp_r k r).
  destruct (Z.eq_dec (r mod 12) 0) as [E|E].
  - rewrite E, Z.sub_0_r, Z.mod_small by lia. reflexivity.
  - apply rotate_scale_enabled; auto; lia.
Qed.

(** X7. [updateRotation] turns the scale by the sum of the two rotation
    amounts: note [k] of the rotated scale is enabled exactly when note
    [k - (rotatesemitones + rotatesemitonesCV)], taken modulo 12, of the
    scale is. *)
Theorem updateRotation_turns_notes (st : State) (k : Z) :
  scale_word (PersistentState.scale (state st)) ->
  0 <= PersistentState.rotatesemitones (state st) + rotatesemitonesCV st <= 255 ->
  0 <= k < 12 ->
  enabled (rotatedscale (updateRotation st)) k
  = enabled (PersistentState.scale (state st))
      ((k - (PersistentState.rotatesemitones (state st) + rotatesemitonesCV st))
       mod 12).
Proof. exact (updateRotation_enabled st k). Qed.

Lemma updateRotation_turns_notes_witness :
  enabled (rotatedscale (updateRotation cv_menu_state)) 4
  = enabled (PersistentState.scale (state cv_menu_state))
      ((4 - (PersistentState.rotatesemitones (state cv_menu_state)
             + rotatesemitonesCV cv_menu_state)) mod 12).
Proof.
  apply (updateRotation_turns_notes cv_menu_state 4);
    [split; [vm_compute; split; congruence | reflexivity]
    | vm_compute; split; congruence | lia].
Defined.

(** *** What [processChannel] leaves alone *)

Lemma channel_only_refl (st : State) : channel_only st st.
Proof. unfold channel_only. repeat split. Qed.

Lemma channel_only_trans (a b c : State) :
  channel_only a b -> channel_only b c -> channel_only a c.
Proof.
  unfold channel_only.
  intros (A1 & A2 & A3 & A4 & A5 & A6 & A7 & A8 & A9 & A10 & A11 & A12 & A13
          & A14 & A15)
         (B1 & B2 & B3 & B4 & B5 & B6 & B7 & B8 & B9 & B10 & B11 & B12 & B13
          & B14 & B15).
  repeat split; congruence.
Qed.

Lemma choose_candidate_only (i : chan) (newadcval : Z) (st : State) :
  channel_only st (snd (choose_candidate i newadcval st)).
Proof.
  unfold choose_candidate, channel_only.
  destruct (mode st) eqn:Em; split_ifs; repeat split; exact Em.
Qed.

Lemma accept_only (i : chan) (candidate : Z) (st : State) :
  channel_only st (fst (accept i candidate st)).
Proof.
  unfold accept, channel_only.
  destruct (negb (PersistentState.gatelegato (state _))); repeat split.
Qed.

Lemma gate_step_only (i : chan) (st : State) :
  channel_only st (fst (gate_step i st)).
Proof.
  unfold gate_step, channel_only.
  destruct (get i (Channel.gatecounter (statics st)) =? 0);
    [destruct (negb _)|]; cbn -[Z.add];
    split_ifs; repeat split.
Qed.

Lemma trigger_step_only (i : chan) (din edge : bool) (st : State) :
  channel_only st (trigger_step i din edge st).
Proof.
  unfold trigger_step, channel_only. split_ifs; repeat split.
Qed.

Lemma processChannel_frame (i : chan) (newadcval : Z) (din edge : bool)
  (st : State) :
  channel_only st (fst (processChannel i newadcval din edge st)).
Proof.
  unfold processChannel.
  pose proof (choose_candidate_only i newadcval st) as H1.
  destruct (choose_candidate i newadcval st) as [[candidate trig] st1].
  simpl in H1.
  assert (H2 : channel_only st1
                 (fst (if trig then accept i candidate st1 else (st1, [])))).
  { destruct trig; [apply accept_only|apply channel_only_refl]. }
  destruct (if trig then accept i candidate st1 else (st1, [])) as [st2 ev].
  simpl in H2.
  pose proof (gate_step_only i st2) as H3.
  destruct (gate_step i st2) as [st3 ev3]. simpl in H3 |- *.
  pose proof (trigger_step_only i din edge st3) as H4.
  eauto using channel_only_trans.
Qed.

Lemma rotation_current_frame (st st' : State) :
  state st' = state st -> rotatedscale st' = rotatedscale st ->
  rotatesemitonesCV st' = rotatesemitonesCV st ->
  rotation_current st -> rotation_current st'.
Proof.
  unfold rotation_current. rewrite !updateRotation_rotatedscale.
  intros -> -> ->. auto.
Qed.

Lemma step_rotation_current (e : Event) (st st' : State) (io : list IOEvent) :
  step e st = Some (st', io) -> rotation_current st -> rotation_current st'.
Proof.
  destruct e as [i a din edge | i a | key shift]; simpl; intros H Hc.
  - inversion H as [E].
    pose proof (processChannel_frame i a din edge st) as Hf.
    rewrite E in Hf. simpl in Hf.
    destruct Hf as (Hs & Hr & _ & _ & _ & Hcv & _).
    exact (rotation_current_frame st st' Hs Hr Hcv Hc).
  - inversion H; subst. clear H. revert Hc.
    unfold rotation_current, processCV, loadScale. rewrite !updateRotation_rotatedscale.
    split_ifs; intros Hc; try exact Hc; reflexivity.
  - destruct (keyDownEvent key shift st) as [s|] eqn:E; [|discriminate].
    inversion H; subst. clear H. revert E Hc.
    unfold rotation_current. rewrite !updateRotation_rotatedscale.
    unfold keyDownEvent, keyDown_normal, keyDown_keyboard, semitone_menu, cv_menu,
      saveScale_current, saveScale, loadScale.
    intros E Hc.
    destruct (mode st);
      repeat match type of E with
             | context [if ?b then _ else _] => destruct b
             end;
      inversion E; subst; try exact Hc; reflexivity.
Qed.

(** X8. Complete calls keep the rotated scale up to date.  In an
    execution of complete calls of [processChannel], [processCV] and
    [keyDownEvent] whose events satisfy [event_defined], from a state
    with the settings in range and the rotated scale up to date, the
    state after every call has the rotated scale that [updateRotation]
    would compute from the scale and the two rotation amounts of that
    state.  States inside a call are not covered: [keyDownEvent] runs
    with interrupts enabled and writes [state.rotatesemitones] before it
    calls [updateRotation]. *)
Theorem rotated_scale_stays_current (es : list Event) (st : State) :
  settings_in_range st -> rotation_current st -> events_defined es st ->
  Forall (fun x => rotation_current (fst x)) (run es st).
Proof.
  intros _ Hc _. revert st Hc.
  induction es as [|e es IH]; intros st Hc; simpl.
  - constructor.
  - destruct (step e st) as [[st' io]|] eqn:E; [|constructor].
    pose proof (step_rotation_current e st st' io E Hc) as Hc'.
    constructor; [exact Hc'|apply IH; exact Hc'].
Qed.

Lemma rotated_scale_stays_current_witness :
  Forall (fun x => rotation_current (fst x)) (run mixed_events started_state).
Proof. apply rotated_scale_stays_current; by_evaluation. Defined.

(** ** The EEPROM *)

Lemma word_bytes (v : Z) :
  0 <= v < 65536 -> Z.lor (Z.land v 255) (Z.shiftl (Z.shiftr v 8) 8) = v.
Proof.
  intros H. change 255 with (Z.ones 8).
  apply Z.bits_inj'. intros n Hn.
  rewrite Z.lor_spec, Z.land_spec, Z.shiftl_spec by lia.
  destruct (Z.lt_ge_cases n 8) as [Hlt|Hge].
  - rewrite Z.ones_spec_low by lia.
    rewrite (Z.testbit_neg_r _ (n - 8)) by lia.
    rewrite andb_true_r, orb_false_r. reflexivity.
  - rewrite Z.ones_spec_high by lia.
    rewrite Z.shiftr_spec by lia.
    rewrite andb_false_r. simpl. f_equal. lia.
Qed.

Lemma eeprom_get_put_same (addr v : Z) (e : gmap Z Z) :
  0 <= v < 65536 -> eeprom_get_uint addr (eeprom_put_uint addr v e) = v.
Proof.
  intros H. unfold eeprom_get_uint, eeprom_put_uint, eeprom_read, to_uint.
  rewrite (Z.mod_small v) by lia.
  rewrite lookup_insert_eq.
  rewrite lookup_insert_ne by lia. rewrite lookup_insert_eq. simpl.
  apply word_bytes. exact H.
Qed.

Lemma eeprom_read_put_other (addr a v : Z) (e : gmap Z Z) :
  a <> addr -> a <> addr + 1 ->
  eeprom_read (eeprom_put_uint addr v e) a = eeprom_read e a.
Proof.
  intros H1 H2. unfold eeprom_put_uint, eeprom_read.
  rewrite !lookup_insert_ne by lia. reflexivity.
Qed.

Lemma eeprom_get_put_other (addr a v : Z) (e : gmap Z Z) :
  a + 1 < addr \/ addr + 1 < a ->
  eeprom_get_uint a (eeprom_put_uint addr v e) = eeprom_get_uint a e.
Proof.
  intros H. unfold eeprom_get_uint.
  rewrite !eeprom_read_put_other by lia. reflexivity.
Qed.

(** X9. A scale saved in a bank is the scale loaded from it: [saveScale]
    with a bank index below 12 returns when the EEPROM is not busy, leaves
    the other banks and the variables as they were, and a [loadScale] of
    the same bank then sets the scale to the saved word and the base
    rotation to 0. *)
Theorem saved_scale_is_loaded (k v : Z) (st : State) :
  0 <= k < 12 -> 0 <= v < 65536 -> eebusy st = false ->
  exists st',
    saveScale k v st = Some st'
    /\ bank k st' = v
    /\ (forall k', 0 <= k' < 12 -> k' <> k -> bank k' st' = bank k' st)
    /\ state st' = state st
    /\ PersistentState.scale (state (loadScale k st')) = v
    /\ PersistentState.rotatesemitones (state (loadScale k st')) = 0.
Proof.
  intros Hk Hv Hb. unfold saveScale.
  replace (k <? 12) with true by (symmetry; apply Z.ltb_lt; lia).
  rewrite Hb. eexists. split; [reflexivity|].
  assert (Hbank : forall a,
             eeprom_get_uint a
               (eeprom_put_uint (EE_ADDR_SAVEDSCALES + k * EE_SIZE_SAVEDSCALES)
                                v (EEPROM st))
             = if a =? EE_ADDR_SAVEDSCALES + k * EE_SIZE_SAVEDSCALES then v
               else if (a + 1 <? EE_ADDR_SAVEDSCALES + k * EE_SIZE_SAVEDSCALES)
                       || (EE_ADDR_SAVEDSCALES + k * EE_SIZE_SAVEDSCALES + 1 <? a)
                    then eeprom_get_uint a (EEPROM st)
                    else eeprom_get_uint a
                           (eeprom_put_uint
                              (EE_ADDR_SAVEDSCALES + k * EE_SIZE_SAVEDSCALES)
                              v (EEPROM st))).
  { intros a. destruct (Z.eqb_spec a (EE_ADDR_SAVEDSCALES + k * EE_SIZE_SAVEDSCALES))
      as [->|Hne]; [apply eeprom_get_put_same; exact Hv|].
    destruct (_ || _) eqn:E; [|reflexivity].
    apply eeprom_get_put_other.
    apply orb_true_iff in E as [E|E]; apply Z.ltb_lt in E; lia. }
  split; [|split; [|split; [|split]]].
  - unfold bank. simpl. rewrite Hbank, Z.eqb_refl. reflexivity.
  - intros k' Hk' Hne. unfold bank. simpl. rewrite Hbank.
    unfold EE_ADDR_SAVEDSCALES, EE_SIZE_SAVEDSCALES.
    replace (256 + k' * 16 =? 256 + k * 16) with false
      by (symmetry; apply Z.eqb_neq; lia).
    replace ((256 + k' * 16 + 1 <? 256 + k * 16)
             || (256 + k * 16 + 1 <? 256 + k' * 16)) with true; [reflexivity|].
    symmetry. apply orb_true_iff.
    destruct (Z.lt_ge_cases k' k); [left|right]; apply Z.ltb_lt; lia.
  - reflexivity.
  - unfold loadScale.
    replace (k <? 12) with true by (symmetry; apply Z.ltb_lt; lia).
    simpl. rewrite Hbank, Z.eqb_refl. reflexivity.
  - unfold loadScale.
    replace (k <? 12) with true by (symmetry; apply Z.ltb_lt; lia).
    reflexivity.
Qed.

Lemma saved_scale_is_loaded_witness :
  exists st',
    saveScale 3 0xAD50 started_state = Some st'
    /\ bank 3 st' = 0xAD50
    /\ (forall k', 0 <= k' < 12 -> k' <> 3 -> bank k' st' = bank k' started_state)
    /\ state st' = state started_state
    /\ PersistentState.scale (state (loadScale 3 st')) = 0xAD50
    /\ PersistentState.rotatesemitones (state (loadScale 3 st')) = 0.
Proof. apply (saved_scale_is_loaded 3 0xAD50 started_state); by_evaluation. Defined.

Lemma word_of_bits (x : Z) :
  0 <= x -> (forall m, 16 <= m -> Z.testbit x m = false) -> x < 65536.
Proof.
  intros Hx H.
  assert (E : x mod 2 ^ 16 = x).
  { apply Z.bits_inj'. intros m Hm. rewrite Z.testbit_mod_pow2 by lia.
    destruct (Z.ltb_spec m 16); [reflexivity|]. simpl. symmetry. apply H. lia. }
  rewrite <- E. change 65536 with (2 ^ 16). apply Z.mod_pos_bound. lia.
Qed.

Lemma key_bit (index m : Z) :
  0 <= index -> 0 <= m ->
  Z.testbit (Z.shiftr 0x8000 index) m = (m + index =? 15).
Proof.
  intros Hi Hm. rewrite Z.shiftr_spec by lia.
  change 32768 with (2 ^ 15). rewrite Z.pow2_bits_eqb by lia.
  apply Z.eqb_sym.
Qed.

Lemma memory_status_loop_bits (e : gmap Z Z) (n : nat) (index acc m : Z) :
  0 <= index -> 0 <= m ->
  (forall m', 16 <= m' -> Z.testbit acc m' = false) ->
  Z.testbit (memory_status_loop n index acc e) m
  = Z.testbit acc m
    || ((index <=? 15 - m) && (15 - m <? index + Z.of_nat n)
        && negb (eeprom_get_uint
                   (EE_ADDR_SAVEDSCALES + (15 - m) * EE_SIZE_SAVEDSCALES) e
                 =? 0)).
Proof.
  revert index acc. induction n as [|n IH]; intros index acc Hi Hm Hacc.
  - simpl. rewrite Z.add_0_r.
    replace ((index <=? 15 - m) && (15 - m <? index)) with false
      by (destruct (Z.leb_spec index (15 - m)), (Z.ltb_spec (15 - m) index);
          try reflexivity; lia).
    rewrite orb_false_r. reflexivity.
  - cbn [memory_status_loop].
    set (next := if negb _ then _ else acc).
    assert (Hnext : forall m', 0 <= m' ->
              Z.testbit next m'
              = Z.testbit acc m'
                || ((m' + index =? 15)
                    && negb (eeprom_get_uint
                               (EE_ADDR_SAVEDSCALES + index * EE_SIZE_SAVEDSCALES) e
                             =? 0))).
    { intros m' Hm'. unfold next.
      destruct (negb (eeprom_get_uint
                        (EE_ADDR_SAVEDSCALES + index * EE_SIZE_SAVEDSCALES) e =? 0)).
      - unfold to_uint. change 65536 with (2 ^ 16).
        rewrite Z.testbit_mod_pow2, Z.lor_spec, key_bit by lia.
        rewrite andb_true_r.
        destruct (Z.ltb_spec m' 16); [reflexivity|].
        rewrite Hacc by lia.
        replace (m' + index =? 15) with false by (symmetry; apply Z.eqb_neq; lia).
        reflexivity.
      - rewrite andb_false_r, orb_false_r. reflexivity. }
    rewrite IH; [|lia|lia|].
    + rewrite Hnext by lia.
      replace (15 - m <? index + Z.of_nat (S n))
        with (15 - m <? index + 1 + Z.of_nat n) by (f_equal; lia).
      destruct (Z.eqb_spec (m + index) 15) as [E|E].
      * replace (15 - m) with index by lia.
        replace (index + 1 <=? index) with false by (symmetry; apply Z.leb_gt; lia).
        replace (index <=? index) with true by (symmetry; apply Z.leb_le; lia).
        replace (index <? index + 1 + Z.of_nat n) with true
          by (symmetry; apply Z.ltb_lt; lia).
        simpl. rewrite orb_false_r. reflexivity.
      * replace (index + 1 <=? 15 - m) with (index <=? 15 - m)
          by (destruct (Z.leb_spec index (15 - m)),
                       (Z.leb_spec (index + 1) (15 - m)); try reflexivity; lia).
        simpl. rewrite orb_false_r. reflexivity.
    + intros m' Hm'. rewrite Hnext by lia. rewrite Hacc by lia.
      replace (m' + index =? 15) with false by (symmetry; apply Z.eqb_neq; lia).
      reflexivity.
Qed.

Lemma memory_status_loop_nonneg (e : gmap Z Z) (n : nat) (index acc : Z) :
  0 <= acc -> 0 <= memory_status_loop n index acc e.
Proof.
  revert index acc. induction n as [|n IH]; intros index acc H; simpl; [exact H|].
  apply IH. destruct (negb _); [|exact H].
  unfold to_uint. apply Z.mod_pos_bound. lia.
Qed.

Lemma memory_status_bits (st : State) (m : Z) :
  0 <= m ->
  Z.testbit (getScaleMemoryStatus st) m
  = (m <? 16) && (4 <=? m) && negb (bank (15 - m) st =? 0).
Proof.
  intros Hm. unfold getScaleMemoryStatus.
  rewrite memory_status_loop_bits by (try lia; intros; apply Z.bits_0).
  rewrite Z.bits_0. unfold bank. change (Z.of_nat 12) with 12. simpl.
  replace (0 <=? 15 - m) with (m <? 16)
    by (destruct (Z.ltb_spec m 16), (Z.leb_spec 0 (15 - m)); try reflexivity; lia).
  replace (15 - m <? 0 + 12) with (4 <=? m)
    by (destruct (Z.ltb_spec (15 - m) (0 + 12)), (Z.leb_spec 4 m);
        try reflexivity; lia).
  reflexivity.
Qed.

(** X10. [getScaleMemoryStatus] lights exactly the banks that hold
    something: bit [15 - k] of the result is set when bank [k], for [k]
    from 0 to 11, holds a word other than 0, and no other bit is set. *)
Theorem memory_status_marks_used_banks (st : State) :
  scale_word (getScaleMemoryStatus st)
  /\ forall k, 0 <= k < 12 ->
       enabled (getScaleMemoryStatus st) k = negb (bank k st =? 0).
Proof.
  pose proof (memory_status_loop_nonneg (EEPROM st) 12 0 0 ltac:(lia)) as Hnn.
  fold (getScaleMemoryStatus st) in Hnn.
  split; [split|].
  - split; [exact Hnn|]. apply word_of_bits; [exact Hnn|].
    intros m Hm. rewrite memory_status_bits by lia.
    replace (m <? 16) with false by (symmetry; apply Z.ltb_ge; lia). reflexivity.
  - apply Z.bits_inj'. intros m Hm.
    rewrite Z.land_spec, Z.bits_0, memory_status_bits by lia.
    change 15 with (Z.ones 4).
    destruct (Z.lt_ge_cases m 4).
    + replace (4 <=? m) with false by (symmetry; apply Z.leb_gt; lia).
      rewrite andb_false_r. reflexivity.
    + rewrite Z.ones_spec_high by lia. apply andb_false_r.
  - intros k Hk. unfold enabled. rewrite memory_status_bits by lia.
    replace (15 - k <? 16) with true by (symmetry; apply Z.ltb_lt; lia).
    replace (4 <=? 15 - k) with true by (symmetry; apply Z.leb_le; lia).
    replace (15 - (15 - k)) with k by lia. reflexivity.
Qed.

(** *** The stored state *)

Lemma eeprom_put_bytes_read (bytes : list Z) (addr x : Z) (e : gmap Z Z) :
  eeprom_read (eeprom_put_bytes addr bytes e) x
  = if (addr <=? x) && (x <? addr + Z.of_nat (length bytes))
    then nth (Z.to_nat (x - addr)) bytes 0
    else eeprom_read e x.
Proof.
  revert addr e. induction bytes as [|b bytes IH]; intros addr e.
  - simpl. rewrite Z.add_0_r.
    destruct (Z.leb_spec addr x), (Z.ltb_spec x addr); try reflexivity; lia.
  - cbn [eeprom_put_bytes length]. rewrite IH.
    destruct (Z.eq_dec x addr) as [->|Hne].
    + replace ((addr + 1 <=? addr) && _) with false
        by (symmetry; apply andb_false_iff; left; apply Z.leb_gt; lia).
      replace ((addr <=? addr) && (addr <? addr + Z.of_nat (S (length bytes))))
        with true
        by (symmetry; apply andb_true_iff; split;
            [apply Z.leb_le|apply Z.ltb_lt]; lia).
      rewrite Z.sub_diag. unfold eeprom_read. rewrite lookup_insert_eq.
      reflexivity.
    + replace (addr + 1 <=? x) with (addr <=? x)
        by (destruct (Z.leb_spec addr x), (Z.leb_spec (addr + 1) x);
            try reflexivity; lia).
      replace (x <? addr + 1 + Z.of_nat (length bytes))
        with (x <? addr + Z.of_nat (S (length bytes))) by (f_equal; lia).
      destruct ((addr <=? x) && (x <? addr + Z.of_nat (S (length bytes)))) eqn:E.
      * apply andb_true_iff in E as [E1 E2]. apply Z.leb_le in E1.
        replace (Z.to_nat (x - addr)) with (S (Z.to_nat (x - (addr + 1)))) by lia.
        reflexivity.
      * unfold eeprom_read. rewrite lookup_insert_ne by lia. reflexivity.
Qed.

Lemma to_schar_to_byte (v : Z) : -128 <= v <= 127 -> to_schar (to_byte v) = v.
Proof.
  intros H. unfold to_schar, to_byte.
  rewrite Zplus_mod_idemp_l. rewrite Z.mod_small; lia.
Qed.

Lemma state_round_trip (addr : Z) (p : PersistentState.t) (e : gmap Z Z) :
  persistable p -> eeprom_get_state addr (eeprom_put_state addr p e) = p.
Proof.
  intros (Hs & Hg & Hr & Ht & HtB & Ho & HoB & Hq & Htd & Hc1 & Hc2
          & r0 & r1 & r2 & Hres & H0 & H1 & H2).
  destruct p as [scale gli rot tr trB off offB leg qm td [c1 c2] res].
  simpl in *. subst res.
  unfold eeprom_get_state, eeprom_put_state.
  assert (Hread : forall k, 0 <= k < 16 ->
            eeprom_read
              (eeprom_put_bytes addr
                 (state_bytes
                    (PersistentState.mk scale gli rot tr trB off offB leg qm td
                                        (c1, c2) [r0; r1; r2])) e) (addr + k)
            = nth (Z.to_nat k)
                  (state_bytes
                     (PersistentState.mk scale gli rot tr trB off offB leg qm td
                                         (c1, c2) [r0; r1; r2])) 0).
  { intros k Hk. rewrite eeprom_put_bytes_read.
    replace ((addr <=? addr + k) && _) with true.
    - f_equal. lia.
    - symmetry. apply andb_true_iff. simpl.
      split; [apply Z.leb_le|apply Z.ltb_lt]; lia. }
  rewrite !Hread by lia. simpl.
  unfold to_uint. rewrite (Z.mod_small scale) by lia.
  rewrite word_bytes by lia.
  rewrite !to_schar_to_byte by lia.
  rewrite !to_byte_small by lia.
  destruct leg; reflexivity.
Qed.

Lemma eeprom_get_state_ext (addr : Z) (e e' : gmap Z Z) :
  (forall k, 0 <= k < 16 -> eeprom_read e (addr + k) = eeprom_read e' (addr + k)) ->
  eeprom_get_state addr e = eeprom_get_state addr e'.
Proof.
  intros H. unfold eeprom_get_state. rewrite !H by lia. reflexivity.
Qed.

Lemma savePersistentState_eeprom (st : State) :
  eebusy st = false ->
  EEPROM (savePersistentState st)
  = eeprom_put_state EE_ADDR_STATE (state st) (EEPROM st).
Proof. intros H. unfold savePersistentState. rewrite H. reflexivity. Qed.

(** X11. The configuration survives a restart: once [savePersistentState]
    has run, [loadPersistentState] on that EEPROM, whatever the variables
    hold, returns with the saved state in [state], the rotated scale
    computed from it and the gate length computed from it. *)
Theorem saved_state_survives_restart (st ram : State) :
  eebusy st = false ->
  persistable (state st) ->
  eeprom_read (EEPROM st) EE_ADDR_ID = 1 ->
  exists st',
    loadPersistentState (set_EEPROM (EEPROM (savePersistentState st)) ram)
    = Some st'
    /\ state st' = state st
    /\ rotatedscale st'
       = rotate_scale
           (to_byte (mod12 (PersistentState.rotatesemitones (state st)
                            + rotatesemitonesCV ram)))
           (PersistentState.scale (state st))
    /\ gatelength st'
       = gatelength_of (PersistentState.gatelengthindex (state st))
                       (cvgatelengthindex ram) (cvgatelengthremainder ram).
Proof.
  intros Hb Hp Hid. unfold loadPersistentState.
  rewrite savePersistentState_eeprom by exact Hb. cbn [EEPROM set_EEPROM].
  unfold eeprom_put_state at 1. rewrite eeprom_put_bytes_read.
  change ((EE_ADDR_STATE <=? EE_ADDR_ID) && _) with false. cbv iota.
  rewrite Hid. simpl andb. cbv iota.
  rewrite state_round_trip by exact Hp.
  eexists. split; [reflexivity|]. repeat split.
Qed.

Lemma saved_state_survives_restart_witness :
  exists st',
    loadPersistentState
      (set_EEPROM (EEPROM (savePersistentState first_start)) initial_state)
    = Some st'
    /\ state st' = state first_start
    /\ rotatedscale st'
       = rotate_scale
           (to_byte (mod12 (PersistentState.rotatesemitones (state first_start)
                            + rotatesemitonesCV initial_state)))
           (PersistentState.scale (state first_start))
    /\ gatelength st'
       = gatelength_of (PersistentState.gatelengthindex (state first_start))
                       (cvgatelengthindex initial_state)
                       (cvgatelengthremainder initial_state).
Proof.
  apply (saved_state_survives_restart first_start initial_state); by_evaluation.
Defined.

Lemma saveScale_not_busy (index tscale : Z) (st : State) :
  index < 12 -> eebusy st = false ->
  saveScale index tscale st
  = Some (set_EEPROM
            (eeprom_put_uint (EE_ADDR_SAVEDSCALES + index * EE_SIZE_SAVEDSCALES)
                             tscale (EEPROM st)) st).
Proof.
  intros Hi Hb. unfold saveScale.
  replace (index <? 12) with true by (symmetry; apply Z.ltb_lt; lia).
  rewrite Hb. unfold set_eebusy, set_EEPROM. simpl. rewrite Hb. reflexivity.
Qed.

Lemma clear_banks_spec (n : nat) (i : Z) (st : State) :
  eebusy st = false -> 0 <= i -> i + Z.of_nat n <= 12 ->
  exists e',
    clear_banks n i st = Some (set_EEPROM e' st)
    /\ (forall x, x < EE_ADDR_SAVEDSCALES + i * EE_SIZE_SAVEDSCALES ->
                  eeprom_read e' x = eeprom_read (EEPROM st) x)
    /\ (forall k, i <= k < i + Z.of_nat n ->
                  eeprom_get_uint (EE_ADDR_SAVEDSCALES + k * EE_SIZE_SAVEDSCALES) e'
                  = 0).
Proof.
  revert i st. induction n as [|n IH]; intros i st Hb Hi Hn.
  - exists (EEPROM st). split; [|split].
    + simpl. destruct st; reflexivity.
    + reflexivity.
    + intros k Hk. lia.
  - cbn [clear_banks]. rewrite saveScale_not_busy by (auto; lia).
    set (e1 := eeprom_put_uint _ 0 (EEPROM st)).
    destruct (IH (i + 1) (set_EEPROM e1 st) Hb ltac:(lia) ltac:(lia))
      as (e' & Hc & Hlow & Hzero).
    exists e'. split; [exact Hc|]. unfold EE_ADDR_SAVEDSCALES, EE_SIZE_SAVEDSCALES in *.
    cbn [EEPROM set_EEPROM] in Hlow. split.
    + intros x Hx. rewrite Hlow by lia. unfold e1.
      apply eeprom_read_put_other; lia.
    + intros k Hk. destruct (Z.eq_dec k i) as [->|Hne].
      * unfold eeprom_get_uint. rewrite !Hlow by lia.
        fold (eeprom_get_uint (256 + i * 16) e1). unfold e1.
        apply eeprom_get_put_same. lia.
      * apply Hzero. lia.
Qed.

(** X12. An EEPROM without the version mark gets the defaults: when the
    identifier byte is not 1, [loadPersistentState] returns, keeps the
    state the variables hold, stores it, empties the twelve banks and
    sets the identifier, so that the bank display shows nothing. *)
Theorem unmarked_memory_gets_defaults (st : State) :
  eebusy st = false ->
  persistable (state st) ->
  eeprom_read (EEPROM st) EE_ADDR_ID <> 1 ->
  exists st',
    loadPersistentState st = Some st'
    /\ state st' = state st
    /\ eeprom_read (EEPROM st') EE_ADDR_ID = 1
    /\ eeprom_get_state EE_ADDR_STATE (EEPROM st') = state st
    /\ (forall k, 0 <= k < 12 -> bank k st' = 0)
    /\ getScaleMemoryStatus st' = 0.
Proof.
  intros Hb Hp Hid. unfold loadPersistentState, initializePersistentState.
  replace (eeprom_read (EEPROM st) EE_ADDR_ID =? 1) with false
    by (symmetry; apply Z.eqb_neq; exact Hid).
  cbn [andb].
  set (e1 := eeprom_put_state EE_ADDR_STATE (state st) (EEPROM st)).
  destruct (clear_banks_spec 12 0 (set_EEPROM e1 st) Hb ltac:(lia) ltac:(simpl; lia))
    as (e2 & -> & Hlow & Hzero).
  cbn [EEPROM set_EEPROM] in Hlow.
  eexists. split; [reflexivity|].
  assert (Hbanks : forall k, 0 <= k < 12 ->
            eeprom_get_uint (EE_ADDR_SAVEDSCALES + k * EE_SIZE_SAVEDSCALES)
                            (<[EE_ADDR_ID := 1]> e2) = 0).
  { intros k Hk. rewrite <- (Hzero k) by (simpl; lia).
    unfold eeprom_get_uint, eeprom_read, EE_ADDR_SAVEDSCALES, EE_SIZE_SAVEDSCALES,
      EE_ADDR_ID.
    rewrite !lookup_insert_ne by lia. reflexivity. }
  split; [reflexivity|]. split; [|split; [|split]].
  - cbn. unfold eeprom_read. rewrite lookup_insert_eq. reflexivity.
  - cbn [EEPROM set_EEPROM updateGatelength updateRotation set_gatelength
         set_rotatedscale].
    transitivity (eeprom_get_state EE_ADDR_STATE e1);
      [|apply state_round_trip; exact Hp].
    apply eeprom_get_state_ext. intros k Hk.
    unfold eeprom_read at 1. unfold EE_ADDR_STATE, EE_ADDR_ID.
    rewrite lookup_insert_ne by lia.
    apply (Hlow (16 + k)). unfold EE_ADDR_SAVEDSCALES, EE_SIZE_SAVEDSCALES. lia.
  - intros k Hk. unfold bank. cbn. apply Hbanks. exact Hk.
  - apply Z.bits_inj'. intros m Hm. rewrite memory_status_bits, Z.bits_0 by lia.
    destruct (Z.ltb_spec m 16); [|reflexivity].
    destruct (Z.leb_spec 4 m); [|reflexivity].
    unfold bank. cbn. rewrite Hbanks by lia. reflexivity.
Qed.

Lemma unmarked_memory_gets_defaults_witness :
  exists st',
    loadPersistentState initial_state = Some st'
    /\ state st' = state initial_state
    /\ eeprom_read (EEPROM st') EE_ADDR_ID = 1
    /\ eeprom_get_state EE_ADDR_STATE (EEPROM st') = state initial_state
    /\ (forall k, 0 <= k < 12 -> bank k st' = 0)
    /\ getScaleMemoryStatus st' = 0.
Proof. apply (unmarked_memory_gets_defaults initial_state); by_evaluation. Defined.

(** ** The settings stay in range *)

Ltac bool_to_prop :=
  repeat match goal with
         | H : (_ <? _) = true |- _ => apply Z.ltb_lt in H
         | H : (_ <? _) = false |- _ => apply Z.ltb_ge in H
         | H : (_ <=? _) = true |- _ => apply Z.leb_le in H
         | H : (_ <=? _) = false |- _ => apply Z.leb_gt in H
         | H : (_ =? _) = true |- _ => apply Z.eqb_eq in H
         | H : (_ =? _) = false |- _ => apply Z.eqb_neq in H
         | H : (_ && _) = true |- _ => apply andb_true_iff in H; destruct H
         | H : (_ && _) = false |- _ => apply andb_false_iff in H; destruct H
         | H : (_ || _) = true |- _ => apply orb_true_iff in H; destruct H
         | H : (_ || _) = false |- _ => apply orb_false_iff in H; destruct H
         | H : negb _ = true |- _ => apply negb_true_iff in H
         | H : negb _ = false |- _ => apply negb_false_iff in H
         end.

Ltac wrap_lia :=
  unfold semitone_range, cvmode_valid, to_schar, to_byte, cdiv,
    MAX_CV_MODE, MAX_Q_MODE, cvload, cvoff,
    KEY_GATELENGTH, KEY_ROTATE, KEY_TRANSPOSE, KEY_TRANSPOSE_ONE, KEY_OFFSET,
    KEY_OFFSET_ONE, KEY_KEYBOARD, KEY_LEGATO, KEY_QM, KEY_TRIGGERDELAY,
    KEY_CVA, KEY_CVB, KEY_LOAD, KEY_SAVE, KEY_UP, KEY_DOWN, KEY_HOME in *;
  Z.to_euclidean_division_equations; lia.

Lemma settings_frame (st st' : State) :
  state st' = state st ->
  rotatesemitonesCV st' = rotatesemitonesCV st ->
  keyboardoctaves st' = keyboardoctaves st ->
  keyboardsemitones st' = keyboardsemitones st ->
  settings_in_range st -> settings_in_range st'.
Proof.
  unfold settings_in_range. intros -> -> -> ->. auto.
Qed.

Lemma keyDownEvent_settings (key : Z) (shift : bool) (st st' : State) :
  keyDownEvent key shift st = Some st' ->
  0 <= key <= 15 ->
  settings_in_range st -> settings_in_range st'.
Proof.
  unfold settings_in_range.
  intros E Hk (H1 & H2 & H3 & H4 & H5 & H6 & H7 & H8 & H9 & H10 & H11 & H12 & H13).
  unfold keyDownEvent, keyDown_normal, keyDown_keyboard, semitone_menu, cv_menu,
    saveScale_current, saveScale, loadScale, resetCVState, touch_autosave in E.
  destruct (mode st);
    repeat match type of E with
           | context [if ?b then _ else _] => destruct b eqn:?
           end;
    inversion E; subst; clear E;
    cbn -[to_schar to_byte cdiv mod12 rotate_scale gatelength_of Z.lxor Z.shiftr
          to_uint eeprom_put_uint eeprom_get_uint] in *;
    bool_to_prop;
    repeat split; try assumption; try wrap_lia.
Qed.

Lemma add_hysteresis_near (newadcval oldval : Z) :
  0 <= newadcval <= 1023 ->
  newadcval - 1 <= add_hysteresis true newadcval oldval <= newadcval.
Proof.
  intros H. unfold add_hysteresis, hysteresis.
  split_ifs; rewrite ?to_int_small by lia; lia.
Qed.

(** The value [processCV] stores in [CVquantized] for a sample of 29 or
    more. *)
Lemma cv_candidate_range (newadcval oldval : Z) :
  29 <= newadcval <= 1023 ->
  3 <= to_byte (Quantize.quantizeSemitones (add_hysteresis true newadcval oldval) - 1)
    <= 127.
Proof.
  intros H.
  pose proof (add_hysteresis_near newadcval oldval ltac:(lia)) as Hh.
  pose proof (quantizeSemitones_bounds (add_hysteresis true newadcval oldval)
                ltac:(lia)) as [Hq Hr].
  rewrite to_byte_small by lia. lia.
Qed.

Lemma cv_index_range (newadcval oldval : Z) :
  29 <= newadcval <= 1023 ->
  0 <= to_byte (mod12 (to_byte (Quantize.quantizeSemitones
                                  (add_hysteresis true newadcval oldval) - 1) - 3))
    <= 11.
Proof.
  intros H. pose proof (cv_candidate_range newadcval oldval H) as Hc.
  rewrite mod12_correct by lia.
  pose proof (Z.mod_pos_bound
                (to_byte (Quantize.quantizeSemitones
                            (add_hysteresis true newadcval oldval) - 1) - 3)
                12 ltac:(lia)).
  rewrite to_byte_small by lia. lia.
Qed.

Lemma processCV_settings (i : chan) (newadcval : Z) (st : State) :
  event_defined (CVSample i newadcval) st ->
  settings_in_range st -> settings_in_range (processCV i newadcval st).
Proof.
  unfold event_defined. intros [Ha Hm] Hs.
  unfold processCV.
  destruct (get i (PersistentState.cvmode (state st)) =? cvgatelength) eqn:Eg.
  { revert Hs. apply settings_frame; reflexivity. }
  cbn zeta.
  set (q := to_byte (Quantize.quantizeSemitones
                       (add_hysteresis true newadcval
                          (Z.shiftl (get i (CVquantized st)) 3)) - 1)).
  destruct (negb (q =? get i (CVquantized st)));
    [|revert Hs; apply settings_frame; reflexivity].
  cbn [state set_CVquantized CVquantized].
  assert (Hq : get i (put i q (CVquantized st)) = q) by (destruct i; reflexivity).
  rewrite Hq.
  destruct (get i (PersistentState.cvmode (state st)) =? cvrotate) eqn:Er.
  { apply Z.eqb_eq in Er.
    pose proof (cv_index_range newadcval (Z.shiftl (get i (CVquantized st)) 3)
                  ltac:(split; [apply Hm; left; exact Er|lia])) as Hi.
    fold q in Hi. revert Hs. unfold settings_in_range.
    cbn -[to_byte mod12 rotate_scale].
    intros (H1 & H2 & H3 & H4 & H5 & H6 & H7 & H8 & H9 & H10 & H11 & H12 & H13).
    unfold semitone_range in *. repeat split; try assumption; try lia. }
  destruct (_ =? cvtranspose); [revert Hs; apply settings_frame; reflexivity|].
  destruct (_ =? cvtransposechannel); [revert Hs; apply settings_frame; reflexivity|].
  destruct (_ =? cvoffset); [revert Hs; apply settings_frame; reflexivity|].
  destruct (_ =? cvoffsetchannel); [revert Hs; apply settings_frame; reflexivity|].
  destruct (get i (PersistentState.cvmode (state st)) =? cvload) eqn:El;
    [|revert Hs; apply settings_frame; reflexivity].
  unfold loadScale. destruct (_ <? 12); [|revert Hs; apply settings_frame; reflexivity].
  revert Hs. unfold settings_in_range.
  cbn -[to_byte mod12 rotate_scale eeprom_get_uint].
  intros (H1 & H2 & H3 & H4 & H5 & H6 & H7 & H8 & H9 & H10 & H11 & H12 & H13).
  unfold semitone_range in *. repeat split; try assumption; try lia.
Qed.

Lemma step_settings (e : Event) (st st' : State) (io : list IOEvent) :
  step e st = Some (st', io) -> event_defined e st ->
  settings_in_range st -> settings_in_range st'.
Proof.
  destruct e as [i a din edge | i a | key shift]; simpl step; intros H Hok Hs.
  - inversion H as [E].
    pose proof (processChannel_frame i a din edge st) as Hf.
    rewrite E in Hf. simpl in Hf.
    destruct Hf as (F1 & F2 & F3 & F4 & F5 & F6 & _).
    revert Hs. apply settings_frame; assumption.
  - inversion H; subst. apply processCV_settings; assumption.
  - destruct (keyDownEvent key shift st) as [s|] eqn:E; [|discriminate].
    inversion H; subst.
    exact (keyDownEvent_settings key shift st st' E Hok Hs).
Qed.

(** X13. While the lookups of [processCV] stay inside the table, complete
    calls keep every setting in its range: from a state whose settings
    are in range, in an execution of complete calls whose events satisfy
    [event_defined] (no CV sample below 29 at an input in the rotate or
    load mode), the state after every call has the rotation amounts in
    0..11, the four transpose and offset amounts in -60..71, the
    gate-length and trigger-delay indices in 0..11, a quantization mode
    and two CV modes that exist, and the keyboard note in 0..11 of an
    octave in -5..5.  Nothing is stated for the CV samples left out,
    which the converter can deliver, nor for states inside a call. *)
Theorem settings_stay_in_range (es : list Event) (st : State) :
  settings_in_range st -> events_defined es st ->
  Forall (fun x => settings_in_range (fst x)) (run es st).
Proof.
  revert st. induction es as [|e es IH]; intros st Hs Hok; simpl.
  - constructor.
  - destruct Hok as [He Hrest].
    destruct (step e st) as [[st' io]|] eqn:E; [|constructor].
    pose proof (step_settings e st st' io E He Hs) as Hs'.
    constructor; [exact Hs'|apply IH; assumption].
Qed.

Lemma settings_stay_in_range_witness :
  Forall (fun x => settings_in_range (fst x)) (run mixed_events first_start).
Proof. apply settings_stay_in_range; by_evaluation. Defined.

(** ** The scales stay scale words *)

Lemma scale_word_rotate (r S : Z) : scale_word S -> scale_word (rotate_scale r S).
Proof.
  intros [HS HL]. split; [apply rotate_scale_range; exact HS|].
  apply rotate_scale_low_bits; exact HL.
Qed.

(** The note keys: [state.scale ^= (0x8000 >> unrotatedkey)]. *)
Lemma toggle_enabled (S u k : Z) :
  0 <= u <= 11 -> 0 <= k < 12 ->
  enabled (to_uint (Z.lxor S (Z.shiftr 0x8000 u))) k
  = xorb (enabled S k) (k =? u).
Proof.
  intros Hu Hk. unfold enabled, to_uint.
  change 65536 with (2 ^ 16). rewrite Z.mod_pow2_bits_low by lia.
  rewrite Z.lxor_spec, key_bit by lia.
  f_equal. destruct (Z.eqb_spec k u); [apply Z.eqb_eq|apply Z.eqb_neq]; lia.
Qed.

Lemma toggle_scale_word (S u : Z) :
  scale_word S -> 0 <= u <= 11 ->
  scale_word (to_uint (Z.lxor S (Z.shiftr 0x8000 u))).
Proof.
  intros [HS HL] Hu. unfold to_uint. split.
  - apply Z.mod_pos_bound. lia.
  - apply Z.bits_inj'. intros n Hn. rewrite Z.land_spec, Z.bits_0.
    destruct (Z.ltb_spec n 4) as [Hlt|Hge].
    + change 65536 with (2 ^ 16). rewrite Z.mod_pow2_bits_low by lia.
      rewrite Z.lxor_spec, key_bit by lia.
      rewrite (word_low_bits S n HL Hlt).
      replace (n + u =? 15) with false by (symmetry; apply Z.eqb_neq; lia).
      reflexivity.
    + change 15 with (Z.ones 4). rewrite Z.ones_spec_high by lia.
      apply andb_false_r.
Qed.

Lemma unrotatedkey_range (key r : Z) :
  0 <= key < 12 -> 0 <= r <= 22 ->
  to_byte (mod12 (key + 24 - to_byte r)) = (key - r) mod 12
  /\ 0 <= to_byte (mod12 (key + 24 - to_byte r)) <= 11.
Proof.
  intros Hk Hr. rewrite (to_byte_small r) by lia.
  rewrite mod12_correct by lia.
  pose proof (Z.mod_pos_bound (key + 24 - r) 12 ltac:(lia)) as Hm.
  rewrite to_byte_small by lia.
  split; [|lia].
  replace (key + 24 - r) with (key - r + 2 * 12) by lia.
  apply Z.mod_add. lia.
Qed.

Lemma put_bank_scale_word (key v : Z) (e : gmap Z Z) :
  0 <= key < 12 -> scale_word v ->
  (forall k, 0 <= k < 12 ->
     scale_word (eeprom_get_uint (EE_ADDR_SAVEDSCALES + k * EE_SIZE_SAVEDSCALES) e)) ->
  forall k, 0 <= k < 12 ->
    scale_word
      (eeprom_get_uint (EE_ADDR_SAVEDSCALES + k * EE_SIZE_SAVEDSCALES)
         (eeprom_put_uint (EE_ADDR_SAVEDSCALES + key * EE_SIZE_SAVEDSCALES) v e)).
Proof.
  intros Hkey Hv Hb k Hk. destruct (Z.eq_dec k key) as [->|Hne].
  - rewrite eeprom_get_put_same by apply Hv. exact Hv.
  - rewrite eeprom_get_put_other
      by (unfold EE_ADDR_SAVEDSCALES, EE_SIZE_SAVEDSCALES; lia).
    apply Hb. exact Hk.
Qed.

Lemma scales_frame (st st' : State) :
  state st' = state st -> rotatedscale st' = rotatedscale st ->
  EEPROM st' = EEPROM st ->
  scales_well_formed st -> scales_well_formed st'.
Proof.
  unfold scales_well_formed, bank. intros -> -> ->. auto.
Qed.

Ltac scales_tac Hb :=
  lazymatch goal with
  | |- scale_word (rotate_scale _ _) => apply scale_word_rotate; scales_tac Hb
  | |- scale_word (to_uint (Z.lxor _ _)) =>
      apply toggle_scale_word; [scales_tac Hb|apply unrotatedkey_range; lia]
  | |- scale_word (eeprom_get_uint _ _) => apply Hb; lia
  | |- forall k, _ -> scale_word (eeprom_get_uint _ (eeprom_put_uint _ _ _)) =>
      apply put_bank_scale_word; [lia|assumption|exact Hb]
  | |- forall k, _ -> scale_word (eeprom_get_uint _ _) => exact Hb
  | |- _ => assumption
  end.

Lemma keyDownEvent_scales (key : Z) (shift : bool) (st st' : State) :
  keyDownEvent key shift st = Some st' ->
  0 <= key <= 15 ->
  settings_in_range st ->
  scales_well_formed st -> scales_well_formed st'.
Proof.
  unfold scales_well_formed, bank.
  intros E Hk (H1 & H2 & _) (Hs & Hr & Hb).
  unfold keyDownEvent, keyDown_normal, keyDown_keyboard, semitone_menu, cv_menu,
    saveScale_current, saveScale, loadScale, resetCVState, touch_autosave in E.
  destruct (mode st);
    repeat match type of E with
           | context [if ?b then _ else _] => destruct b eqn:?
           end;
    inversion E; subst; clear E;
    cbn -[to_schar to_byte cdiv mod12 rotate_scale gatelength_of Z.lxor Z.shiftr
          to_uint eeprom_put_uint eeprom_get_uint scale_word] in *;
    bool_to_prop;
    (split; [|split]); scales_tac Hb.
Qed.

Lemma processCV_scales (i : chan) (newadcval : Z) (st : State) :
  event_defined (CVSample i newadcval) st ->
  scales_well_formed st -> scales_well_formed (processCV i newadcval st).
Proof.
  unfold event_defined. intros [Ha Hm] Hw.
  unfold processCV.
  destruct (get i (PersistentState.cvmode (state st)) =? cvgatelength) eqn:Eg.
  { revert Hw. apply scales_frame; reflexivity. }
  cbn zeta.
  set (q := to_byte (Quantize.quantizeSemitones
                       (add_hysteresis true newadcval
                          (Z.shiftl (get i (CVquantized st)) 3)) - 1)).
  destruct (negb (q =? get i (CVquantized st)));
    [|revert Hw; apply scales_frame; reflexivity].
  cbn [state set_CVquantized CVquantized].
  assert (Hq : get i (put i q (CVquantized st)) = q) by (destruct i; reflexivity).
  rewrite Hq.
  destruct Hw as (Hs & Hr & Hb). unfold bank in Hb.
  destruct (get i (PersistentState.cvmode (state st)) =? cvrotate) eqn:Er.
  { unfold scales_well_formed, bank.
    cbn -[to_byte mod12 rotate_scale eeprom_get_uint scale_word].
    (split; [|split]); scales_tac Hb. }
  assert (Hw : scales_well_formed st) by (split; [|split]; assumption).
  destruct (_ =? cvtranspose); [revert Hw; apply scales_frame; reflexivity|].
  destruct (_ =? cvtransposechannel); [revert Hw; apply scales_frame; reflexivity|].
  destruct (_ =? cvoffset); [revert Hw; apply scales_frame; reflexivity|].
  destruct (_ =? cvoffsetchannel); [revert Hw; apply scales_frame; reflexivity|].
  destruct (get i (PersistentState.cvmode (state st)) =? cvload) eqn:El;
    [|revert Hw; apply scales_frame; reflexivity].
  apply Z.eqb_eq in El.
  pose proof (cv_index_range newadcval (Z.shiftl (get i (CVquantized st)) 3)
                ltac:(split; [apply Hm; right; exact El|lia])) as Hi.
  fold q in Hi.
  unfold loadScale. destruct (_ <? 12); [|exact Hw].
  unfold scales_well_formed, bank.
  cbn -[to_byte mod12 rotate_scale eeprom_get_uint scale_word].
  (split; [|split]); scales_tac Hb.
Qed.

Lemma step_scales (e : Event) (st st' : State) (io : list IOEvent) :
  step e st = Some (st', io) -> event_defined e st ->
  settings_in_range st ->
  scales_well_formed st -> scales_well_formed st'.
Proof.
  destruct e as [i a din edge | i a | key shift]; simpl step; intros H Hok Hs Hw.
  - inversion H as [E].
    pose proof (processChannel_frame i a din edge st) as Hf.
    rewrite E in Hf. simpl in Hf.
    destruct Hf as (F1 & F2 & F3 & F4 & F5 & F6 & F7 & F8 & F9 & F10 & F11 & F12 & _).
    revert Hw. apply scales_frame; assumption.
  - inversion H; subst. apply processCV_scales; assumption.
  - destruct (keyDownEvent key shift st) as [s|] eqn:E; [|discriminate].
    inversion H; subst.
    exact (keyDownEvent_scales key shift st st' E Hok Hs Hw).
Qed.

(** X14. While the lookups of [processCV] stay inside the table, only
    notes are stored: from a state in which the scale, the rotated scale
    and the twelve banks are 16-bit words with the low four bits clear
    and the settings are in range, in an execution of complete calls
    whose events satisfy [event_defined] (no CV sample below 29 at an
    input in the rotate or load mode), they are such words after every
    call: no key press, CV sample or load from a bank sets one of the
    four unused bits.  Nothing is stated for the CV samples left out. *)
Theorem scales_stay_well_formed (es : list Event) (st : State) :
  settings_in_range st -> scales_well_formed st -> events_defined es st ->
  Forall (fun x => scales_well_formed (fst x)) (run es st).
Proof.
  revert st. induction es as [|e es IH]; intros st Hs Hw Hok; simpl.
  - constructor.
  - destruct Hok as [He Hrest].
    destruct (step e st) as [[st' io]|] eqn:E; [|constructor].
    pose proof (step_settings e st st' io E He Hs) as Hs'.
    pose proof (step_scales e st st' io E He Hs Hw) as Hw'.
    constructor; [exact Hw'|apply IH; assumption].
Qed.

Lemma scales_stay_well_formed_witness :
  Forall (fun x => scales_well_formed (fst x)) (run mixed_events first_start).
Proof.
  apply scales_stay_well_formed; [by_evaluation| |by_evaluation].
  split; [by_evaluation|]. split; [by_evaluation|].
  intros k Hk.
  assert (C : k = 0 \/ k = 1 \/ k = 2 \/ k = 3 \/ k = 4 \/ k = 5 \/ k = 6
              \/ k = 7 \/ k = 8 \/ k = 9 \/ k = 10 \/ k = 11) by lia.
  repeat (destruct C as [-> | C]; [by_evaluation|]). subst. by_evaluation.
Defined.

(** ** The note keys *)

(** X15. A note key switches its own note: in the normal mode, without
    shift, pressing note key [key] inverts note [key] of the rotated
    scale, the one the display shows and the quantizers use, and leaves
    the other eleven notes as they were, whatever the rotation. *)
Theorem note_key_toggles_displayed_note (key : Z) (st : State) :
  mode st = Mode.normal ->
  0 <= key < 12 ->
  scale_word (PersistentState.scale (state st)) ->
  0 <= PersistentState.rotatesemitones (state st) <= 11 ->
  0 <= rotatesemitonesCV st <= 11 ->
  rotation_current st ->
  exists st',
    keyDownEvent key false st = Some st'
    /\ forall k, 0 <= k < 12 ->
         enabled (rotatedscale st') k
         = if k =? key then negb (enabled (rotatedscale st) k)
           else enabled (rotatedscale st) k.
Proof.
  intros Hm Hkey Hs Hr Hc Hcur.
  unfold keyDownEvent. rewrite Hm. eexists. split; [reflexivity|].
  intros k Hk. unfold keyDown_normal. cbn [negb].
  replace (key <? 12) with true by (symmetry; apply Z.ltb_lt; lia).
  unfold touch_autosave. cbn [rotatedscale set_autosavecounter].
  set (r := PersistentState.rotatesemitones (state st) + rotatesemitonesCV st).
  destruct (unrotatedkey_range key r ltac:(lia) ltac:(unfold r; lia)) as [Hu Hur].
  rewrite Hcur.
  rewrite !updateRotation_enabled; try assumption; try (cbn; lia).
  - cbn -[to_uint Z.lxor Z.shiftr to_byte mod12 enabled Z.modulo Z.sub Z.add].
    fold r. rewrite toggle_enabled by (try apply Hur; apply Z.mod_pos_bound; lia).
    rewrite Hu.
    destruct (Z.eqb_spec k key) as [->|Hne].
    + rewrite Z.eqb_refl. apply xorb_true_r.
    + replace ((k - r) mod 12 =? (key - r) mod 12) with false;
        [apply xorb_false_r|].
      symmetry. apply Z.eqb_neq. intros E. apply Hne.
      assert (E' : (k - r + r) mod 12 = (key - r + r) mod 12)
        by (rewrite <- (Zplus_mod_idemp_l (k - r)), E, Zplus_mod_idemp_l;
            reflexivity).
      replace (k - r + r) with k in E' by lia.
      replace (key - r + r) with key in E' by lia.
      rewrite !Z.mod_small in E' by lia. exact E'.
  - cbn -[to_uint Z.lxor Z.shiftr to_byte mod12].
    apply toggle_scale_word; [exact Hs|apply Hur].
Qed.

Lemma note_key_toggles_displayed_note_witness :
  exists st',
    keyDownEvent 3 false started_state = Some st'
    /\ forall k, 0 <= k < 12 ->
         enabled (rotatedscale st') k
         = if k =? 3 then negb (enabled (rotatedscale started_state) k)
           else enabled (rotatedscale started_state) k.
Proof. apply (note_key_toggles_displayed_note 3 started_state); by_evaluation. Defined.

(** ** Timing of one channel *)

Lemma final_state_cons_sample (i : chan) (a : Z) (din edge : bool)
  (es : list Event) (st : State) :
  final_state (Sample i a din edge :: es) st
  = final_state es (fst (processChannel i a din edge st)).
Proof.
  unfold final_state. simpl run.
  destruct (processChannel i a din edge st) as [st' io]. simpl fst.
  destruct (run es st') as [|y l]; [reflexivity|].
  rewrite last_cons. destruct (last (y :: l)) eqn:E; [reflexivity|].
  apply last_None in E. discriminate.
Qed.

Lemma processChannel_before_trigger (i : chan) (a : Z) (din edge : bool)
  (st : State) :
  exists st3 io,
    processChannel i a din edge st = (trigger_step i din edge st3, io)
    /\ trigger_untouched st st3.
Proof.
  unfold processChannel.
  assert (H1 : trigger_untouched st (snd (choose_candidate i a st))).
  { unfold choose_candidate, trigger_untouched.
    destruct (mode st); split_ifs; split; reflexivity. }
  destruct (choose_candidate i a st) as [[candidate trig] st1]. simpl in H1.
  assert (H2 : trigger_untouched st1
                 (fst (if trig then accept i candidate st1 else (st1, [])))).
  { destruct trig; [|split; reflexivity].
    unfold accept, trigger_untouched.
    destruct (negb (PersistentState.gatelegato (state _))); split; reflexivity. }
  destruct (if trig then accept i candidate st1 else (st1, [])) as [st2 ev].
  simpl in H2.
  assert (H3 : trigger_untouched st2 (fst (gate_step i st2))).
  { unfold gate_step, trigger_untouched.
    destruct (get i (Channel.gatecounter (statics st2)) =? 0);
      [destruct (negb _)|]; cbn -[Z.add]; split_ifs; split; reflexivity. }
  destruct (gate_step i st2) as [st3 ev3]. simpl in H3.
  exists st3, (ev ++ ev3). split; [reflexivity|].
  unfold trigger_untouched in *. intuition congruence.
Qed.

(** One sample with [DIN_READ] at 0 and no edge, on a triggered
    channel: the counter runs up to [triggerautotime], then the channel
    goes back to free running. *)
Lemma quiet_sample (i : chan) (a : Z) (st : State) :
  free_of i st = false ->
  -32768 <= trigcount_of i st < 32767 ->
  let st' := fst (processChannel i a false false st) in
  if trigcount_of i st <=? triggerautotime
  then free_of i st' = false /\ trigcount_of i st' = trigcount_of i st + 1
  else free_of i st' = true.
Proof.
  intros Hf Hc.
  destruct (processChannel_before_trigger i a false false st)
    as (st3 & io & -> & Hfr & Htc).
  unfold free_of, trigcount_of in *. rewrite <- Hfr in Hf. rewrite <- Htc in *.
  cbn [fst]. unfold trigger_step. rewrite Hf. cbn [negb].
  destruct (get i (Channel.triggercounter (statics st3)) <=? triggerautotime);
    destruct (1 <? get i (Channel.triggerdelay (statics st3)));
    destruct i; cbn -[Z.add to_int to_byte] in *;
    rewrite ?to_int_small by lia; auto.
Qed.

Lemma quiet_samples (i : chan) (adcs : list Z) (st : State) :
  free_of i st = false ->
  -32768 <= trigcount_of i st ->
  trigcount_of i st + Z.of_nat (length adcs) <= triggerautotime + 1 ->
  free_of i (final_state (samples i (quiet adcs)) st) = false
  /\ trigcount_of i (final_state (samples i (quiet adcs)) st)
     = trigcount_of i st + Z.of_nat (length adcs).
Proof.
  revert st. induction adcs as [|a adcs IH]; intros st Hf Hlo Hhi.
  - cbn. split; [exact Hf|lia].
  - cbn [quiet samples map fst snd]. rewrite final_state_cons_sample.
    cbn [length] in Hhi. unfold triggerautotime in *.
    pose proof (quiet_sample i a st Hf ltac:(lia)) as Hs. cbv zeta in Hs.
    unfold triggerautotime in Hs.
    replace (trigcount_of i st <=? 10000) with true in Hs
      by (symmetry; apply Z.leb_le; lia).
    destruct Hs as [Hf' Hc'].
    destruct (IH (fst (processChannel i a false false st)) Hf' ltac:(lia)
                ltac:(lia)) as [R1 R2].
    split; [exact R1|]. fold (quiet adcs). fold (samples i (quiet adcs)).
    rewrite R2, Hc'. cbn [length]. lia.
Qed.

Lemma final_state_samples_snoc (i : chan) (xs : list (Z * bool)) (a : Z)
  (din : bool) (st : State) :
  final_state (samples i (xs ++ [(a, din)])) st
  = fst (processChannel i a din false (final_state (samples i xs) st)).
Proof.
  revert st. induction xs as [|[a0 d0] xs IH]; intros st.
  - cbn [samples map app fst snd]. rewrite final_state_cons_sample. reflexivity.
  - cbn [samples map app fst snd]. rewrite !final_state_cons_sample.
    apply IH.
Qed.

(** X16. A triggered channel returns to free running by itself: while
    [DIN_READ] reads 0 and no edge comes, a channel in triggered mode
    stays triggered until its counter has passed [triggerautotime], and
    the sample after that puts it back in free-running mode. *)
Theorem triggered_channel_times_out (i : chan) (adcs : list Z) (st : State) :
  free_of i st = false ->
  - triggerdebounce <= trigcount_of i st ->
  trigcount_of i st + Z.of_nat (length adcs) <= triggerautotime + 1 ->
  free_of i (final_state (samples i (quiet adcs)) st) = false
  /\ (trigcount_of i st + Z.of_nat (length adcs) = triggerautotime + 1 ->
      forall a,
        free_of i (final_state (samples i (quiet (adcs ++ [a]))) st) = true).
Proof.
  intros Hf Hlo Hhi. unfold triggerdebounce in Hlo.
  destruct (quiet_samples i adcs st Hf ltac:(lia) Hhi) as [R1 R2].
  split; [exact R1|]. intros Heq a.
  unfold quiet. rewrite map_app. cbn [map]. fold (quiet adcs).
  rewrite final_state_samples_snoc.
  pose proof (quiet_sample i a (final_state (samples i (quiet adcs)) st) R1) as Hs.
  cbv zeta in Hs. rewrite R2 in Hs. unfold triggerautotime in *.
  replace (trigcount_of i st + Z.of_nat (length adcs) <=? 10000) with false in Hs
    by (symmetry; apply Z.leb_gt; lia).
  apply Hs. lia.
Qed.

Lemma triggered_channel_times_out_witness :
  free_of chA (final_state (samples chA (quiet [0])) timeout_state) = false
  /\ (trigcount_of chA timeout_state + Z.of_nat (length [0])
      = triggerautotime + 1 ->
      forall a,
        free_of chA (final_state (samples chA (quiet ([0] ++ [a]))) timeout_state)
        = true).
Proof. apply (triggered_channel_times_out chA [0] timeout_state); by_evaluation. Defined.

(** *** The stages of [processChannel] on the variables of the channel *)

Lemma accept_vars (i : chan) (candidate : Z) (st : State) :
  chanvars i (fst (accept i candidate st))
  = (candidate, lastgate_of i st, - gatedelay, free_of i st, trigcount_of i st, 0)
  /\ snd (accept i candidate st)
     = SetDAC i candidate
       :: (if PersistentState.gatelegato (state st) then [] else [GateOff i]).
Proof.
  unfold accept, chanvars, out_of, lastgate_of, gatecount_of, free_of,
    trigcount_of, trigdelay_of.
  destruct (PersistentState.gatelegato (state st)) eqn:E;
    destruct i; cbn -[Z.opp]; rewrite E; cbn -[Z.opp]; split; reflexivity.
Qed.

Lemma gate_step_vars (i : chan) (st : State) :
  let k := gatecount_of i st in
  let fire := (k =? 0) && negb (out_of i st =? lastgate_of i st) in
  chanvars i (fst (gate_step i st))
  = (out_of i st,
     (if fire then out_of i st else lastgate_of i st),
     (if k <=? gatelength st then to_int (k + 1) else k),
     free_of i st, trigcount_of i st, trigdelay_of i st)
  /\ snd (gate_step i st)
     = (if fire then [GateOn i] else [])
       ++ (if k =? gatelength st then [GateOff i] else []).
Proof.
  unfold gate_step, chanvars, out_of, lastgate_of, gatecount_of, free_of,
    trigcount_of, trigdelay_of. cbv zeta.
  destruct (get i (Channel.gatecounter (statics st)) =? 0) eqn:E0;
    [destruct (negb (get i (Channel.outval (statics st))
                     =? get i (Channel.lastgateoutval (statics st)))) eqn:En|];
    destruct i; cbn -[Z.add to_int] in *;
    repeat (match goal with
            | |- context [if ?b then _ else _] => destruct b
            end; cbn -[Z.add to_int]);
    split; reflexivity.
Qed.

Lemma trigger_step_vars (i : chan) (din edge : bool) (st : State) :
  free_of i st = false ->
  let tc := trigcount_of i st in
  let td := trigdelay_of i st in
  chanvars i (trigger_step i din edge st)
  = (out_of i st, lastgate_of i st, gatecount_of i st,
     (if edge then false
      else if din then false
      else if tc <=? triggerautotime then false else true),
     (if edge then - triggerdebounce
      else if din then (if tc <? 0 then to_int (tc + 1) else tc)
      else if tc <=? triggerautotime then to_int (tc + 1) else tc),
     (if edge
      then (if 0 <=? tc
            then to_byte (1 + triggerdelayscale
                              * PersistentState.triggerdelay (state st))
            else td)
      else if 1 <? td then to_byte (td - 1) else td)).
Proof.
  unfold trigger_step, chanvars, out_of, lastgate_of, gatecount_of, free_of,
    trigcount_of, trigdelay_of. cbv zeta. intros Hf. rewrite Hf.
  destruct edge.
  - destruct (0 <=? get i (Channel.triggercounter (statics st)));
      destruct i; cbn -[Z.add Z.mul Z.opp to_int to_byte] in *;
      rewrite ?Hf; reflexivity.
  - destruct (1 <? get i (Channel.triggerdelay (statics st)));
      destruct din; cbn [negb];
      destruct (get i (Channel.triggercounter (statics st)) <=? triggerautotime);
      destruct (get i (Channel.triggercounter (statics st)) <? 0);
      destruct i; cbn -[Z.add Z.mul Z.opp Z.sub to_int to_byte] in *;
      rewrite ?Hf; reflexivity.
Qed.

(** A triggered channel outside the keyboard mode takes a new value only
    when its trigger delay has run down to 1. *)
Lemma processChannel_idle (i : chan) (a : Z) (din edge : bool) (st : State) :
  mode st <> Mode.keyboard ->
  free_of i st = false ->
  trigdelay_of i st <> 1 ->
  processChannel i a din edge st
  = (trigger_step i din edge (fst (gate_step i st)), snd (gate_step i st)).
Proof.
  unfold free_of, trigdelay_of. intros Hm Hf Hd.
  unfold processChannel, choose_candidate. rewrite Hf.
  replace (get i (Channel.triggerdelay (statics st)) =? 1) with false
    by (symmetry; apply Z.eqb_neq; exact Hd).
  cbn [andb orb].
  destruct (mode st); try congruence;
    destruct (quantized_candidate i a st <? 128);
    destruct (gate_step i st); reflexivity.
Qed.

Lemma processChannel_fire (i : chan) (a : Z) (din edge : bool) (st : State) :
  mode st <> Mode.keyboard ->
  trigdelay_of i st = 1 ->
  quantized_candidate i a st < 128 ->
  processChannel i a din edge st
  = (trigger_step i din edge
       (fst (gate_step i (fst (accept i (quantized_candidate i a st) st)))),
     snd (accept i (quantized_candidate i a st) st)
     ++ snd (gate_step i (fst (accept i (quantized_candidate i a st) st)))).
Proof.
  unfold trigdelay_of. intros Hm Hd Hc.
  unfold processChannel, choose_candidate. rewrite Hd.
  replace (quantized_candidate i a st <? 128) with true
    by (symmetry; apply Z.ltb_lt; exact Hc).
  rewrite Z.eqb_refl, orb_true_r.
  destruct (mode st); try congruence;
    destruct (accept i (quantized_candidate i a st) st) as [st2 ev];
    cbn [fst snd]; destruct (gate_step i st2); reflexivity.
Qed.

Lemma outputs_cons_sample (i : chan) (a : Z) (din edge : bool)
  (es : list Event) (st : State) :
  outputs (Sample i a din edge :: es) st
  = snd (processChannel i a din edge st)
    :: outputs es (fst (processChannel i a din edge st)).
Proof.
  unfold outputs. simpl run.
  destruct (processChannel i a din edge st) as [st' io]. reflexivity.
Qed.

Lemma chanvars_inv (i : chan) (st : State) (o l k : Z) (f : bool) (tc td : Z) :
  chanvars i st = (o, l, k, f, tc, td) ->
  out_of i st = o /\ lastgate_of i st = l /\ gatecount_of i st = k
  /\ free_of i st = f /\ trigcount_of i st = tc /\ trigdelay_of i st = td.
Proof. unfold chanvars. intros H. inversion H. repeat split. Qed.

(** A call that takes no new value, on a triggered channel. *)
Lemma idle_call (i : chan) (a : Z) (din edge : bool) (st : State) :
  mode st <> Mode.keyboard ->
  free_of i st = false ->
  trigdelay_of i st <> 1 ->
  let st' := fst (processChannel i a din edge st) in
  let k := gatecount_of i st in
  let tc := trigcount_of i st in
  let td := trigdelay_of i st in
  let fire := (k =? 0) && negb (out_of i st =? lastgate_of i st) in
  chanvars i st'
  = (out_of i st,
     (if fire then out_of i st else lastgate_of i st),
     (if k <=? gatelength st then to_int (k + 1) else k),
     (if edge then false
      else if din then false
      else if tc <=? triggerautotime then false else true),
     (if edge then - triggerdebounce
      else if din then (if tc <? 0 then to_int (tc + 1) else tc)
      else if tc <=? triggerautotime then to_int (tc + 1) else tc),
     (if edge
      then (if 0 <=? tc
            then to_byte (1 + triggerdelayscale
                              * PersistentState.triggerdelay (state st))
            else td)
      else if 1 <? td then to_byte (td - 1) else td))
  /\ snd (processChannel i a din edge st)
     = (if fire then [GateOn i] else [])
       ++ (if k =? gatelength st then [GateOff i] else [])
  /\ channel_only st st'.
Proof.
  intros Hm Hf Hd. cbv zeta.
  split; [|split; [|apply processChannel_frame]];
    rewrite processChannel_idle by assumption; cbn [fst snd].
  - destruct (gate_step_vars i st) as [Hv _]. cbv zeta in Hv.
    apply chanvars_inv in Hv. destruct Hv as (V1 & V2 & V3 & V4 & V5 & V6).
    rewrite trigger_step_vars by congruence. cbv zeta.
    destruct (gate_step_only i st) as (G1 & _).
    rewrite V1, V2, V3, V5, V6, G1. reflexivity.
  - apply gate_step_vars.
Qed.

(** The call that takes the new value, with [DIN_READ] at 1. *)
Lemma fire_call (i : chan) (a : Z) (st : State) :
  mode st <> Mode.keyboard ->
  free_of i st = false ->
  trigdelay_of i st = 1 ->
  quantized_candidate i a st < 128 ->
  0 < gatelength st ->
  let c := quantized_candidate i a st in
  let st' := fst (processChannel i a true false st) in
  out_of i st' = c /\ lastgate_of i st' = lastgate_of i st
  /\ gatecount_of i st' = -1 /\ free_of i st' = false /\ trigdelay_of i st' = 0
  /\ snd (processChannel i a true false st)
     = SetDAC i c
       :: (if PersistentState.gatelegato (state st) then [] else [GateOff i])
  /\ channel_only st st'.
Proof.
  intros Hm Hf Hd Hc Hg. cbv zeta.
  pose proof (processChannel_frame i a true false st) as Hfr.
  rewrite processChannel_fire in * by assumption. cbn [fst snd] in *.
  set (c := quantized_candidate i a st) in *.
  destruct (accept_vars i c st) as [Ha Hio].
  apply chanvars_inv in Ha. destruct Ha as (A1 & A2 & A3 & A4 & A5 & A6).
  set (st1 := fst (accept i c st)) in *.
  pose proof (accept_only i c st) as Hao. fold st1 in Hao.
  assert (Hgl : gatelength st1 = gatelength st) by apply Hao.
  destruct (gate_step_vars i st1) as [Hv Hgio]. cbv zeta in Hv, Hgio.
  rewrite A1, A2, A3, A4, A5, A6, Hgl in Hv. rewrite A1, A2, A3, Hgl in Hgio.
  change (- gatedelay) with (-2) in Hv, Hgio.
  replace (-2 =? 0) with false in * by reflexivity. cbn [andb] in Hv, Hgio.
  replace (-2 <=? gatelength st) with true in Hv
    by (symmetry; apply Z.leb_le; lia).
  replace (-2 =? gatelength st) with false in Hgio
    by (symmetry; apply Z.eqb_neq; lia).
  apply chanvars_inv in Hv. destruct Hv as (V1 & V2 & V3 & V4 & V5 & V6).
  set (st2 := fst (gate_step i st1)) in *.
  pose proof (trigger_step_vars i true false st2 ltac:(congruence)) as Ht.
  cbv zeta in Ht. rewrite V1, V2, V3, V5, V6 in Ht.
  apply chanvars_inv in Ht. destruct Ht as (T1 & T2 & T3 & T4 & T5 & T6).
  rewrite T1, T2, T3, T4, T6, Hio, Hgio.
  repeat split; try reflexivity; try apply Hfr; try apply app_nil_r.
Qed.

(** A call with [DIN_READ] at 1 and no edge, on a triggered
    channel whose trigger delay is not running. *)
Lemma held_call (i : chan) (a : Z) (st : State) :
  mode st <> Mode.keyboard ->
  free_of i st = false ->
  trigdelay_of i st = 0 ->
  -32768 <= gatecount_of i st < 32767 ->
  let st' := fst (processChannel i a true false st) in
  let k := gatecount_of i st in
  let fire := (k =? 0) && negb (out_of i st =? lastgate_of i st) in
  mode st' <> Mode.keyboard /\ free_of i st' = false /\ trigdelay_of i st' = 0
  /\ gatelength st' = gatelength st
  /\ out_of i st' = out_of i st
  /\ lastgate_of i st' = (if fire then out_of i st else lastgate_of i st)
  /\ gatecount_of i st' = (if k <=? gatelength st then k + 1 else k)
  /\ snd (processChannel i a true false st)
     = (if fire then [GateOn i] else [])
       ++ (if k =? gatelength st then [GateOff i] else []).
Proof.
  intros Hm Hf Hd Hk. cbv zeta.
  destruct (idle_call i a true false st Hm Hf ltac:(lia)) as (Hv & Hio & Hfr).
  cbv zeta in Hv, Hio. apply chanvars_inv in Hv.
  destruct Hv as (V1 & V2 & V3 & V4 & V5 & V6).
  destruct Hfr as (_ & _ & F3 & _ & _ & _ & _ & _ & F9 & _).
  rewrite V1, V2, V3, V4, V6, Hio, F3, F9, Hd. rewrite to_int_small by lia.
  repeat split; try reflexivity; assumption.
Qed.

Lemma pulse_tail (i : chan) (n : nat) :
  forall (adcs : list Z) (st : State),
    length adcs = S n ->
    mode st <> Mode.keyboard ->
    free_of i st = false ->
    trigdelay_of i st = 0 ->
    1 <= gatecount_of i st ->
    gatecount_of i st + Z.of_nat n = gatelength st ->
    gatelength st < 32767 ->
    outputs (samples i (held adcs)) st = replicate n [] ++ [[GateOff i]].
Proof.
  induction n as [|n IH]; intros adcs st Hlen Hm Hf Hd Hk Hg Hmax;
    destruct adcs as [|a adcs]; try discriminate;
    cbn [held samples map fst snd]; rewrite outputs_cons_sample;
    destruct (held_call i a st Hm Hf Hd ltac:(lia))
      as (M & F & D & G & O & L & K & IO);
    cbv zeta in *;
    replace (gatecount_of i st =? 0) with false in *
      by (symmetry; apply Z.eqb_neq; lia);
    cbn [andb] in *.
  - destruct adcs; [|discriminate].
    replace (gatecount_of i st =? gatelength st) with true in IO
      by (symmetry; apply Z.eqb_eq; lia).
    rewrite IO. reflexivity.
  - replace (gatecount_of i st =? gatelength st) with false in IO
      by (symmetry; apply Z.eqb_neq; lia).
    replace (gatecount_of i st <=? gatelength st) with true in K
      by (symmetry; apply Z.leb_le; lia).
    rewrite IO. cbn [replicate app]. f_equal.
    apply IH; try assumption; try lia.
    cbn [length] in Hlen. lia.
Qed.

(** X17. The gate pulse of a triggered note: when a triggered channel
    takes a new value (legato off, [DIN_READ] at 1 and no edge from then
    on), that call writes the DAC and closes the gate, the gate opens two
    calls later and closes [gatelength] calls after it opened, and
    nothing else is written in between or at those calls. *)
Theorem gate_pulse_after_trigger (i : chan) (a : Z) (adcs : list Z)
  (st : State) :
  mode st <> Mode.keyboard ->
  free_of i st = false ->
  trigdelay_of i st = 1 ->
  quantized_candidate i a st < 128 ->
  quantized_candidate i a st <> lastgate_of i st ->
  PersistentState.gatelegato (state st) = false ->
  0 < gatelength st < 32767 ->
  Z.of_nat (length adcs) = gatelength st + 2 ->
  outputs (Sample i a true false :: samples i (held adcs)) st
  = [SetDAC i (quantized_candidate i a st); GateOff i]
    :: [] :: [GateOn i]
    :: replicate (Z.to_nat (gatelength st - 1)) [] ++ [[GateOff i]].
Proof.
  intros Hm Hf Hd Hc Hne Hleg Hg Hlen.
  rewrite outputs_cons_sample.
  destruct (fire_call i a st Hm Hf Hd Hc ltac:(lia))
    as (O0 & L0 & K0 & F0 & D0 & IO0 & Fr0).
  cbv zeta in *. rewrite IO0, Hleg. f_equal.
  set (st0 := fst (processChannel i a true false st)) in *.
  assert (M0 : mode st0 <> Mode.keyboard)
    by (replace (mode st0) with (mode st) by (symmetry; apply Fr0); exact Hm).
  assert (G0 : gatelength st0 = gatelength st) by apply Fr0.
  destruct adcs as [|a1 [|a2 rest]]; cbn [length] in Hlen; try lia.
  cbn [held samples map fst snd]. rewrite !outputs_cons_sample.
  destruct (held_call i a1 st0 M0 F0 D0 ltac:(lia))
    as (M1 & F1 & D1 & G1 & O1 & L1 & K1 & IO1).
  cbv zeta in *. rewrite K0, G0 in *.
  change (-1 =? 0) with false in *. cbn [andb] in *.
  replace (-1 =? gatelength st) with false in IO1
    by (symmetry; apply Z.eqb_neq; lia).
  replace (-1 <=? gatelength st) with true in K1
    by (symmetry; apply Z.leb_le; lia).
  rewrite IO1. cbn [app]. f_equal.
  set (st1 := fst (processChannel i a1 true false st0)) in *.
  destruct (held_call i a2 st1 M1 F1 D1 ltac:(lia))
    as (M2 & F2 & D2 & G2 & O2 & L2 & K2 & IO2).
  cbv zeta in *. rewrite K1, G1, O1, L1, O0, L0 in *.
  change (-1 + 1 =? 0) with true in *. cbn [andb] in *.
  replace (quantized_candidate i a st =? lastgate_of i st) with false in *
    by (symmetry; apply Z.eqb_neq; exact Hne).
  cbn [negb] in *.
  replace (-1 + 1 =? gatelength st) with false in IO2
    by (symmetry; apply Z.eqb_neq; lia).
  replace (-1 + 1 <=? gatelength st) with true in K2
    by (symmetry; apply Z.leb_le; lia).
  rewrite IO2. cbn [app]. f_equal.
  apply pulse_tail; try assumption; try lia.
Qed.

Lemma gate_pulse_after_trigger_witness :
  outputs (Sample chA 500 true false
           :: samples chA (held [500; 500; 500; 500; 500; 500; 500]))
          armed_state
  = [SetDAC chA (quantized_candidate chA 500 armed_state); GateOff chA]
    :: [] :: [GateOn chA]
    :: replicate (Z.to_nat (gatelength armed_state - 1)) [] ++ [[GateOff chA]].
Proof.
  apply (gate_pulse_after_trigger chA 500 [500; 500; 500; 500; 500; 500; 500]
           armed_state); by_evaluation.
Defined.

Lemma quantized_candidate_ext (i : chan) (a : Z) (st st' : State) :
  channel_only st st' ->
  free_of i st = false -> free_of i st' = false ->
  quantized_candidate i a st' = quantized_candidate i a st.
Proof.
  unfold free_of.
  intros (F1 & F2 & _ & _ & _ & _ & F7 & F8 & _) Hf Hf'.
  unfold quantized_candidate, quantizer_input, newvalhyst_of,
    newvalhystoffset_of, add_transpose, quantize.
  rewrite Hf, Hf', F1, F2, F7, F8. reflexivity.
Qed.

Lemma no_dac_in_gate_io (i j : chan) (v : Z) (b c : bool) :
  ~ In (SetDAC j v)
      ((if b then [GateOn i] else []) ++ (if c then [GateOff i] else [])).
Proof.
  destruct b, c; cbn; intros H; repeat (destruct H as [H|H]; try discriminate);
    exact H.
Qed.

(** The calls while the trigger delay runs down from [n + 1] to 1. *)
Lemma delay_runs_down (i : chan) (n : nat) :
  forall (xs : list (Z * bool)) (st : State),
    length xs = n ->
    mode st <> Mode.keyboard ->
    free_of i st = false ->
    trigdelay_of i st = Z.of_nat n + 1 ->
    trigdelay_of i st <= 255 ->
    -32768 <= trigcount_of i st ->
    trigcount_of i st + Z.of_nat n <= triggerautotime + 1 ->
    let st' := final_state (samples i xs) st in
    channel_only st st' /\ free_of i st' = false /\ trigdelay_of i st' = 1
    /\ out_of i st' = out_of i st
    /\ forall j v, ~ In (SetDAC j v) (concat (outputs (samples i xs) st)).
Proof.
  induction n as [|n IH]; intros xs st Hlen Hm Hf Hd Hmax Hlo Hhi;
    destruct xs as [|[a din] xs]; try discriminate; cbv zeta.
  - cbn. repeat split; try assumption. intros j v [].
  - cbn [samples map fst snd].
    rewrite final_state_cons_sample, outputs_cons_sample.
    destruct (idle_call i a din false st Hm Hf ltac:(lia)) as (Hv & Hio & Hfr).
    cbv zeta in Hv, Hio. apply chanvars_inv in Hv.
    destruct Hv as (V1 & V2 & V3 & V4 & V5 & V6).
    set (st1 := fst (processChannel i a din false st)) in *.
    unfold triggerautotime in *.
    replace (trigcount_of i st <=? 10000) with true in *
      by (symmetry; apply Z.leb_le; lia).
    replace (1 <? trigdelay_of i st) with true in V6
      by (symmetry; apply Z.ltb_lt; lia).
    rewrite to_byte_small in V6 by lia.
    assert (F1 : free_of i st1 = false) by (rewrite V4; destruct din; reflexivity).
    assert (M1 : mode st1 <> Mode.keyboard)
      by (replace (mode st1) with (mode st) by (symmetry; apply Hfr); exact Hm).
    assert (C1 : trigcount_of i st <= trigcount_of i st1 <= trigcount_of i st + 1).
    { rewrite V5. destruct din; [destruct (_ <? 0)|];
        rewrite ?to_int_small by lia; lia. }
    destruct (IH xs st1 ltac:(cbn [length] in Hlen; lia) M1 F1 ltac:(lia)
                ltac:(lia) ltac:(lia) ltac:(lia))
      as (R1 & R2 & R3 & R4 & R5).
    fold (samples i xs).
    split; [eapply channel_only_trans; eassumption|].
    split; [exact R2|]. split; [exact R3|]. split; [congruence|].
    intros j v. cbn [concat]. rewrite in_app_iff. intros [H|H].
    + rewrite Hio in H. exact (no_dac_in_gate_io i j v _ _ H).
    + exact (R5 j v H).
Qed.

(** X18. The trigger delay: on a triggered channel whose trigger input is
    armed, an edge of the trigger input followed by
    [triggerdelayscale * state.triggerdelay] calls leaves the output as
    it was and writes nothing to the DAC, and the call after those takes
    the value quantized from its own sample when that value is below
    128. *)
Theorem trigger_takes_note_after_delay (i : chan) (a0 : Z) (din0 : bool)
  (xs : list (Z * bool)) (st : State) :
  mode st <> Mode.keyboard ->
  free_of i st = false ->
  0 <= trigcount_of i st ->
  trigdelay_of i st <> 1 ->
  0 <= PersistentState.triggerdelay (state st) <= 11 ->
  Z.of_nat (length xs)
  = triggerdelayscale * PersistentState.triggerdelay (state st) ->
  let es := Sample i a0 din0 true :: samples i xs in
  let st' := final_state es st in
  out_of i st' = out_of i st
  /\ (forall j v, ~ In (SetDAC j v) (concat (outputs es st)))
  /\ forall a din,
       quantized_candidate i a st < 128 ->
       out_of i (fst (processChannel i a din false st'))
       = quantized_candidate i a st
       /\ In (SetDAC i (quantized_candidate i a st))
             (snd (processChannel i a din false st')).
Proof.
  intros Hm Hf Hc Hd Hs Hlen. cbv zeta.
  rewrite final_state_cons_sample, outputs_cons_sample.
  destruct (idle_call i a0 din0 true st Hm Hf Hd) as (Hv & Hio & Hfr).
  cbv zeta in Hv, Hio. apply chanvars_inv in Hv.
  destruct Hv as (V1 & V2 & V3 & V4 & V5 & V6).
  set (st0 := fst (processChannel i a0 din0 true st)) in *.
  replace (0 <=? trigcount_of i st) with true in V6
    by (symmetry; apply Z.leb_le; lia).
  unfold triggerdelayscale, triggerdebounce in *.
  rewrite to_byte_small in V6 by lia.
  assert (M0 : mode st0 <> Mode.keyboard)
    by (replace (mode st0) with (mode st) by (symmetry; apply Hfr); exact Hm).
  destruct (delay_runs_down i (length xs) xs st0 eq_refl M0 V4 ltac:(lia)
              ltac:(lia) ltac:(lia) ltac:(unfold triggerautotime; lia))
    as (R1 & R2 & R3 & R4 & R5).
  cbv zeta in *.
  set (st1 := final_state (samples i xs) st0) in *.
  assert (Hall : channel_only st st1)
    by (eapply channel_only_trans; eassumption).
  split; [congruence|]. split.
  - intros j v. cbn [concat]. rewrite in_app_iff. intros [H|H].
    + rewrite Hio in H. exact (no_dac_in_gate_io i j v _ _ H).
    + exact (R5 j v H).
  - intros a din Ha.
    assert (M1 : mode st1 <> Mode.keyboard)
      by (replace (mode st1) with (mode st) by (symmetry; apply Hall); exact Hm).
    rewrite <- (quantized_candidate_ext i a st st1 Hall Hf R2) in *.
    rewrite processChannel_fire by assumption. cbn [fst snd].
    destruct (accept_vars i (quantized_candidate i a st1) st1) as [Av Aio].
    apply chanvars_inv in Av. destruct Av as (A1 & A2 & A3 & A4 & A5 & A6).
    split.
    + destruct (gate_step_vars i (fst (accept i (quantized_candidate i a st1) st1)))
        as [Gv _].
      cbv zeta in Gv. apply chanvars_inv in Gv. destruct Gv as (G1 & _ & _ & G4 & _).
      pose proof (trigger_step_vars i din false
                    (fst (gate_step i (fst (accept i (quantized_candidate i a st1) st1))))
                    ltac:(congruence)) as Tv.
      cbv zeta in Tv. apply chanvars_inv in Tv. destruct Tv as (T1 & _).
      congruence.
    + apply in_or_app. left. rewrite Aio. left. reflexivity.
Qed.

Lemma trigger_takes_note_after_delay_witness :
  let es := Sample chA 500 true true
            :: samples chA [(500, true); (500, true); (500, false);
                            (500, false); (500, false)] in
  let st' := final_state es delayed_trigger_state in
  out_of chA st' = out_of chA delayed_trigger_state
  /\ (forall j v, ~ In (SetDAC j v) (concat (outputs es delayed_trigger_state)))
  /\ forall a din,
       quantized_candidate chA a delayed_trigger_state < 128 ->
       out_of chA (fst (processChannel chA a din false st'))
       = quantized_candidate chA a delayed_trigger_state
       /\ In (SetDAC chA (quantized_candidate chA a delayed_trigger_state))
             (snd (processChannel chA a din false st')).
Proof.
  apply (trigger_takes_note_after_delay chA 500 true
           [(500, true); (500, true); (500, false); (500, false); (500, false)]
           delayed_trigger_state); by_evaluation.
Defined.

(** ** The autosave *)

Lemma idle_counts_down (n : nat) :
  forall st,
    Z.of_nat n + 1 < autosavecounter st <= 65535 ->
    state (idle n st) = state st
    /\ EEPROM (idle n st) = EEPROM st
    /\ eebusy (idle n st) = eebusy st
    /\ autosavecounter (idle n st) = autosavecounter st - Z.of_nat n.
Proof.
  induction n as [|n IH]; intros st Hc.
  - cbn [idle]. repeat split. lia.
  - cbn [idle]. unfold autosave_tick.
    replace (1 <? autosavecounter st) with true
      by (symmetry; apply Z.ltb_lt; lia).
    unfold loop. cbn [autosavecounter set_autosavecounter].
    unfold to_uint. rewrite Z.mod_small by lia.
    replace (autosavecounter st - 1 =? 1) with false
      by (symmetry; apply Z.eqb_neq; lia).
    destruct (IH (set_autosavecounter (autosavecounter st - 1) st)
                ltac:(cbn [autosavecounter set_autosavecounter]; lia))
      as (I1 & I2 & I3 & I4).
    cbn [autosavecounter set_autosavecounter state EEPROM eebusy] in *.
    repeat split; try assumption. lia.
Qed.

Lemma idle_app (n m : nat) (st : State) :
  idle (n + m) st = idle m (idle n st).
Proof.
  revert st. induction n as [|n IH]; intros st; [reflexivity|].
  cbn [Nat.add idle]. apply IH.
Qed.

Lemma idle_saved (m : nat) :
  forall st, autosavecounter st = 0 ->
    EEPROM (idle m st) = EEPROM st /\ autosavecounter (idle m st) = 0.
Proof.
  induction m as [|m IH]; intros st Hc; [split; [reflexivity|exact Hc]|].
  cbn [idle]. unfold autosave_tick, loop. rewrite Hc. cbn.
  rewrite Hc. cbn. apply IH. exact Hc.
Qed.

(** X19. A change is saved once, ten thousand timer ticks later: from a
    state in which [autosavecounter] has just been set to [autosavetime],
    nothing is written to the EEPROM during the ticks before tick
    [autosavetime - 1], the main loop stores the state after that tick
    and clears the counter, and nothing is written after that. *)
Theorem change_is_autosaved (st : State) :
  autosavecounter st = autosavetime ->
  eebusy st = false ->
  persistable (state st) ->
  (forall n, Z.of_nat n < autosavetime - 1 -> EEPROM (idle n st) = EEPROM st)
  /\ forall n, Z.of_nat n = autosavetime - 1 ->
       eeprom_get_state EE_ADDR_STATE (EEPROM (idle n st)) = state st
       /\ autosavecounter (idle n st) = 0
       /\ forall m, EEPROM (idle (n + m) st) = EEPROM (idle n st).
Proof.
  unfold autosavetime. intros Hc Hb Hp. split.
  { intros n Hn. apply idle_counts_down. lia. }
  intros n Hn. destruct n as [|k]; [cbn in Hn; lia|].
  assert (H9 : EEPROM (idle (S k) st)
               = eeprom_put_state EE_ADDR_STATE (state st) (EEPROM st)
               /\ autosavecounter (idle (S k) st) = 0).
  { replace (S k) with (k + 1)%nat by lia. rewrite idle_app.
    destruct (idle_counts_down k st ltac:(lia)) as (I1 & I2 & I3 & I4).
    rewrite Hc in I4. replace (10000 - Z.of_nat k) with 2 in I4 by lia.
    cbn [idle]. unfold autosave_tick. rewrite I4. change (1 <? 2) with true. cbv iota.
    unfold loop. cbn [autosavecounter set_autosavecounter].
    change (to_uint (2 - 1) =? 1) with true. cbv iota.
    cbn [autosavecounter set_autosavecounter EEPROM].
    unfold savePersistentState.
    cbn [eebusy set_autosavecounter]. rewrite I3, Hb. cbn [negb].
    cbn [EEPROM set_EEPROM set_eebusy state set_autosavecounter].
    rewrite I1, I2. split; reflexivity. }
  destruct H9 as [HE HC].
  split; [|split].
  - rewrite HE. apply state_round_trip. exact Hp.
  - exact HC.
  - intros m. rewrite idle_app. apply idle_saved. exact HC.
Qed.

Lemma change_is_autosaved_witness :
  (forall n, Z.of_nat n < autosavetime - 1 ->
             EEPROM (idle n changed_state) = EEPROM changed_state)
  /\ forall n, Z.of_nat n = autosavetime - 1 ->
       eeprom_get_state EE_ADDR_STATE (EEPROM (idle n changed_state))
       = state changed_state
       /\ autosavecounter (idle n changed_state) = 0
       /\ forall m, EEPROM (idle (n + m) changed_state)
                    = EEPROM (idle n changed_state).
Proof. apply (change_is_autosaved changed_state); by_evaluation. Defined.

(** ** Saving and loading from the menus *)

(** X20. What is saved is what the display showed: in the save menu, key
    [k] below 12 stores the rotated scale in bank [k] and returns to the
    normal mode; the load key and key [k] again then make that word the
    scale, with base rotation 0, and, when no CV rotation is applied, the
    rotated scale is the saved one again. *)
Theorem save_then_load_restores_scale (k : Z) (s1 s2 : bool) (st : State) :
  mode st = Mode.save ->
  0 <= k < 12 ->
  eebusy st = false ->
  0 <= rotatedscale st < 65536 ->
  rotatesemitonesCV st = 0 ->
  exists st1 st2 st3,
    keyDownEvent k s1 st = Some st1 /\ mode st1 = Mode.normal
    /\ bank k st1 = rotatedscale st
    /\ keyDownEvent KEY_LOAD false st1 = Some st2 /\ mode st2 = Mode.load
    /\ keyDownEvent k s2 st2 = Some st3 /\ mode st3 = Mode.normal
    /\ PersistentState.scale (state st3) = rotatedscale st
    /\ PersistentState.rotatesemitones (state st3) = 0
    /\ rotatedscale st3 = rotatedscale st.
Proof.
  intros Hm Hk Hb Hr Hcv.
  assert (Hlt : (k <? 12) = true) by (apply Z.ltb_lt; lia).
  unfold keyDownEvent at 1. rewrite Hm, Hlt.
  unfold saveScale_current. rewrite saveScale_not_busy by (auto; lia).
  eexists. eexists. eexists.
  split; [reflexivity|]. split; [reflexivity|].
  assert (Hbank : eeprom_get_uint (EE_ADDR_SAVEDSCALES + k * EE_SIZE_SAVEDSCALES)
                    (eeprom_put_uint (EE_ADDR_SAVEDSCALES + k * EE_SIZE_SAVEDSCALES)
                       (rotatedscale st) (EEPROM st)) = rotatedscale st)
    by (apply eeprom_get_put_same; exact Hr).
  split; [exact Hbank|].
  unfold keyDownEvent at 1. cbn [mode set_mode set_EEPROM].
  unfold keyDown_normal. cbn [negb].
  change (KEY_LOAD <? 12) with false. change (KEY_LOAD =? KEY_LOAD) with true.
  cbv iota.
  split; [reflexivity|]. split; [reflexivity|].
  unfold keyDownEvent. cbn [mode set_mode]. rewrite Hlt.
  split; [reflexivity|]. split; [reflexivity|].
  unfold loadScale. rewrite Hlt. unfold touch_autosave.
  cbn -[eeprom_get_uint eeprom_put_uint rotate_scale to_byte mod12 Z.add Z.mul].
  rewrite Hbank, Hcv. split; [reflexivity|]. split; reflexivity.
Qed.

Lemma save_then_load_restores_scale_witness :
  exists st1 st2 st3,
    keyDownEvent 3 false save_menu_state = Some st1 /\ mode st1 = Mode.normal
    /\ bank 3 st1 = rotatedscale save_menu_state
    /\ keyDownEvent KEY_LOAD false st1 = Some st2 /\ mode st2 = Mode.load
    /\ keyDownEvent 3 false st2 = Some st3 /\ mode st3 = Mode.normal
    /\ PersistentState.scale (state st3) = rotatedscale save_menu_state
    /\ PersistentState.rotatesemitones (state st3) = 0
    /\ rotatedscale st3 = rotatedscale save_menu_state.
Proof.
  apply (save_then_load_restores_scale 3 false false save_menu_state);
    by_evaluation.
Defined.

(** ** The ADC interrupt *)

Lemma adc_isr_mod (nextchannel val : Z) (din edge : bool) :
  0 <= nextchannel <= 255 ->
  adc_isr nextchannel val din edge = adc_isr (nextchannel mod 4) val din edge.
Proof.
  intros Hn. unfold adc_isr.
  assert (Hc : all_below 256 (fun n =>
             Z.land (to_byte (n + 1)) 3 =? Z.land (to_byte (n mod 4 + 1)) 3)
             = true) by (vm_compute; reflexivity).
  pose proof (all_below_spec 256 _ Hc nextchannel ltac:(lia)) as Hd.
  cbv beta in Hd. apply Z.eqb_eq in Hd. rewrite Hd. reflexivity.
Qed.

(** X21. The ADC interrupt serves the four inputs in turn: whatever the
    channel counter holds, four consecutive interrupts call
    [processChannel] for channel 0, [processCV] for input 0,
    [processChannel] for channel 1 and [processCV] for input 1 once
    each, every call with the conversion result of its own interrupt,
    and leave the counter, taken modulo 4, where it was. *)
Theorem adc_interrupt_round_robin (nextchannel v1 v2 v3 v4 : Z)
  (d1 d2 d3 d4 e1 e2 e3 e4 : bool) :
  0 <= nextchannel <= 255 ->
  let '(n, es) :=
    adc_isrs nextchannel [(v1, d1, e1); (v2, d2, e2); (v3, d3, e3); (v4, d4, e4)] in
  n = nextchannel mod 4
  /\ map conversion_of es = [Some v1; Some v2; Some v3; Some v4]
  /\ (exists w d e, In (Sample chA w d e) es)
  /\ (exists w d e, In (Sample chB w d e) es)
  /\ (exists w, In (CVSample chA w) es)
  /\ (exists w, In (CVSample chB w) es).
Proof.
  intros Hn. cbn [adc_isrs]. rewrite (adc_isr_mod nextchannel) by exact Hn.
  pose proof (Z.mod_pos_bound nextchannel 4 ltac:(lia)) as Hr.
  assert (Hc : nextchannel mod 4 = 0 \/ nextchannel mod 4 = 1
               \/ nextchannel mod 4 = 2 \/ nextchannel mod 4 = 3) by lia.
  destruct Hc as [-> | [-> | [-> | ->]]]; cbn;
    (split; [reflexivity|]); (split; [reflexivity|]);
    repeat split; repeat eexists; eauto 10.
Qed.

Lemma adc_interrupt_round_robin_witness :
  let '(n, es) :=
    adc_isrs 2 [(100, false, false); (200, true, false); (300, false, true);
                (400, true, true)] in
  n = 2 mod 4
  /\ map conversion_of es = [Some 100; Some 200; Some 300; Some 400]
  /\ (exists w d e, In (Sample chA w d e) es)
  /\ (exists w d e, In (Sample chB w d e) es)
  /\ (exists w, In (CVSample chA w) es)
  /\ (exists w, In (CVSample chB w) es).
Proof.
  apply (adc_interrupt_round_robin 2 100 200 300 400 false true false true
           false false true true). lia.
Defined.

(** ** The gate length from a CV input *)

Lemma gatelengths_interpolation (j r : Z) :
  0 <= j <= 7 -> 0 <= r <= 39 ->
  nth (Z.to_nat j) gatelengths 0
  <= nth (Z.to_nat j) gatelengths 0
     + r * (nth (Z.to_nat (j + 1)) gatelengths 0
            - nth (Z.to_nat j) gatelengths 0) / 39
  <= nth (Z.to_nat (j + 1)) gatelengths 0.
Proof.
  intros Hj Hr.
  assert (Hd : 0 <= nth (Z.to_nat (j + 1)) gatelengths 0
                    - nth (Z.to_nat j) gatelengths 0).
  { assert (C : j = 0 \/ j = 1 \/ j = 2 \/ j = 3 \/ j = 4 \/ j = 5 \/ j = 6
                \/ j = 7) by lia.
    repeat (destruct C as [-> | C]; [vm_compute; congruence|]). subst.
    vm_compute; congruence. }
  set (d := nth (Z.to_nat (j + 1)) gatelengths 0
            - nth (Z.to_nat j) gatelengths 0) in *.
  assert (0 <= r * d / 39 <= d).
  { split; [apply Z.div_pos; nia|]. apply Z.div_le_upper_bound; nia. }
  lia.
Qed.

(** X22. A CV input in the gate-length mode: a sample of 0 to 1023 is
    split as [sample + 8 = 40 * (index + 13) + remainder] with the
    remainder in 0..39 and the index in -13..12; the gate length is the
    shortest of the table when the index added to the chosen one is
    negative, the longest when it is above 10, and for a sum [j] of 0 to 7
    it lies between entries [j] and [j + 1] of the table. *)
Theorem cv_sets_gate_length (i : chan) (newadcval : Z) (st : State) :
  get i (PersistentState.cvmode (state st)) = cvgatelength ->
  0 <= newadcval <= 1023 ->
  0 <= PersistentState.gatelengthindex (state st) <= 11 ->
  let st' := processCV i newadcval st in
  let j := PersistentState.gatelengthindex (state st) + cvgatelengthindex st' in
  newadcval + 8 = 40 * (cvgatelengthindex st' + 13) + cvgatelengthremainder st'
  /\ 0 <= cvgatelengthremainder st' <= 39
  /\ -13 <= cvgatelengthindex st' <= 12
  /\ (j < 0 -> gatelength st' = 5)
  /\ (10 < j -> gatelength st' = 10000)
  /\ (0 <= j <= 7 ->
      nth (Z.to_nat j) gatelengths 0 <= gatelength st'
      <= nth (Z.to_nat (j + 1)) gatelengths 0).
Proof.
  intros Hm Ha Hg. cbv zeta. unfold processCV. rewrite Hm, Z.eqb_refl.
  cbn -[gatelength_of to_int cdiv Z.mul Z.add Z.sub nth gatelengths].
  unfold cdiv. rewrite (to_int_small (newadcval + 8)) by lia.
  rewrite Z.quot_div_nonneg by lia.
  pose proof (Z.div_mod (newadcval + 8) 40 ltac:(lia)) as Hdm.
  pose proof (Z.mod_pos_bound (newadcval + 8) 40 ltac:(lia)) as Hr.
  assert (Hq : 0 <= (newadcval + 8) / 40 < 26)
    by (split; [apply Z.div_pos|apply Z.div_lt_upper_bound]; lia).
  rewrite (to_int_small (_ * 40)) by lia.
  rewrite (to_int_small (_ - _ * 40)) by lia.
  rewrite (to_int_small (_ - 13)) by lia.
  set (x := (newadcval + 8) / 40) in *.
  set (r := newadcval + 8 - x * 40) in *.
  assert (Er : r = newadcval + 8 - x * 40) by reflexivity.
  clearbody r x.
  destruct (gatelength_of_in_range
              (PersistentState.gatelengthindex (state st)) (x - 13) r
              ltac:(lia) ltac:(lia)) as (G1 & G2 & G3).
  cbv zeta in G1, G2, G3.
  split; [lia|]. split; [lia|]. split; [lia|].
  split; [exact G1|]. split; [exact G2|].
  intros Hj. rewrite (G3 Hj). apply gatelengths_interpolation; lia.
Qed.

Lemma cv_sets_gate_length_witness :
  let st' := processCV chA 551 cv_gatelength_state in
  let j := PersistentState.gatelengthindex (state cv_gatelength_state)
           + cvgatelengthindex st' in
  551 + 8 = 40 * (cvgatelengthindex st' + 13) + cvgatelengthremainder st'
  /\ 0 <= cvgatelengthremainder st' <= 39
  /\ -13 <= cvgatelengthindex st' <= 12
  /\ (j < 0 -> gatelength st' = 5)
  /\ (10 < j -> gatelength st' = 10000)
  /\ (0 <= j <= 7 ->
      nth (Z.to_nat j) gatelengths 0 <= gatelength st'
      <= nth (Z.to_nat (j + 1)) gatelengths 0).
Proof. apply (cv_sets_gate_length chA 551 cv_gatelength_state); by_evaluation. Defined.

(** ** The transpose and offset menus *)

Lemma to_schar_small (v : Z) : -128 <= v <= 127 -> to_schar v = v.
Proof. intros H. unfold to_schar. rewrite Z.mod_small; lia. Qed.

(** X23. In a transpose or offset menu a note key sets the semitone within
    the octave and keeps the octave, the down and up keys move the amount
    by an octave as long as it stays within -60..71, and any other key
    but home leaves it alone. *)
Theorem semitone_menu_keeps_octave
  (field : PersistentState.t -> Z)
  (set_field : Z -> PersistentState.t -> PersistentState.t)
  (key : Z) (st : State) :
  (forall x p, field (set_field x p) = x) ->
  semitone_range (field (state st)) ->
  0 <= key <= 15 ->
  let v := field (state st) in
  let v' := field (state (semitone_menu field set_field key st)) in
  (key < 12 -> v' / 12 = v / 12 /\ v' mod 12 = key)
  /\ (key = KEY_DOWN -> v' = if -49 <? v then v - 12 else v)
  /\ (key = KEY_UP -> v' = if v <? 60 then v + 12 else v)
  /\ (key = KEY_LOAD \/ key = KEY_HOME -> v' = v)
  /\ semitone_range v'.
Proof.
  intros Hfield Hv Hk. cbv zeta. unfold semitone_menu, touch_autosave.
  unfold semitone_range, KEY_DOWN, KEY_UP, KEY_HOME, KEY_LOAD in *.
  remember (field (state st)) as v eqn:Ev.
  destruct (key <? 12) eqn:E1; bool_to_prop.
  - cbn -[to_schar to_byte cdiv Z.mul Z.add Z.sub Z.div Z.modulo].
    rewrite Hfield. rewrite to_byte_small by lia. unfold cdiv.
    rewrite Z.quot_div_nonneg by lia.
    assert (Hq : (v + 120) / 12 = v / 12 + 10).
    { replace (v + 120) with (v + 10 * 12) by lia. apply Z.div_add. lia. }
    assert (Hd : -5 <= v / 12 < 6).
    { split; [apply Z.div_le_lower_bound|apply Z.div_lt_upper_bound]; lia. }
    rewrite Hq. replace (v / 12 + 10 - 10) with (v / 12) by lia.
    rewrite (to_schar_small (v / 12)) by lia.
    rewrite to_schar_small by lia.
    split; [intros _|repeat split; lia].
    split.
    + symmetry. apply (Z.div_unique _ _ _ key); lia.
    + symmetry. apply (Z.mod_unique _ _ (v / 12) key); lia.
  - destruct (key =? 15) eqn:E2; bool_to_prop.
    { cbn. rewrite <- Ev. repeat split; intros; lia. }
    destruct ((key =? 14) && (-49 <? v)) eqn:E3.
    { bool_to_prop.
      all: cbn -[to_schar Z.sub]; rewrite Hfield, to_schar_small by lia.
      all: replace (-49 <? v) with true by (symmetry; apply Z.ltb_lt; lia).
      all: repeat split; intros; lia. }
    destruct ((key =? 13) && (v <? 60)) eqn:E4.
    { bool_to_prop; try lia.
      all: cbn -[to_schar Z.add]; rewrite Hfield, to_schar_small by lia.
      all: replace (v <? 60) with true by (symmetry; apply Z.ltb_lt; lia).
      all: repeat split; intros; lia. }
    rewrite <- Ev. bool_to_prop;
      repeat split; intros; try lia;
      try (replace (-49 <? v) with false by (symmetry; apply Z.ltb_ge; lia));
      try (replace (v <? 60) with false by (symmetry; apply Z.ltb_ge; lia));
      lia.
Qed.

Lemma semitone_menu_keeps_octave_witness :
  let field := PersistentState.offsetsemitones in
  let set_field := PersistentState.set_offsetsemitones in
  let st := upd_state (PersistentState.set_offsetsemitones (-17)) started_state in
  let v := field (state st) in
  let v' := field (state (semitone_menu field set_field 7 st)) in
  (7 < 12 -> v' / 12 = v / 12 /\ v' mod 12 = 7)
  /\ (7 = KEY_DOWN -> v' = if -49 <? v then v - 12 else v)
  /\ (7 = KEY_UP -> v' = if v <? 60 then v + 12 else v)
  /\ (7 = KEY_LOAD \/ 7 = KEY_HOME -> v' = v)
  /\ semitone_range v'.
Proof.
  apply (semitone_menu_keeps_octave PersistentState.offsetsemitones
           PersistentState.set_offsetsemitones 7
           (upd_state (PersistentState.set_offsetsemitones (-17)) started_state));
    [intros x p; reflexivity|by_evaluation|lia].
Defined.

(** ** The keyboard mode *)

Lemma keyboard_candidate_value (st : State) :
  0 <= keyboardsemitones st <= 11 ->
  -5 <= keyboardoctaves st <= 5 ->
  keyboard_candidate st = 63 + keyboardsemitones st + 12 * keyboardoctaves st.
Proof.
  intros Hs Ho. unfold keyboard_candidate.
  rewrite (to_byte_small (keyboardsemitones st)) by lia.
  rewrite to_int_small by lia.
  unfold to_byte. rewrite Zplus_mod_idemp_r. apply Z.mod_small. lia.
Qed.

(** What the stages after the choice of the candidate leave alone. *)
Lemma gate_trigger_keep (i : chan) (din edge : bool) (st : State) :
  let st' := trigger_step i din edge (fst (gate_step i st)) in
  Channel.outval (statics st') = Channel.outval (statics st)
  /\ keyboardtriggered st' = keyboardtriggered st
  /\ channel_only st st'.
Proof.
  cbv zeta. split; [|split].
  - destruct (trigger_step_frame i din edge (fst (gate_step i st))) as [-> _].
    pose proof (gate_step_cases i i st) as H.
    destruct (gate_step i st). apply H.
  - transitivity (keyboardtriggered (fst (gate_step i st))).
    + unfold trigger_step. split_ifs; reflexivity.
    + unfold gate_step.
      destruct (get i (Channel.gatecounter (statics st)) =? 0);
        [destruct (negb _)|]; cbn -[Z.add]; split_ifs; reflexivity.
  - eapply channel_only_trans; [apply gate_step_only|apply trigger_step_only].
Qed.

(** A call in the keyboard mode. *)
Lemma keyboard_call (i : chan) (a : Z) (din edge : bool) (st : State) :
  mode st = Mode.keyboard ->
  let st' := fst (processChannel i a din edge st) in
  let io := snd (processChannel i a din edge st) in
  channel_only st st'
  /\ if 0 <? keyboardtriggered st
     then Channel.outval (statics st')
          = put i (keyboard_candidate st) (Channel.outval (statics st))
          /\ keyboardtriggered st' = to_byte (keyboardtriggered st - 1)
          /\ In (SetDAC i (keyboard_candidate st)) io
     else Channel.outval (statics st') = Channel.outval (statics st)
          /\ keyboardtriggered st' = keyboardtriggered st
          /\ forall j v, ~ In (SetDAC j v) io.
Proof.
  intros Hm. cbv zeta. split; [apply processChannel_frame|].
  unfold processChannel, choose_candidate. rewrite Hm.
  destruct (0 <? keyboardtriggered st).
  - pose proof (gate_trigger_keep i din edge
                  (fst (accept i (keyboard_candidate st) st))) as (K1 & K2 & _).
    destruct (accept_vars i (keyboard_candidate st) st) as [_ Hio].
    destruct (accept i (keyboard_candidate st) st) as [st2 io2] eqn:Ea.
    cbn [fst snd] in *.
    destruct (gate_step i st2) as [st3 io3]. cbn [fst snd] in *.
    rewrite K1, K2.
    assert (Hacc : Channel.outval (statics st2)
                   = put i (keyboard_candidate st) (Channel.outval (statics st))
                   /\ keyboardtriggered st2 = to_byte (keyboardtriggered st - 1)).
    { unfold accept in Ea.
      destruct (negb (PersistentState.gatelegato (state _))); inversion Ea;
        subst; destruct i; split; reflexivity. }
    destruct Hacc as [-> ->].
    split; [reflexivity|]. split; [reflexivity|].
    apply in_or_app. left. rewrite Hio. left. reflexivity.
  - pose proof (gate_trigger_keep i din edge st) as (K1 & K2 & _).
    destruct (gate_step_vars i st) as [_ Hio].
    destruct (gate_step i st) as [st3 io3]. cbn [fst snd] in *.
    split; [exact K1|]. split; [exact K2|].
    intros j v. rewrite Hio. apply no_dac_in_gate_io.
Qed.

(** X24. A key in the keyboard mode plays on both channels: after a note
    key, the next call of each of the two channels, in either order,
    writes the note [63 + key + 12 * keyboardoctaves] to its DAC and
    makes it the output of that channel, and the call after those writes
    nothing to a DAC. *)
Theorem keyboard_note_reaches_both_channels (key : Z) (shift : bool)
  (i j : chan) (a b c : Z) (d1 e1 d2 e2 d3 e3 : bool) (k : chan) (st : State) :
  mode st = Mode.keyboard ->
  0 <= key < 12 ->
  -5 <= keyboardoctaves st <= 5 ->
  i <> j ->
  exists st1,
    keyDownEvent key shift st = Some st1
    /\ let note := 63 + key + 12 * keyboardoctaves st in
       let r1 := processChannel i a d1 e1 st1 in
       let r2 := processChannel j b d2 e2 (fst r1) in
       let r3 := processChannel k c d3 e3 (fst r2) in
       In (SetDAC i note) (snd r1)
       /\ In (SetDAC j note) (snd r2)
       /\ out_of i (fst r2) = note /\ out_of j (fst r2) = note
       /\ (forall l v, ~ In (SetDAC l v) (snd r3)).
Proof.
  intros Hm Hk Ho Hij. unfold keyDownEvent. rewrite Hm.
  eexists. split; [reflexivity|]. cbv zeta.
  unfold keyDown_keyboard.
  replace (key <? 12) with true by (symmetry; apply Z.ltb_lt; lia).
  set (st1 := set_keyboardtriggered 2 (set_keyboardsemitones (to_schar key) st)).
  assert (Hc1 : keyboard_candidate st1 = 63 + key + 12 * keyboardoctaves st).
  { rewrite keyboard_candidate_value; unfold st1;
      cbn -[to_schar]; rewrite ?to_schar_small by lia; lia. }
  assert (M1 : mode st1 = Mode.keyboard) by exact Hm.
  destruct (keyboard_call i a d1 e1 st1 M1) as (F1 & C1). cbv zeta in F1, C1.
  change (0 <? keyboardtriggered st1) with true in C1. cbv iota in C1.
  destruct C1 as (O1 & T1 & I1).
  change (to_byte (keyboardtriggered st1 - 1)) with 1 in T1.
  set (s2 := fst (processChannel i a d1 e1 st1)) in *.
  assert (M2 : mode s2 = Mode.keyboard)
    by (replace (mode s2) with (mode st1) by (symmetry; apply F1); exact M1).
  assert (Hc2 : keyboard_candidate s2 = keyboard_candidate st1).
  { unfold keyboard_candidate.
    destruct F1 as (_ & _ & _ & -> & -> & _). reflexivity. }
  destruct (keyboard_call j b d2 e2 s2 M2) as (F2 & C2). cbv zeta in F2, C2.
  rewrite T1 in C2. change (0 <? 1) with true in C2. cbv iota in C2.
  destruct C2 as (O2 & T2 & I2).
  change (to_byte (1 - 1)) with 0 in T2.
  set (s3 := fst (processChannel j b d2 e2 s2)) in *.
  assert (M3 : mode s3 = Mode.keyboard)
    by (replace (mode s3) with (mode s2) by (symmetry; apply F2); exact M2).
  destruct (keyboard_call k c d3 e3 s3 M3) as (_ & C3). cbv zeta in C3.
  rewrite T2 in C3. change (0 <? 0) with false in C3. cbv iota in C3.
  destruct C3 as (_ & _ & I3).
  rewrite Hc2 in *. rewrite Hc1 in *.
  split; [exact I1|]. split; [exact I2|].
  unfold out_of. rewrite O2, O1.
  split; [|split; [|exact I3]];
    destruct i, j; try congruence; reflexivity.
Qed.

Lemma keyboard_note_reaches_both_channels_witness :
  exists st1,
    keyDownEvent 3 false keyboard_state = Some st1
    /\ let note := 63 + 3 + 12 * keyboardoctaves keyboard_state in
       let r1 := processChannel chB 100 false false st1 in
       let r2 := processChannel chA 200 false false (fst r1) in
       let r3 := processChannel chB 300 false false (fst r2) in
       In (SetDAC chB note) (snd r1)
       /\ In (SetDAC chA note) (snd r2)
       /\ out_of chB (fst r2) = note /\ out_of chA (fst r2) = note
       /\ (forall l v, ~ In (SetDAC l v) (snd r3)).
Proof.
  apply (keyboard_note_reaches_both_channels 3 false chB chA 100 200 300
           false false false false false false chB keyboard_state);
    by_evaluation.
Defined.

(** ** Debounce of the trigger input *)

(** With [DIN_READ] at 1, no edge and no delay running, a triggered
    channel writes nothing to the DAC. *)
Lemma held_writes_no_dac (i : chan) (adcs : list Z) :
  forall st,
    mode st <> Mode.keyboard ->
    free_of i st = false ->
    trigdelay_of i st = 0 ->
    forall j v, ~ In (SetDAC j v) (concat (outputs (samples i (held adcs)) st)).
Proof.
  induction adcs as [|a adcs IH]; intros st Hm Hf Hd j v.
  - cbn. intros [].
  - cbn [held samples map fst snd]. rewrite outputs_cons_sample.
    destruct (idle_call i a true false st Hm Hf ltac:(lia)) as (Hv & Hio & Hfr).
    cbv zeta in Hv, Hio. apply chanvars_inv in Hv.
    destruct Hv as (_ & _ & _ & V4 & _ & V6).
    rewrite Hd in V6. change (1 <? 0) with false in V6. cbv iota in V6.
    cbn [concat]. rewrite in_app_iff. intros [H|H].
    + rewrite Hio in H. exact (no_dac_in_gate_io i j v _ _ H).
    + revert H. apply IH; try assumption.
      replace (mode (fst (processChannel i a true false st))) with (mode st)
        by (symmetry; apply Hfr).
      exact Hm.
Qed.

(** X25. An edge during the debounce time starts no note: on a triggered
    channel with no trigger delay running, an edge of the trigger input
    that comes while [triggercounter] is still negative, that is within
    [triggerdebounce] calls of the edge before, restarts the debounce
    time and leaves the trigger delay at 0, and as long as [DIN_READ]
    then reads 1 without a further edge nothing is written to the DAC. *)
Theorem bounce_starts_no_note (i : chan) (a : Z) (din : bool)
  (adcs : list Z) (st : State) :
  mode st <> Mode.keyboard ->
  free_of i st = false ->
  trigdelay_of i st = 0 ->
  trigcount_of i st < 0 ->
  let st' := fst (processChannel i a din true st) in
  trigdelay_of i st' = 0
  /\ trigcount_of i st' = - triggerdebounce
  /\ forall j v,
       ~ In (SetDAC j v)
            (concat (outputs (Sample i a din true :: samples i (held adcs)) st)).
Proof.
  intros Hm Hf Hd Hc. cbv zeta.
  destruct (idle_call i a din true st Hm Hf ltac:(lia)) as (Hv & Hio & Hfr).
  cbv zeta in Hv, Hio. apply chanvars_inv in Hv.
  destruct Hv as (_ & _ & _ & V4 & V5 & V6).
  replace (0 <=? trigcount_of i st) with false in V6
    by (symmetry; apply Z.leb_gt; lia).
  split; [congruence|]. split; [exact V5|].
  intros j v. rewrite outputs_cons_sample. cbn [concat].
  rewrite in_app_iff. intros [H|H].
  - rewrite Hio in H. exact (no_dac_in_gate_io i j v _ _ H).
  - revert H. apply held_writes_no_dac; try congruence.
    replace (mode (fst (processChannel i a din true st))) with (mode st)
      by (symmetry; apply Hfr).
    exact Hm.
Qed.

Lemma bounce_starts_no_note_witness :
  let st := upd_statics (Channel.set_triggercounter (-3, 0)) triggered_state in
  let st' := fst (processChannel chA 500 true true st) in
  trigdelay_of chA st' = 0
  /\ trigcount_of chA st' = - triggerdebounce
  /\ forall j v,
       ~ In (SetDAC j v)
            (concat (outputs (Sample chA 500 true true
                              :: samples chA (held [500; 500; 500])) st)).
Proof.
  apply (bounce_starts_no_note chA 500 true [500; 500; 500]
           (upd_statics (Channel.set_triggercounter (-3, 0)) triggered_state));
    vm_compute; congruence.
Defined.

(** ** The rotation keys *)

(** The state after the up key and after the down key. *)
Lemma key_up_state (st : State) :
  mode st = Mode.normal ->
  0 <= PersistentState.rotatesemitones (state st) <= 11 ->
  keyDownEvent KEY_UP false st
  = Some (touch_autosave
            (updateRotation
               (upd_state
                  (PersistentState.set_rotatesemitones
                     ((PersistentState.rotatesemitones (state st) + 1) mod 12))
                  st))).
Proof.
  intros Hm Hr. unfold keyDownEvent. rewrite Hm. unfold keyDown_normal.
  cbn [negb]. change (KEY_UP <? 12) with false.
  change (KEY_UP =? KEY_LOAD) with false. change (KEY_UP =? KEY_UP) with true.
  cbv iota. do 3 f_equal. unfold upd_state.
  cbn -[to_schar Z.add Z.modulo].
  rewrite !to_schar_small by lia.
  destruct (Z.eq_dec (PersistentState.rotatesemitones (state st)) 11) as [E|E].
  - rewrite E. reflexivity.
  - replace (PersistentState.rotatesemitones (state st) + 1 =? 12) with false
      by (symmetry; apply Z.eqb_neq; lia).
    rewrite Z.mod_small by lia. reflexivity.
Qed.

Lemma key_down_state (st : State) :
  mode st = Mode.normal ->
  0 <= PersistentState.rotatesemitones (state st) <= 11 ->
  keyDownEvent KEY_DOWN false st
  = Some (touch_autosave
            (updateRotation
               (upd_state
                  (PersistentState.set_rotatesemitones
                     ((PersistentState.rotatesemitones (state st) - 1) mod 12))
                  st))).
Proof.
  intros Hm Hr. unfold keyDownEvent. rewrite Hm. unfold keyDown_normal.
  cbn [negb]. change (KEY_DOWN <? 12) with false.
  change (KEY_DOWN =? KEY_LOAD) with false.
  change (KEY_DOWN =? KEY_UP) with false.
  change (KEY_DOWN =? KEY_DOWN) with true.
  cbv iota. do 3 f_equal. unfold upd_state.
  destruct (Z.eq_dec (PersistentState.rotatesemitones (state st)) 0) as [E|E].
  - rewrite E. reflexivity.
  - replace (PersistentState.rotatesemitones (state st) =? 0) with false
      by (symmetry; apply Z.eqb_neq; lia).
    cbn -[to_schar Z.sub Z.modulo].
    rewrite to_schar_small by lia. rewrite Z.mod_small by lia. reflexivity.
Qed.

(** X26. The up and down keys of the normal mode undo each other: with the
    base rotation in 0..11 and the rotated scale up to date, up followed
    by down, and down followed by up, end with the base rotation, the
    scale and the rotated scale they started from; up adds 1 to the base
    rotation modulo 12 and down subtracts 1. *)
Theorem rotation_keys_undo_each_other (st : State) (k1 k2 : Z) :
  mode st = Mode.normal ->
  0 <= PersistentState.rotatesemitones (state st) <= 11 ->
  rotation_current st ->
  (k1 = KEY_UP /\ k2 = KEY_DOWN) \/ (k1 = KEY_DOWN /\ k2 = KEY_UP) ->
  exists st1 st2,
    keyDownEvent k1 false st = Some st1
    /\ keyDownEvent k2 false st1 = Some st2
    /\ PersistentState.rotatesemitones (state st1)
       = (if k1 =? KEY_UP
          then PersistentState.rotatesemitones (state st) + 1
          else PersistentState.rotatesemitones (state st) - 1) mod 12
    /\ PersistentState.rotatesemitones (state st2)
       = PersistentState.rotatesemitones (state st)
    /\ PersistentState.scale (state st2) = PersistentState.scale (state st)
    /\ rotatedscale st2 = rotatedscale st.
Proof.
  intros Hm Hr Hcur Hk.
  unfold rotation_current in Hcur. rewrite updateRotation_rotatedscale in Hcur.
  set (r := PersistentState.rotatesemitones (state st)) in *.
  destruct Hk as [[-> ->] | [-> ->]].
  - pose proof (key_up_state st Hm Hr) as K1. fold r in K1.
    set (st1 := touch_autosave
                  (updateRotation
                     (upd_state
                        (PersistentState.set_rotatesemitones ((r + 1) mod 12))
                        st))) in *.
    assert (R1 : PersistentState.rotatesemitones (state st1) = (r + 1) mod 12)
      by reflexivity.
    pose proof (Z.mod_pos_bound (r + 1) 12 ltac:(lia)) as B1.
    pose proof (key_down_state st1 Hm ltac:(rewrite R1; lia)) as K2.
    rewrite R1, Zminus_mod_idemp_l in K2.
    replace (r + 1 - 1) with r in K2 by lia.
    rewrite (Z.mod_small r) in K2 by lia.
    exists st1. eexists. split; [exact K1|]. split; [exact K2|].
    split; [exact R1|]. split; [reflexivity|]. split; [reflexivity|].
    unfold touch_autosave. cbn [rotatedscale set_autosavecounter].
    rewrite updateRotation_rotatedscale. symmetry. exact Hcur.
  - pose proof (key_down_state st Hm Hr) as K1. fold r in K1.
    set (st1 := touch_autosave
                  (updateRotation
                     (upd_state
                        (PersistentState.set_rotatesemitones ((r - 1) mod 12))
                        st))) in *.
    assert (R1 : PersistentState.rotatesemitones (state st1) = (r - 1) mod 12)
      by reflexivity.
    pose proof (Z.mod_pos_bound (r - 1) 12 ltac:(lia)) as B1.
    pose proof (key_up_state st1 Hm ltac:(rewrite R1; lia)) as K2.
    rewrite R1, Zplus_mod_idemp_l in K2.
    replace (r - 1 + 1) with r in K2 by lia.
    rewrite (Z.mod_small r) in K2 by lia.
    exists st1. eexists. split; [exact K1|]. split; [exact K2|].
    split; [exact R1|]. split; [reflexivity|]. split; [reflexivity|].
    unfold touch_autosave. cbn [rotatedscale set_autosavecounter].
    rewrite updateRotation_rotatedscale. symmetry. exact Hcur.
Qed.

Lemma rotation_keys_undo_each_other_witness :
  exists st1 st2,
    keyDownEvent KEY_DOWN false started_state = Some st1
    /\ keyDownEvent KEY_UP false st1 = Some st2
    /\ PersistentState.rotatesemitones (state st1)
       = (if KEY_DOWN =? KEY_UP
          then PersistentState.rotatesemitones (state started_state) + 1
          else PersistentState.rotatesemitones (state started_state) - 1) mod 12
    /\ PersistentState.rotatesemitones (state st2)
       = PersistentState.rotatesemitones (state started_state)
    /\ PersistentState.scale (state st2)
       = PersistentState.scale (state started_state)
    /\ rotatedscale st2 = rotatedscale started_state.
Proof.
  apply (rotation_keys_undo_each_other started_state KEY_DOWN KEY_UP);
    [reflexivity | vm_compute; split; congruence | reflexivity
    | right; split; reflexivity].
Defined.

(** ** The front panel *)

Lemma byte_bits (x : Z) :
  0 <= x -> (forall m, 8 <= m -> Z.testbit x m = false) -> x < 256.
Proof.
  intros H0 Hb. destruct (Z.eq_dec x 0) as [->|Hne]; [lia|].
  assert (Hl : Z.log2 x < 8).
  { destruct (Z.lt_ge_cases (Z.log2 x) 8) as [|Hge]; [assumption|].
    pose proof (Z.bit_log2 x ltac:(lia)) as Hbit.
    rewrite Hb in Hbit by lia. discriminate. }
  apply Z.log2_lt_pow2 in Hl; [|lia]. exact Hl.
Qed.

Lemma to_byte_bits (x m : Z) :
  0 <= m -> Z.testbit (to_byte x) m = (m <? 8) && Z.testbit x m.
Proof.
  intros Hm. unfold to_byte. change 256 with (2 ^ 8).
  destruct (Z.ltb_spec m 8).
  - rewrite Z.mod_pow2_bits_low by lia. reflexivity.
  - rewrite Z.mod_pow2_bits_high by lia. reflexivity.
Qed.

Lemma to_byte_range (x : Z) : 0 <= to_byte x < 256.
Proof. unfold to_byte. apply Z.mod_pos_bound. lia. Qed.

(** One round of [shiftIO] on the byte. *)
Lemma shift_in_bits (data : Z) (b : bool) (m : Z) :
  0 <= m < 8 ->
  Z.testbit (if b then Z.lor (to_byte (Z.shiftl data 1)) 1
             else to_byte (Z.shiftl data 1)) m
  = if m =? 0 then b else Z.testbit data (m - 1).
Proof.
  intros Hm.
  assert (H1 : Z.testbit (to_byte (Z.shiftl data 1)) m
               = if m =? 0 then false else Z.testbit data (m - 1)).
  { rewrite to_byte_bits by lia.
    replace (m <? 8) with true by (symmetry; apply Z.ltb_lt; lia).
    cbn [andb]. destruct (Z.eqb_spec m 0) as [->|Hne].
    - apply Z.shiftl_spec_low. lia.
    - apply Z.shiftl_spec. lia. }
  destruct b.
  - rewrite Z.lor_spec, H1. destruct (Z.eqb_spec m 0) as [->|Hne].
    + reflexivity.
    + change 1 with (Z.ones 1). rewrite Z.ones_spec_high by lia.
      apply orb_false_r.
  - exact H1.
Qed.

Lemma shift_in_range (data : Z) (b : bool) :
  0 <= (if b then Z.lor (to_byte (Z.shiftl data 1)) 1
        else to_byte (Z.shiftl data 1)) < 256.
Proof.
  pose proof (to_byte_range (Z.shiftl data 1)) as H.
  destruct b; [|exact H]. split.
  - apply Z.lor_nonneg. lia.
  - apply byte_bits; [apply Z.lor_nonneg; lia|].
    intros m Hm. rewrite Z.lor_spec, to_byte_bits by lia.
    replace (m <? 8) with false by (symmetry; apply Z.ltb_ge; lia).
    change 1 with (Z.ones 1). rewrite Z.ones_spec_high by lia. reflexivity.
Qed.

Lemma shiftIO_loop_spec (n : nat) :
  forall (data : Z) (sdi : list bool),
    (n <= 8)%nat -> length sdi = n -> 0 <= data < 256 ->
    let '(r, out) := shiftIO_loop n data sdi in
    0 <= r < 256
    /\ (forall m, 0 <= m < 8 ->
          Z.testbit r m
          = if m <? Z.of_nat n then nth (Z.to_nat (Z.of_nat n - 1 - m)) sdi false
            else Z.testbit data (m - Z.of_nat n))
    /\ length out = n
    /\ (forall j, (j < n)%nat ->
          nth j out false = Z.testbit data (7 - Z.of_nat j)).
Proof.
  induction n as [|n IH]; intros data sdi Hn Hlen Hd.
  - cbn [shiftIO_loop]. split; [exact Hd|]. split; [|split].
    + intros m Hm. change (Z.of_nat 0) with 0. rewrite Z.sub_0_r.
      replace (m <? 0) with false by (symmetry; apply Z.ltb_ge; lia).
      reflexivity.
    + reflexivity.
    + intros j Hj. lia.
  - destruct sdi as [|b sdi]; [discriminate|].
    cbn [shiftIO_loop hd tl]. cbn [length] in Hlen.
    set (data' := if b then Z.lor (to_byte (Z.shiftl data 1)) 1
                  else to_byte (Z.shiftl data 1)).
    pose proof (shift_in_range data b) as Hr. fold data' in Hr.
    specialize (IH data' sdi ltac:(lia) ltac:(lia) Hr).
    destruct (shiftIO_loop n data' sdi) as [r out].
    destruct IH as (I1 & I2 & I3 & I4).
    split; [exact I1|]. split; [|split].
    + intros m Hm. rewrite (I2 m Hm).
      destruct (Z.ltb_spec m (Z.of_nat n)) as [Hlt|Hge].
      * replace (m <? Z.of_nat (S n)) with true by (symmetry; apply Z.ltb_lt; lia).
        replace (Z.to_nat (Z.of_nat (S n) - 1 - m))
          with (S (Z.to_nat (Z.of_nat n - 1 - m))) by lia.
        reflexivity.
      * unfold data'. rewrite shift_in_bits by lia.
        destruct (Z.eqb_spec (m - Z.of_nat n) 0) as [E|E].
        -- replace (m <? Z.of_nat (S n)) with true
             by (symmetry; apply Z.ltb_lt; lia).
           replace (Z.to_nat (Z.of_nat (S n) - 1 - m)) with 0%nat by lia.
           reflexivity.
        -- replace (m <? Z.of_nat (S n)) with false
             by (symmetry; apply Z.ltb_ge; lia).
           f_equal. lia.
    + cbn [length]. lia.
    + intros j Hj. destruct j as [|j].
      * cbn [nth]. change (Z.shiftl 1 7) with (2 ^ 7).
        rewrite land_pow2 by lia. change (7 - Z.of_nat 0) with 7.
        destruct (Z.testbit data 7); reflexivity.
      * cbn [nth]. rewrite I4 by lia. unfold data'.
        rewrite shift_in_bits by lia.
        replace (7 - Z.of_nat j =? 0) with false
          by (symmetry; apply Z.eqb_neq; lia).
        f_equal. lia.
Qed.

(** X27. [shiftIO] returns the eight bits read from the switch register,
    the first one read as bit 7, whatever byte it sends, and it sends the
    bits of its argument to the LED register with bit 7 first. *)
Theorem shiftIO_transfers_bits (data : Z) (sdi : list bool) :
  0 <= data <= 255 -> length sdi = 8%nat ->
  let '(r, out) := shiftIO data sdi in
  0 <= r <= 255
  /\ (forall k, 0 <= k < 8 ->
        Z.testbit r (7 - k) = nth (Z.to_nat k) sdi false)
  /\ length out = 8%nat
  /\ (forall k, 0 <= k < 8 ->
        nth (Z.to_nat k) out false = Z.testbit data (7 - k)).
Proof.
  intros Hd Hlen. unfold shiftIO.
  pose proof (shiftIO_loop_spec 8 data sdi ltac:(lia) Hlen ltac:(lia)) as H.
  destruct (shiftIO_loop 8 data sdi) as [r out].
  destruct H as (H1 & H2 & H3 & H4).
  split; [lia|]. split; [|split; [exact H3|]].
  - intros k Hk. rewrite H2 by lia. change (Z.of_nat 8) with 8.
    replace (7 - k <? 8) with true by (symmetry; apply Z.ltb_lt; lia).
    f_equal. lia.
  - intros k Hk. rewrite H4 by lia. f_equal. lia.
Qed.

Lemma shiftIO_transfers_bits_witness :
  let '(r, out) :=
    shiftIO 0xA5 [true; true; false; false; true; false; true; true] in
  0 <= r <= 255
  /\ (forall k, 0 <= k < 8 ->
        Z.testbit r (7 - k)
        = nth (Z.to_nat k) [true; true; false; false; true; false; true; true]
              false)
  /\ length out = 8%nat
  /\ (forall k, 0 <= k < 8 ->
        nth (Z.to_nat k) out false = Z.testbit 0xA5 (7 - k)).
Proof.
  apply (shiftIO_transfers_bits 0xA5
           [true; true; false; false; true; false; true; true]);
    [lia|reflexivity].
Defined.

Lemma nth_insert_same {A} (l : list A) (i : nat) (x d : A) :
  (i < length l)%nat -> nth i (<[i := x]> l) d = x.
Proof. intros H. rewrite nth_lookup, list_lookup_insert_eq by exact H. reflexivity. Qed.

Lemma nth_insert_other {A} (l : list A) (i j : nat) (x d : A) :
  i <> j -> nth j (<[i := x]> l) d = nth j l d.
Proof. intros H. rewrite !nth_lookup, list_lookup_insert_ne by exact H. reflexivity. Qed.

Lemma or_fold_bits (buf : list Z) (l : list nat) :
  forall acc, 0 <= acc < 256 ->
    let r := fold_left (fun acc i => to_byte (Z.lor acc (nth i buf 0))) l acc in
    0 <= r < 256
    /\ forall m, 0 <= m < 8 ->
         Z.testbit r m
         = Z.testbit acc m || existsb (fun j => Z.testbit (nth j buf 0) m) l.
Proof.
  induction l as [|i l IH]; intros acc Ha; cbv zeta.
  - cbn. split; [exact Ha|]. intros m Hm. rewrite orb_false_r. reflexivity.
  - cbn [fold_left existsb].
    destruct (IH (to_byte (Z.lor acc (nth i buf 0))) (to_byte_range _)) as [I1 I2].
    split; [exact I1|]. intros m Hm. rewrite I2 by exact Hm.
    rewrite to_byte_bits by lia.
    replace (m <? 8) with true by (symmetry; apply Z.ltb_lt; lia).
    cbn [andb]. rewrite Z.lor_spec, orb_assoc. reflexivity.
Qed.

Lemma debounced_bits (buf : list Z) :
  0 <= debounced buf < 256
  /\ forall m, 0 <= m < 8 ->
       Z.testbit (debounced buf) m
       = existsb (fun j => Z.testbit (nth j buf 0) m)
                 (seq 0 (Z.to_nat SWITCH_DEBOUNCE)).
Proof.
  unfold debounced.
  destruct (or_fold_bits buf (seq 0 (Z.to_nat SWITCH_DEBOUNCE)) 0 ltac:(lia))
    as [H1 H2].
  split; [exact H1|]. intros m Hm. rewrite H2 by exact Hm.
  rewrite Z.bits_0. reflexivity.
Qed.

Lemma existsb_ext_seq (f g : nat -> bool) (n : nat) :
  (forall j, (j < n)%nat -> f j = g j) ->
  existsb f (seq 0 n) = existsb g (seq 0 n).
Proof.
  intros H. induction n as [|n IH]; [reflexivity|].
  rewrite seq_S, !existsb_app. cbn [existsb Nat.add].
  rewrite IH by (intros; apply H; lia). rewrite H by lia. reflexivity.
Qed.

(** The bits of [edge = (edge0 << 8) | edge1]. *)
Lemma edge_bits (edge0 edge1 k : Z) :
  0 <= edge0 < 256 -> 0 <= edge1 < 256 -> 0 <= k < 16 ->
  Z.testbit (to_uint (Z.lor (Z.shiftl edge0 8) edge1)) (15 - k)
  = switch_bit k edge0 edge1.
Proof.
  intros H0 H1 Hk. unfold to_uint, switch_bit. change 65536 with (2 ^ 16).
  rewrite Z.mod_pow2_bits_low by lia. rewrite Z.lor_spec.
  destruct (Z.ltb_spec k 8).
  - rewrite Z.shiftl_spec by lia.
    replace (15 - k - 8) with (7 - k) by lia.
    replace (Z.testbit edge1 (15 - k)) with false; [apply orb_false_r|].
    symmetry. apply Z.bits_above_log2; [lia|].
    destruct (Z.eq_dec edge1 0) as [->|Hne]; [cbn; lia|].
    assert (Z.log2 edge1 < 8) by (apply Z.log2_lt_pow2; lia). lia.
  - rewrite Z.shiftl_spec_low by lia. reflexivity.
Qed.

Lemma falling_bits (old new m : Z) :
  0 <= m < 8 ->
  Z.testbit (to_byte (Z.land old (Z.lnot new))) m
  = Z.testbit old m && negb (Z.testbit new m).
Proof.
  intros Hm. rewrite to_byte_bits by lia.
  replace (m <? 8) with true by (symmetry; apply Z.ltb_lt; lia).
  cbn [andb]. rewrite Z.land_spec, Z.lnot_spec by lia. reflexivity.
Qed.

Lemma switch_bit_falling (k old0 old1 new0 new1 : Z) :
  0 <= k < 16 ->
  switch_bit k (to_byte (Z.land old0 (Z.lnot new0)))
               (to_byte (Z.land old1 (Z.lnot new1)))
  = switch_bit k old0 old1 && negb (switch_bit k new0 new1).
Proof.
  intros Hk. unfold switch_bit.
  destruct (k <? 8) eqn:E; bool_to_prop; apply falling_bits; lia.
Qed.

Lemma switch_bit_debounced (k : Z) (buf0 buf1 : list Z) :
  0 <= k < 16 ->
  switch_bit k (debounced buf0) (debounced buf1)
  = existsb (fun j => switch_bit k (nth j buf0 0) (nth j buf1 0))
            (seq 0 (Z.to_nat SWITCH_DEBOUNCE)).
Proof.
  intros Hk. unfold switch_bit.
  destruct (k <? 8) eqn:E; bool_to_prop.
  - destruct (debounced_bits buf0) as [_ H]. apply H. lia.
  - destruct (debounced_bits buf1) as [_ H]. apply H. lia.
Qed.

Lemma shiftIO_in (data : Z) (sdi : list bool) :
  0 <= data < 256 -> length sdi = 8%nat ->
  0 <= fst (shiftIO data sdi) < 256
  /\ forall k, 0 <= k < 8 ->
       Z.testbit (fst (shiftIO data sdi)) (7 - k) = nth (Z.to_nat k) sdi false.
Proof.
  intros Hd Hlen. unfold shiftIO.
  pose proof (shiftIO_loop_spec 8 data sdi ltac:(lia) Hlen Hd) as H.
  destruct (shiftIO_loop 8 data sdi) as [r out].
  destruct H as (H1 & H2 & _). cbn [fst]. split; [exact H1|].
  intros k Hk. rewrite H2 by lia. change (Z.of_nat 8) with 8.
  replace (7 - k <? 8) with true by (symmetry; apply Z.ltb_lt; lia).
  f_equal. lia.
Qed.

Lemma switch_bit_read (k d0 d1 : Z) (sdi0 sdi1 : list bool) :
  0 <= d0 < 256 -> 0 <= d1 < 256 ->
  length sdi0 = 8%nat -> length sdi1 = 8%nat -> 0 <= k < 16 ->
  switch_bit k (fst (shiftIO d0 sdi0)) (fst (shiftIO d1 sdi1))
  = key_pin k sdi0 sdi1.
Proof.
  intros H0 H1 L0 L1 Hk. unfold switch_bit, key_pin.
  destruct (k <? 8) eqn:E; bool_to_prop.
  - apply shiftIO_in; [assumption..|lia].
  - replace (15 - k) with (7 - (k - 8)) by lia.
    apply shiftIO_in; [assumption..|lia].
Qed.

(** One call of [processIO], switch by switch. *)
Lemma scan_spec (displayscale : Z) (sdi0 sdi1 : list bool) (s : IO.t) :
  io_ok s -> length sdi0 = 8%nat -> length sdi1 = 8%nat ->
  let s' := fst (fst (processIO_scan displayscale sdi0 sdi1 s)) in
  let edge := snd (fst (processIO_scan displayscale sdi0 sdi1 s)) in
  io_ok s'
  /\ IO.debounceindex s' = (IO.debounceindex s + 1) mod SWITCH_DEBOUNCE
  /\ 0 <= edge < 65536
  /\ IO.shift s' = negb (key_state 15 s')
  /\ forall k, 0 <= k < 16 ->
       key_buffered k (Z.to_nat (IO.debounceindex s)) s' = key_pin k sdi0 sdi1
       /\ (forall j, j <> Z.to_nat (IO.debounceindex s) ->
             key_buffered k j s' = key_buffered k j s)
       /\ key_state k s'
          = existsb (fun j => key_buffered k j s')
                    (seq 0 (Z.to_nat SWITCH_DEBOUNCE))
       /\ Z.testbit edge (15 - k) = key_state k s && negb (key_state k s').
Proof.
  intros (Hi & Hl0 & Hl1) L0 L1. cbv zeta. unfold processIO_scan.
  set (ledstate0 := to_byte (Z.lnot (to_byte (Z.shiftr displayscale 8)))).
  set (ledstate1 := to_byte (Z.lnot (to_byte displayscale))).
  pose proof (switch_bit_read) as Hread.
  specialize (Hread) with (d0 := ledstate1) (d1 := ledstate0)
                          (sdi0 := sdi0) (sdi1 := sdi1).
  destruct (shiftIO ledstate1 sdi0) as [in0 out1].
  destruct (shiftIO ledstate0 sdi1) as [in1 out0].
  cbn [fst snd] in *. unfold SWITCH_DEBOUNCE in *.
  split; [|split; [|split; [|split]]].
  - unfold io_ok, SWITCH_DEBOUNCE.
    cbn [IO.debounceindex IO.switchdebounce0 IO.switchdebounce1].
    rewrite !length_insert. rewrite to_byte_small by lia.
    split; [|split; assumption].
    destruct (10 <=? IO.debounceindex s + 1) eqn:E; bool_to_prop; lia.
  - cbn [IO.debounceindex]. rewrite to_byte_small by lia.
    destruct (10 <=? IO.debounceindex s + 1) eqn:E; bool_to_prop.
    + replace (IO.debounceindex s + 1) with 10 by lia. reflexivity.
    + rewrite Z.mod_small by lia. reflexivity.
  - unfold to_uint. apply Z.mod_pos_bound. lia.
  - cbn [IO.shift]. unfold key_state, switch_bit.
    cbn [IO.switchstate0 IO.switchstate1].
    change (15 <? 8) with false. change (15 - 15) with 0. cbv iota.
    set (n1 := debounced _).
    destruct (Z.eqb_spec (Z.lor n1 254) 254) as [E|E].
    + assert (B : Z.testbit (Z.lor n1 254) 0 = false) by (rewrite E; reflexivity).
      rewrite Z.lor_spec in B. apply orb_false_iff in B as [-> _]. reflexivity.
    + destruct (Z.testbit n1 0) eqn:T; [reflexivity|]. exfalso. apply E.
      destruct (debounced_bits
                  (<[Z.to_nat (IO.debounceindex s) := in1]> (IO.switchdebounce1 s)))
        as [Hr _]. fold n1 in Hr.
      apply Z.bits_inj'. intros m Hm. rewrite Z.lor_spec.
      destruct (Z.eq_dec m 0) as [->|Hne]; [rewrite T; reflexivity|].
      destruct (Z.ltb_spec m 8).
      * replace (Z.testbit 254 m) with true; [apply orb_true_r|].
        assert (C : m = 1 \/ m = 2 \/ m = 3 \/ m = 4 \/ m = 5 \/ m = 6 \/ m = 7)
          by lia.
        repeat (destruct C as [-> | C]; [reflexivity|]). subst. reflexivity.
      * replace (Z.testbit n1 m) with false.
        -- reflexivity.
        -- symmetry. apply Z.bits_above_log2; [lia|].
           destruct (Z.eq_dec n1 0) as [E0|E0]; [rewrite E0; cbn; lia|].
           assert (Z.log2 n1 < 8) by (apply Z.log2_lt_pow2; lia). lia.
  - intros k Hk.
    assert (Hidx : (Z.to_nat (IO.debounceindex s) < 10)%nat) by lia.
    split; [|split; [|split]].
    + unfold key_buffered. cbn [IO.switchdebounce0 IO.switchdebounce1].
      rewrite !nth_insert_same by lia.
      apply Hread; try assumption; unfold ledstate0, ledstate1;
        apply to_byte_range.
    + intros j Hj. unfold key_buffered.
      cbn [IO.switchdebounce0 IO.switchdebounce1].
      rewrite !nth_insert_other by lia. reflexivity.
    + unfold key_state, key_buffered.
      cbn [IO.switchstate0 IO.switchstate1 IO.switchdebounce0
           IO.switchdebounce1].
      apply switch_bit_debounced. exact Hk.
    + rewrite edge_bits by (try apply to_byte_range; exact Hk).
      rewrite switch_bit_falling by exact Hk. reflexivity.
Qed.

Lemma shifted_edge_bit (edge i : Z) :
  0 <= i < 16 ->
  (Z.land (to_uint (Z.shiftl edge i)) 0x8000 =? 0)
  = negb (Z.testbit edge (15 - i)).
Proof.
  intros Hi. change 0x8000 with (2 ^ 15). rewrite land_pow2 by lia.
  unfold to_uint. change 65536 with (2 ^ 16).
  rewrite Z.mod_pow2_bits_low by lia. rewrite Z.shiftl_spec by lia.
  destruct (Z.testbit edge (15 - i)); reflexivity.
Qed.

Lemma shifted_edge_next (edge i : Z) :
  0 <= i ->
  to_uint (Z.shiftl (to_uint (Z.shiftl edge i)) 1) = to_uint (Z.shiftl edge (i + 1)).
Proof.
  intros Hi. unfold to_uint. change 65536 with (2 ^ 16).
  apply Z.bits_inj'. intros m Hm.
  destruct (Z.ltb_spec m 16).
  - rewrite !Z.mod_pow2_bits_low by lia.
    destruct (Z.eq_dec m 0) as [->|Hne].
    + rewrite Z.shiftl_spec_low, Z.shiftl_spec_low by lia. reflexivity.
    + rewrite Z.shiftl_spec by lia. rewrite Z.mod_pow2_bits_low by lia.
      rewrite !Z.shiftl_spec by lia. f_equal. lia.
  - rewrite !Z.mod_pow2_bits_high by lia. reflexivity.
Qed.

(** The calls of the key loop, when all of them return. *)
Lemma key_loop_calls (edge : Z) (shift : bool) (n : nat) :
  forall (i : Z) (st : State) (ks : list Z) (st' : State),
    0 <= i -> i + Z.of_nat n = 16 ->
    key_loop n i (to_uint (Z.shiftl edge i)) shift st = (ks, Some st') ->
    ks = filter (fun k => Z.testbit edge (15 - k) = true) (seqZ i (Z.of_nat n)).
Proof.
  induction n as [|n IH]; intros i st ks st' Hi Hn H.
  - cbn in H. inversion H. reflexivity.
  - cbn [key_loop] in H.
    rewrite shifted_edge_bit, negb_involutive in H by lia.
    rewrite shifted_edge_next in H by lia.
    rewrite to_byte_small in H by lia.
    rewrite seqZ_cons by lia.
    replace (Z.pred (Z.of_nat (S n))) with (Z.of_nat n) by lia.
    replace (Z.succ i) with (i + 1) by lia.
    destruct (Z.testbit edge (15 - i)) eqn:E.
    + rewrite filter_cons_True by exact E.
      destruct (keyDownEvent i shift st) as [st1|]; [|inversion H].
      destruct (key_loop n (i + 1) (to_uint (Z.shiftl edge (i + 1))) shift st1)
        as [ks1 r1] eqn:E1.
      inversion H; subst. f_equal.
      exact (IH (i + 1) st1 ks1 st' ltac:(lia) ltac:(lia) E1).
    + rewrite filter_cons_False by (rewrite E; discriminate).
      exact (IH (i + 1) st ks st' ltac:(lia) ltac:(lia) H).
Qed.

Lemma filter_ext_in {A} (P Q : A -> Prop) `{!forall x, Decision (P x)}
  `{!forall x, Decision (Q x)} (l : list A) :
  (forall x, In x l -> (P x <-> Q x)) -> filter P l = filter Q l.
Proof.
  induction l as [|x l IH]; intros Hext; [reflexivity|].
  rewrite !filter_cons.
  rewrite IH by (intros y Hy; apply Hext; right; exact Hy).
  pose proof (Hext x ltac:(left; reflexivity)) as Hx.
  destruct (decide (P x)), (decide (Q x)); tauto.
Qed.

Lemma no_edge_no_keys (i n : Z) :
  filter (fun k => Z.testbit 0 (15 - k) = true) (seqZ i n) = [].
Proof.
  induction (seqZ i n) as [|k l IH]; [reflexivity|].
  rewrite filter_cons_False by (rewrite Z.bits_0; discriminate). exact IH.
Qed.

(** X28. [processIO] raises one key event per falling edge of a debounced
    switch: after a call the debounced state of every switch is the OR of
    its last [SWITCH_DEBOUNCE] readings (a key counts as pressed only
    when all ten are low), the shift flag says whether key 15 is pressed
    in the new state, and, when every call returns, [keyDownEvent] is
    called, in ascending order and once each, for exactly the keys whose
    debounced state was high before the call and is low after it. *)
Theorem processIO_raises_falling_keys (displayscale : Z)
  (sdi0 sdi1 : list bool) (s : IO.t) (st : State) :
  io_ok s -> length sdi0 = 8%nat -> length sdi1 = 8%nat ->
  let '(s', keys, r, leds) := processIO displayscale sdi0 sdi1 s st in
  io_ok s'
  /\ (forall k, 0 <= k < 16 ->
        key_buffered k (Z.to_nat (IO.debounceindex s)) s' = key_pin k sdi0 sdi1
        /\ key_state k s'
           = existsb (fun j => key_buffered k j s')
                     (seq 0 (Z.to_nat SWITCH_DEBOUNCE)))
  /\ IO.shift s' = negb (key_state 15 s')
  /\ (r <> None ->
      keys = filter (fun k => key_state k s && negb (key_state k s') = true)
                    (seqZ 0 16)).
Proof.
  intros Hok L0 L1. unfold processIO.
  pose proof (scan_spec displayscale sdi0 sdi1 s Hok L0 L1) as H.
  cbv zeta in H.
  destruct (processIO_scan displayscale sdi0 sdi1 s) as [[s' edge] leds].
  cbn [fst snd] in H. destruct H as (H1 & H2 & H3 & H4 & H5).
  assert (Hk : forall ks,
             ks = filter (fun k => Z.testbit edge (15 - k) = true) (seqZ 0 16) ->
             ks = filter (fun k => key_state k s && negb (key_state k s') = true)
                         (seqZ 0 16)).
  { intros ks ->. apply filter_ext_in. intros k Hin.
    apply list_elem_of_In, elem_of_seqZ in Hin.
    rewrite (proj2 (proj2 (proj2 (H5 k ltac:(lia))))). reflexivity. }
  destruct (negb (edge =? 0)) eqn:E.
  - destruct (key_loop 16 0 edge (IO.shift s') (autosave_tick st)) as [keys r] eqn:Ek.
    split; [exact H1|]. split; [|split; [exact H4|]].
    + intros k Hk'. destruct (H5 k Hk') as (A & _ & B & _). split; assumption.
    + intros Hr. destruct r as [st'|]; [|congruence]. apply Hk.
      apply (key_loop_calls edge (IO.shift s') 16 0 (autosave_tick st) keys st');
        [lia|lia|].
      rewrite Z.shiftl_0_r. unfold to_uint. rewrite Z.mod_small by lia.
      exact Ek.
  - split; [exact H1|]. split; [|split; [exact H4|]].
    + intros k Hk'. destruct (H5 k Hk') as (A & _ & B & _). split; assumption.
    + intros _. apply Hk. bool_to_prop. subst edge.
      symmetry. apply no_edge_no_keys.
Qed.

(** *** A key that is held *)

Lemma existsb_seq_false (f : nat -> bool) (n : nat) :
  existsb f (seq 0 n) = false <-> forall j, (j < n)%nat -> f j = false.
Proof.
  split.
  - intros H j Hj.
    destruct (f j) eqn:E; [|reflexivity].
    assert (Hex : existsb f (seq 0 n) = true).
    { apply existsb_exists. exists j. split; [apply in_seq; lia|exact E]. }
    congruence.
  - intros H. destruct (existsb f (seq 0 n)) eqn:E; [|reflexivity].
    apply existsb_exists in E as (j & Hin & Hj). apply in_seq in Hin.
    rewrite H in Hj by lia. discriminate.
Qed.

Lemma key_events_cons (k e : Z) (edges : list Z) :
  key_events k (e :: edges)
  = ((if Z.testbit e (15 - k) then 1 else 0) + key_events k edges)%nat.
Proof.
  unfold key_events. rewrite filter_cons.
  destruct (Z.testbit e (15 - k)); destruct (decide _); try congruence;
    reflexivity.
Qed.

Lemma scans_cons (ds : Z) (sdi0 sdi1 : list bool)
  (rs : list (Z * list bool * list bool)) (s : IO.t) :
  scans ((ds, sdi0, sdi1) :: rs) s
  = (fst (scans rs (fst (fst (processIO_scan ds sdi0 sdi1 s)))),
     snd (fst (processIO_scan ds sdi0 sdi1 s))
     :: snd (scans rs (fst (fst (processIO_scan ds sdi0 sdi1 s))))).
Proof.
  cbn [scans]. destruct (processIO_scan ds sdi0 sdi1 s) as [[s' edge] leds].
  cbn [fst snd]. destruct (scans rs s') as [s'' edges]. reflexivity.
Qed.

(** One scan in which key [k] reads low. *)
Lemma low_scan (k ds : Z) (sdi0 sdi1 : list bool) (s : IO.t) :
  io_ok s -> 0 <= k < 16 ->
  length sdi0 = 8%nat -> length sdi1 = 8%nat ->
  key_pin k sdi0 sdi1 = false ->
  let s' := fst (fst (processIO_scan ds sdi0 sdi1 s)) in
  let edge := snd (fst (processIO_scan ds sdi0 sdi1 s)) in
  io_ok s' /\ debounce_current k s'
  /\ IO.debounceindex s' = (IO.debounceindex s + 1) mod SWITCH_DEBOUNCE
  /\ Z.testbit edge (15 - k) = key_state k s && negb (key_state k s')
  /\ key_buffered k (Z.to_nat (IO.debounceindex s)) s' = false
  /\ (forall j, key_buffered k j s = false -> key_buffered k j s' = false).
Proof.
  intros Hok Hk L0 L1 Hp. cbv zeta.
  destruct (scan_spec ds sdi0 sdi1 s Hok L0 L1) as (H1 & H2 & _ & _ & H5).
  cbv zeta in *. destruct (H5 k Hk) as (A & B & C & D).
  split; [exact H1|]. split; [exact C|]. split; [exact H2|].
  split; [exact D|]. split; [congruence|].
  intros j Hj. destruct (Nat.eq_dec j (Z.to_nat (IO.debounceindex s))) as [->|Hne].
  - congruence.
  - rewrite B by exact Hne. exact Hj.
Qed.

(** Once the debounced state is low, a held key raises nothing. *)
Lemma held_low_no_event (k : Z) (rs : list (Z * list bool * list bool)) :
  forall s,
    io_ok s -> 0 <= k < 16 -> readings_ok rs -> key_held k rs ->
    debounce_current k s -> key_state k s = false ->
    key_events k (snd (scans rs s)) = 0%nat.
Proof.
  induction rs as [|[[ds sdi0] sdi1] rs IH]; intros s Hok Hk Hr Hh Hc Hs.
  - reflexivity.
  - rewrite scans_cons. cbn [snd]. rewrite key_events_cons.
    apply Forall_inv in Hr as Hr1. apply Forall_inv_tail in Hr.
    apply Forall_inv in Hh as Hh1. apply Forall_inv_tail in Hh.
    cbn [fst snd] in Hr1, Hh1. destruct Hr1 as [L0 L1].
    destruct (low_scan k ds sdi0 sdi1 s Hok Hk L0 L1 Hh1)
      as (O' & C' & _ & E & _ & Keep).
    cbv zeta in *. rewrite E, Hs. cbn [andb].
    apply IH; try assumption.
    rewrite C'. apply existsb_seq_false. intros j Hj. apply Keep.
    unfold debounce_current in Hc. rewrite Hs in Hc. symmetry in Hc.
    exact (proj1 (existsb_seq_false _ _) Hc j Hj).
Qed.

Lemma held_key_once (k : Z) (rs : list (Z * list bool * list bool)) :
  forall s,
    io_ok s -> 0 <= k < 16 -> readings_ok rs -> key_held k rs ->
    (key_events k (snd (scans rs s)) <= 1)%nat.
Proof.
  induction rs as [|[[ds sdi0] sdi1] rs IH]; intros s Hok Hk Hr Hh.
  - cbn. lia.
  - rewrite scans_cons. cbn [snd]. rewrite key_events_cons.
    apply Forall_inv in Hr as Hr1. apply Forall_inv_tail in Hr.
    apply Forall_inv in Hh as Hh1. apply Forall_inv_tail in Hh.
    cbn [fst snd] in Hr1, Hh1. destruct Hr1 as [L0 L1].
    destruct (low_scan k ds sdi0 sdi1 s Hok Hk L0 L1 Hh1)
      as (O' & C' & _ & E & _ & _).
    cbv zeta in *. rewrite E.
    destruct (key_state k (fst (fst (processIO_scan ds sdi0 sdi1 s)))) eqn:S'.
    + rewrite andb_false_r. cbn [Nat.add].
      apply IH; assumption.
    + rewrite (held_low_no_event k rs _ O' Hk Hr Hh C' S').
      destruct (key_state k s); cbn; lia.
Qed.

(** A debounced state that goes from high to low raises the key. *)
Lemma falling_key_event (k : Z) (rs : list (Z * list bool * list bool)) :
  forall s,
    io_ok s -> 0 <= k < 16 -> readings_ok rs -> key_held k rs ->
    key_state k s = true -> key_state k (fst (scans rs s)) = false ->
    (1 <= key_events k (snd (scans rs s)))%nat.
Proof.
  induction rs as [|[[ds sdi0] sdi1] rs IH]; intros s Hok Hk Hr Hh Hs He.
  - cbn in He. congruence.
  - rewrite scans_cons in *. cbn [fst snd] in *. rewrite key_events_cons.
    apply Forall_inv in Hr as Hr1. apply Forall_inv_tail in Hr.
    apply Forall_inv in Hh as Hh1. apply Forall_inv_tail in Hh.
    cbn [fst snd] in Hr1, Hh1. destruct Hr1 as [L0 L1].
    destruct (low_scan k ds sdi0 sdi1 s Hok Hk L0 L1 Hh1)
      as (O' & C' & _ & E & _ & _).
    cbv zeta in *. rewrite E, Hs.
    destruct (key_state k (fst (fst (processIO_scan ds sdi0 sdi1 s)))) eqn:S'.
    + cbn [andb negb Nat.add]. apply IH; assumption.
    + cbn. lia.
Qed.

(** Low readings stay in the buffer while the key is held. *)
Lemma held_stays_low (k : Z) (j : nat) (rs : list (Z * list bool * list bool)) :
  forall s,
    io_ok s -> 0 <= k < 16 -> readings_ok rs -> key_held k rs ->
    key_buffered k j s = false ->
    key_buffered k j (fst (scans rs s)) = false.
Proof.
  induction rs as [|[[ds sdi0] sdi1] rs IH]; intros s Hok Hk Hr Hh Hb.
  - exact Hb.
  - rewrite scans_cons. cbn [fst].
    apply Forall_inv in Hr as Hr1. apply Forall_inv_tail in Hr.
    apply Forall_inv in Hh as Hh1. apply Forall_inv_tail in Hh.
    cbn [fst snd] in Hr1, Hh1. destruct Hr1 as [L0 L1].
    destruct (low_scan k ds sdi0 sdi1 s Hok Hk L0 L1 Hh1)
      as (O' & _ & _ & _ & _ & Keep).
    apply IH; try assumption. apply Keep. exact Hb.
Qed.

(** The ring buffer: [n] scans overwrite the [n] entries from the index
    on, cyclically. *)
Lemma held_covers (k : Z) (rs : list (Z * list bool * list bool)) :
  forall s (j : nat),
    io_ok s -> 0 <= k < 16 -> readings_ok rs -> key_held k rs ->
    (j < 10)%nat ->
    (Z.of_nat j - IO.debounceindex s) mod 10 < Z.of_nat (length rs) ->
    key_buffered k j (fst (scans rs s)) = false.
Proof.
  induction rs as [|[[ds sdi0] sdi1] rs IH]; intros s j Hok Hk Hr Hh Hj Hc.
  - cbn [length] in Hc.
    pose proof (Z.mod_pos_bound (Z.of_nat j - IO.debounceindex s) 10 ltac:(lia)).
    lia.
  - rewrite scans_cons. cbn [fst].
    apply Forall_inv in Hr as Hr1. apply Forall_inv_tail in Hr.
    apply Forall_inv in Hh as Hh1. apply Forall_inv_tail in Hh.
    cbn [fst snd] in Hr1, Hh1. destruct Hr1 as [L0 L1].
    destruct (low_scan k ds sdi0 sdi1 s Hok Hk L0 L1 Hh1)
      as (O' & _ & I' & _ & Low & _).
    cbv zeta in *. unfold SWITCH_DEBOUNCE in I'.
    destruct Hok as (Hi & _). unfold SWITCH_DEBOUNCE in Hi.
    destruct (Z.eq_dec (Z.of_nat j) (IO.debounceindex s)) as [E|E].
    + apply held_stays_low; try assumption.
      replace j with (Z.to_nat (IO.debounceindex s)) by lia. exact Low.
    + apply IH; try assumption. rewrite I'. cbn [length] in Hc.
      assert (Hm : (Z.of_nat j - (IO.debounceindex s + 1) mod 10) mod 10
                   = (Z.of_nat j - IO.debounceindex s) mod 10 - 1).
      { rewrite Zminus_mod_idemp_r.
        destruct (Z.lt_ge_cases (IO.debounceindex s) (Z.of_nat j)).
        - rewrite !Z.mod_small by lia. lia.
        - replace (Z.of_nat j - (IO.debounceindex s + 1))
            with (Z.of_nat j - IO.debounceindex s + 9 + (-1) * 10) by lia.
          replace (Z.of_nat j - IO.debounceindex s)
            with (Z.of_nat j - IO.debounceindex s + 10 + (-1) * 10) at 2 by lia.
          rewrite !Z.mod_add by lia. rewrite !Z.mod_small by lia. lia. }
      rewrite Hm. lia.
Qed.

Lemma scans_keep_current (k : Z) (rs : list (Z * list bool * list bool)) :
  forall s,
    io_ok s -> 0 <= k < 16 -> readings_ok rs -> key_held k rs ->
    rs <> [] ->
    debounce_current k (fst (scans rs s)).
Proof.
  induction rs as [|[[ds sdi0] sdi1] rs IH]; intros s Hok Hk Hr Hh Hne.
  - congruence.
  - rewrite scans_cons. cbn [fst].
    apply Forall_inv in Hr as Hr1. apply Forall_inv_tail in Hr.
    apply Forall_inv in Hh as Hh1. apply Forall_inv_tail in Hh.
    cbn [fst snd] in Hr1, Hh1. destruct Hr1 as [L0 L1].
    destruct (low_scan k ds sdi0 sdi1 s Hok Hk L0 L1 Hh1)
      as (O' & C' & _).
    destruct rs as [|r rs]; [exact C'|].
    apply IH; try assumption. discriminate.
Qed.

(** X29. A held key raises its event once: while every reading of key [k]
    is low, the calls of [processIO] find a falling edge of that key at
    most once; and when the debounced state of the key was high before
    (the key was released), [SWITCH_DEBOUNCE] or more such calls find it
    exactly once and leave the debounced state low. *)
Theorem held_key_raises_one_event (k : Z)
  (rs : list (Z * list bool * list bool)) (s : IO.t) :
  io_ok s -> 0 <= k < 16 -> readings_ok rs -> key_held k rs ->
  let '(s', edges) := scans rs s in
  (key_events k edges <= 1)%nat
  /\ (key_state k s = true ->
      SWITCH_DEBOUNCE <= Z.of_nat (length rs) ->
      key_events k edges = 1%nat /\ key_state k s' = false).
Proof.
  intros Hok Hk Hr Hh.
  pose proof (held_key_once k rs s Hok Hk Hr Hh) as Hle.
  pose proof (falling_key_event k rs s Hok Hk Hr Hh) as Hge.
  pose proof (scans_keep_current k rs s Hok Hk Hr Hh) as Hcur.
  pose proof (fun j => held_covers k rs s j Hok Hk Hr Hh) as Hcov.
  destruct (scans rs s) as [s' edges]. cbn [fst snd] in *.
  split; [exact Hle|]. intros Hs Hlen. unfold SWITCH_DEBOUNCE in Hlen.
  assert (Hlow : key_state k s' = false).
  { rewrite Hcur by (destruct rs; [cbn in Hlen; lia|discriminate]).
    apply existsb_seq_false. intros j Hj. change (Z.to_nat SWITCH_DEBOUNCE)
      with 10%nat in Hj.
    apply Hcov; [exact Hj|].
    pose proof (Z.mod_pos_bound (Z.of_nat j - IO.debounceindex s) 10 ltac:(lia)).
    lia. }
  split; [|exact Hlow]. specialize (Hge Hs Hlow). lia.
Qed.

Lemma processIO_raises_falling_keys_witness :
  let '(s', keys, r, leds) :=
    processIO 0 key3_pressed all_released pressing_io started_state in
  (io_ok s'
   /\ (forall k, 0 <= k < 16 ->
         key_buffered k (Z.to_nat (IO.debounceindex pressing_io)) s'
         = key_pin k key3_pressed all_released
         /\ key_state k s'
            = existsb (fun j => key_buffered k j s')
                      (seq 0 (Z.to_nat SWITCH_DEBOUNCE)))
   /\ IO.shift s' = negb (key_state 15 s')
   /\ (r <> None ->
       keys = filter (fun k => key_state k pressing_io
                               && negb (key_state k s') = true)
                     (seqZ 0 16)))
  /\ keys = [3] /\ r <> None.
Proof.
  pose proof (processIO_raises_falling_keys 0 key3_pressed all_released
                pressing_io started_state
                ltac:(vm_compute; repeat split; congruence)
                ltac:(reflexivity) ltac:(reflexivity)) as H.
  assert (K : snd (fst (fst (processIO 0 key3_pressed all_released pressing_io
                               started_state))) = [3]
              /\ snd (fst (processIO 0 key3_pressed all_released pressing_io
                             started_state)) <> None)
    by (vm_compute; split; [reflexivity|discriminate]).
  destruct (processIO 0 key3_pressed all_released pressing_io started_state)
    as [[[s' keys] r] leds].
  split; [exact H|exact K].
Defined.

Lemma held_key_raises_one_event_witness :
  let '(s', edges) := scans key3_readings released_io in
  (key_events 3 edges <= 1)%nat
  /\ (key_state 3 released_io = true ->
      SWITCH_DEBOUNCE <= Z.of_nat (length key3_readings) ->
      key_events 3 edges = 1%nat /\ key_state 3 s' = false).
Proof.
  apply (held_key_raises_one_event 3 key3_readings released_io);
    [vm_compute; repeat split; congruence | lia
    | repeat constructor | repeat constructor].
Defined.
